(** * VoiceLiveApi.FastApi: the WebSocket session bridge of [main.py]

    A shallow embedding of [WebSocketVoiceSession] (its constructor, [start],
    [_setup_session], the two relay coroutines [_receive_from_browser] and
    [_process_azure_events], and [_handle_azure_event]) together with the
    [/ws] endpoint, and the properties of the bridge that follow from it. *)

From Stdlib Require Import ZArith List Bool Lia.
From Stdlib Require Import Strings.String Strings.Ascii Strings.Byte.
Import ListNotations.

Open Scope string_scope.
Open Scope Z_scope.

(* ================================================================== *)
(** ** Base64, as [base64.b64encode] of the Python standard library

    [_handle_azure_event] calls [base64.b64encode(event.delta)] and decodes
    the resulting ASCII bytes to [str].  The function belongs to the Python
    standard library; it is the RFC 4648 encoding with the standard
    alphabet and [=] padding, which is what is written out here: three
    octets form a 24-bit group that is cut into four 6-bit digits. *)

Module Base64.

Definition alphabet : string :=
  "ABCDEFGHIJKLMNOPQRSTUVWXYZabcdefghijklmnopqrstuvwxyz0123456789+/".

Definition pad : ascii := "="%char.

(** The digit of a 6-bit value. *)
Definition digit (i : Z) : ascii :=
  match String.get (Z.to_nat i) alphabet with
  | Some c => c
  | None => pad
  end.

(** The 6-bit value of a digit, [None] outside the alphabet. *)
Definition value (c : ascii) : option Z :=
  let n := Z.of_N (N_of_ascii c) in
  if (65 <=? n) && (n <=? 90) then Some (n - 65)
  else if (97 <=? n) && (n <=? 122) then Some (n - 71)
  else if (48 <=? n) && (n <=? 57) then Some (n + 4)
  else if n =? 43 then Some 62
  else if n =? 47 then Some 63
  else None.

Definition octet (b : byte) : Z := Z.of_N (Byte.to_N b).

Definition of_octet (z : Z) : option byte := Byte.of_N (Z.to_N z).

(** The 24-bit group of three octets. *)
Definition group (a b c : Z) : Z := a * 65536 + b * 256 + c.

(** The four 6-bit digits of a 24-bit group, most significant first. *)
Definition sextet (k : nat) (n : Z) : Z :=
  match k with
  | 0%nat => n / 262144
  | 1%nat => (n / 4096) mod 64
  | 2%nat => (n / 64) mod 64
  | _ => n mod 64
  end.

Fixpoint b64encode (data : list byte) : string :=
  match data with
  | [] => EmptyString
  | [a] =>
      let n := group (octet a) 0 0 in
      String (digit (sextet 0 n)) (String (digit (sextet 1 n))
        (String pad (String pad EmptyString)))
  | [a; b] =>
      let n := group (octet a) (octet b) 0 in
      String (digit (sextet 0 n)) (String (digit (sextet 1 n))
        (String (digit (sextet 2 n)) (String pad EmptyString)))
  | a :: b :: c :: rest =>
      let n := group (octet a) (octet b) (octet c) in
      String (digit (sextet 0 n)) (String (digit (sextet 1 n))
        (String (digit (sextet 2 n)) (String (digit (sextet 3 n))
          (b64encode rest))))
  end.

(** The inverse direction: four digits back to a 24-bit group. *)
Definition ungroup (s0 s1 s2 s3 : Z) : Z :=
  s0 * 262144 + s1 * 4096 + s2 * 64 + s3.

Definition opt_bind {A B} (o : option A) (k : A -> option B) : option B :=
  match o with
  | Some a => k a
  | None => None
  end.

Definition decode3 (c0 c1 c2 c3 : ascii) : option (list byte) :=
  opt_bind (value c0) (fun s0 =>
  opt_bind (value c1) (fun s1 =>
  opt_bind (value c2) (fun s2 =>
  opt_bind (value c3) (fun s3 =>
  let n := ungroup s0 s1 s2 s3 in
  opt_bind (of_octet (n / 65536)) (fun a =>
  opt_bind (of_octet ((n / 256) mod 256)) (fun b =>
  opt_bind (of_octet (n mod 256)) (fun c =>
  Some [a; b; c]))))))).

Definition decode2 (c0 c1 c2 : ascii) : option (list byte) :=
  opt_bind (value c0) (fun s0 =>
  opt_bind (value c1) (fun s1 =>
  opt_bind (value c2) (fun s2 =>
  let n := ungroup s0 s1 s2 0 in
  opt_bind (of_octet (n / 65536)) (fun a =>
  opt_bind (of_octet ((n / 256) mod 256)) (fun b =>
  Some [a; b]))))).

Definition decode1 (c0 c1 : ascii) : option (list byte) :=
  opt_bind (value c0) (fun s0 =>
  opt_bind (value c1) (fun s1 =>
  let n := ungroup s0 s1 0 0 in
  opt_bind (of_octet (n / 65536)) (fun a =>
  Some [a]))).

(** Strict decoding: the input is a sequence of four-character groups, and
    padding is accepted in the last group only. *)
Fixpoint b64decode (s : string) : option (list byte) :=
  match s with
  | EmptyString => Some []
  | String c0 (String c1 (String c2 (String c3 rest))) =>
      match rest with
      | EmptyString =>
          if Ascii.eqb c3 pad then
            if Ascii.eqb c2 pad then decode1 c0 c1 else decode2 c0 c1 c2
          else decode3 c0 c1 c2 c3
      | _ =>
          opt_bind (decode3 c0 c1 c2 c3) (fun front =>
          opt_bind (b64decode rest) (fun back => Some (front ++ back)%list))
      end
  | _ => None
  end.

(** The check that [value] inverts [digit] at [i] and that the digit is not
    the padding character. *)
Definition digits_ok (i : nat) : bool :=
  match value (digit (Z.of_nat i)) with
  | Some j => (j =? Z.of_nat i) && negb (Ascii.eqb (digit (Z.of_nat i)) pad)
  | None => false
  end.

End Base64.

(* ================================================================== *)
(** ** Values exchanged with the browser

    [websocket.receive_json()] yields a parsed JSON text and
    [websocket.send_json(d)] takes a dict.  An object is kept as the list of
    its members in order, with distinct keys as in the dict it is parsed
    to; numbers are restricted to integers, no message of the protocol
    carries any other. *)

#[local] Unset Elimination Schemes.
Inductive json : Type :=
| JNull
| JBool (b : bool)
| JNum (n : Z)
| JStr (s : string)
| JArr (items : list json)
| JObj (members : list (string * json)).
#[local] Set Elimination Schemes.

(** Python truth value of a parsed JSON value ([if audio_base64 ...]). *)
Definition truthy (j : json) : bool :=
  match j with
  | JNull => false
  | JBool b => b
  | JNum n => negb (n =? 0)
  | JStr s => negb (s =? "")%string
  | JArr items => match items with [] => false | _ :: _ => true end
  | JObj members => match members with [] => false | _ :: _ => true end
  end.

(** [message_type == "audio"]: a JSON value equals a [str] literal only when
    it is that string. *)
Definition is_str (j : json) (lit : string) : bool :=
  match j with
  | JStr s => (s =? lit)%string
  | _ => false
  end.

Fixpoint lookup (key : string) (members : list (string * json)) : json :=
  match members with
  | [] => JNull
  | (k, v) :: rest => if (k =? key)%string then v else lookup key rest
  end.

(* ================================================================== *)
(** ** Exceptions and results *)

(** The exception classes the bridge distinguishes.  [Exception text] stands
    for any instance of [Exception] that is not a [WebSocketDisconnect], with
    [text] its [str()]; [CancelledError] derives from [BaseException] only,
    so [except Exception] lets it through. *)
Inductive exn : Type :=
| WebSocketDisconnect (text : string)
| Exception (text : string)
| CancelledError.

Definition is_Exception (e : exn) : bool :=
  match e with
  | CancelledError => false
  | _ => true
  end.

Definition str (e : exn) : string :=
  match e with
  | WebSocketDisconnect text => text
  | Exception text => text
  | CancelledError => ""
  end.

(** What evaluating a piece of a coroutine gives: a value, an exception, or
    [Suspended] when the coroutine stays at an [await] for ever on the
    inputs it was given. *)
Inductive result (A : Type) : Type :=
| Ok (a : A)
| Raise (e : exn)
| Suspended.

Arguments Ok {A} a.
Arguments Raise {A} e.
Arguments Suspended {A}.

(** How a call awaited on a peer (the browser socket, the upstream
    connection) or a finished task ends: with a value or with an
    exception. *)
Inductive outcome (A : Type) : Type :=
| Returns (a : A)
| Throws (e : exn).

Arguments Returns {A} a.
Arguments Throws {A} e.

(* ================================================================== *)
(** ** The upstream vocabulary (azure.ai.voicelive) *)

Inductive Modality : Type := TEXT | AUDIO.
Inductive AudioFormat : Type := PCM16.

Inductive VoiceConfig : Type :=
| AzureStandardVoice (name : string) (type : string)
| NamedVoice (name : string).

(** [threshold] is kept in thousandths: [0.5] is [500]. *)
Record ServerVad : Type := {
  threshold_milli : Z;
  prefix_padding_ms : Z;
  silence_duration_ms : Z
}.

Record RequestSession : Type := {
  modalities : list Modality;
  rs_instructions : string;
  rs_voice : VoiceConfig;
  input_audio_format : AudioFormat;
  output_audio_format : AudioFormat;
  turn_detection : ServerVad
}.

(** The calls the bridge makes on the upstream connection. *)
Inductive Command : Type :=
| session_update (session : RequestSession)
| input_audio_buffer_append (audio : json)
| response_cancel.

(** [ServerEventType]: the eight members the bridge dispatches on, and
    [OTHER] for every other member of the enumeration. *)
Inductive ServerEventType : Type :=
| SESSION_UPDATED
| INPUT_AUDIO_BUFFER_SPEECH_STARTED
| INPUT_AUDIO_BUFFER_SPEECH_STOPPED
| RESPONSE_CREATED
| RESPONSE_AUDIO_DELTA
| RESPONSE_AUDIO_DONE
| RESPONSE_DONE
| ERROR
| OTHER (tag : string).

(** [event.session] of a session-updated event, with the attribute the
    handler reads, [id]; it is [None] when the service left it out. *)
Record ResponseSession : Type := {
  sess_id : option string
}.

(** [event.error] of an error event, with its [message]. *)
Record ServerEventErrorDetails : Type := {
  err_message : option string
}.

(** An upstream event with what the handler reads of it: [event.session],
    [event.delta] and [event.error], each [None] on an event that does not
    carry it.  Reading [id] or [message] of an object that is [None]
    raises; reading it of an object that lacks it gives [None]. *)
Record ServerEvent : Type := {
  ev_type : ServerEventType;
  ev_session : option ResponseSession;
  ev_delta : option (list byte);
  ev_error : option ServerEventErrorDetails
}.

Inductive VoiceLiveConnection : Type := upstream.

(* ================================================================== *)
(** ** Session state, tasks and observable effects *)

Record Session : Type := {
  websocket : nat;
  endpoint : string;
  credential : string;
  model : string;
  voice : string;
  instructions : string;
  connection : option VoiceLiveConnection;
  session_ready : bool;
  active : bool
}.

Inductive Task : Type := receive_task | process_task.

Inductive Actor : Type :=
| Start
| Relay (t : Task)
| Endpoint.

Inductive Level : Type := INFO | ERROR_LEVEL.

(** Everything the bridge does that is visible outside the expression being
    evaluated, in the order it happens.  [logger.debug] calls do not appear:
    the module configures logging at level INFO. *)
Inductive Effect : Type :=
| Log (lvl : Level) (text : string)
| Accept
| SendJson (msg : json)
| Close
| Connect
| Disconnect
| Upstream (c : Command)
| SetConnection
| SetSessionReady (v : bool)
| SetActive (v : bool)
| CreateTask (t : Task)
| CancelTask (t : Task)
| AwaitTask (t : Task).

(** A relay coroutine, seen from the event loop. *)
Inductive TaskState : Type :=
| NotCreated
| Created
| Awaiting
| Finished (o : outcome unit).

Record World : Type := {
  self : Session;
  receive_state : TaskState;
  process_state : TaskState;
  trace : list (Actor * Effect)
}.

Definition task_state (w : World) (t : Task) : TaskState :=
  match t with
  | receive_task => receive_state w
  | process_task => process_state w
  end.

Definition set_task (t : Task) (s : TaskState) (w : World) : World :=
  match t with
  | receive_task =>
      {| self := self w; receive_state := s;
         process_state := process_state w; trace := trace w |}
  | process_task =>
      {| self := self w; receive_state := receive_state w;
         process_state := s; trace := trace w |}
  end.

Definition set_self (s : Session) (w : World) : World :=
  {| self := s; receive_state := receive_state w;
     process_state := process_state w; trace := trace w |}.

Definition record (a : Actor) (e : Effect) (w : World) : World :=
  {| self := self w; receive_state := receive_state w;
     process_state := process_state w; trace := trace w ++ [(a, e)] |}.

(* ================================================================== *)
(** ** A state-and-exception monad for coroutine bodies *)

Definition M (A : Type) : Type := World -> result A * World.

Definition ret {A} (a : A) : M A := fun w => (Ok a, w).

Definition raise {A} (e : exn) : M A := fun w => (Raise e, w).

Definition bind {A B} (m : M A) (k : A -> M B) : M B :=
  fun w =>
    match m w with
    | (Ok a, w1) => k a w1
    | (Raise e, w1) => (Raise e, w1)
    | (Suspended, w1) => (Suspended, w1)
    end.

Declare Scope session_scope.
Delimit Scope session_scope with session.
Notation "x <- m ;; k" := (bind m (fun x => k))
  (at level 61, m at next level, right associativity) : session_scope.
Notation "m ;; k" := (bind m (fun _ => k))
  (at level 61, right associativity) : session_scope.
Open Scope session_scope.

(** An awaited call that ends as [o]. *)
Definition lift {A} (o : outcome A) : M A :=
  fun w =>
    match o with
    | Returns a => (Ok a, w)
    | Throws e => (Raise e, w)
    end.

(** [try: body except ...]: [handlers e] is the clause that matches [e], if
    any. *)
Definition try_ {A} (body : M A) (handlers : exn -> option (M A)) : M A :=
  fun w =>
    match body w with
    | (Raise e, w1) =>
        match handlers e with
        | Some h => h w1
        | None => (Raise e, w1)
        end
    | other => other
    end.

(** [try: body finally: fin]. *)
Definition finally_ {A} (body : M A) (fin : M unit) : M A :=
  fun w =>
    match body w with
    | (Suspended, w1) => (Suspended, w1)
    | (r, w1) =>
        match fin w1 with
        | (Ok _, w2) => (r, w2)
        | (Raise e, w2) => (Raise e, w2)
        | (Suspended, w2) => (Suspended, w2)
        end
    end.

Definition emit (a : Actor) (e : Effect) : M unit :=
  fun w => (Ok tt, record a e w).

Definition get_self : M Session := fun w => (Ok (self w), w).

Definition log (a : Actor) (lvl : Level) (text : string) : M unit :=
  emit a (Log lvl text).

(** [self.active = v] *)
Definition set_active (a : Actor) (v : bool) : M unit :=
  fun w =>
    let s := self w in
    (Ok tt,
     record a (SetActive v)
       (set_self {| websocket := websocket s; endpoint := endpoint s;
                    credential := credential s; model := model s;
                    voice := voice s; instructions := instructions s;
                    connection := connection s;
                    session_ready := session_ready s; active := v |} w)).

(** [self.session_ready = v] *)
Definition set_session_ready (a : Actor) (v : bool) : M unit :=
  fun w =>
    let s := self w in
    (Ok tt,
     record a (SetSessionReady v)
       (set_self {| websocket := websocket s; endpoint := endpoint s;
                    credential := credential s; model := model s;
                    voice := voice s; instructions := instructions s;
                    connection := connection s;
                    session_ready := v; active := active s |} w)).

(** [self.connection = c] *)
Definition set_connection (a : Actor) (c : VoiceLiveConnection) : M unit :=
  fun w =>
    let s := self w in
    (Ok tt,
     record a SetConnection
       (set_self {| websocket := websocket s; endpoint := endpoint s;
                    credential := credential s; model := model s;
                    voice := voice s; instructions := instructions s;
                    connection := Some c;
                    session_ready := session_ready s; active := active s |} w)).

(** [await self.websocket.send_json(msg)], the call ending as [sent]. *)
Definition send_json (a : Actor) (msg : json) (sent : outcome unit) : M unit :=
  emit a (SendJson msg) ;; lift sent.

(** An awaited call on [self.connection], ending as [called]. *)
Definition upstream_call (a : Actor) (c : Command) (called : outcome unit) : M unit :=
  emit a (Upstream c) ;; lift called.

(** The name of the Python type of a parsed JSON value. *)
Definition type_name (j : json) : string :=
  match j with
  | JNull => "NoneType"
  | JBool _ => "bool"
  | JNum _ => "int"
  | JStr _ => "str"
  | JArr _ => "list"
  | JObj _ => "dict"
  end.

(** [data.get(key)]: [None] for a missing key, [AttributeError] when [data]
    is not a dict. *)
Definition dict_get (data : json) (key : string) : M json :=
  match data with
  | JObj members => ret (lookup key members)
  | _ =>
      raise (Exception ("'" ++ type_name data
                        ++ "' object has no attribute 'get'"))
  end.

(** Using an attribute of an event; [failure] is the text of the exception
    raised when the event does not carry it. *)
Definition attr {A} (failure : string) (field : option A) : M A :=
  match field with
  | Some a => ret a
  | None => raise (Exception failure)
  end.

(* ================================================================== *)
(** ** [WebSocketVoiceSession] *)

(** [__init__] (lines 84-101). *)
Definition __init__ (websocket : nat) (endpoint : string) (credential : string)
    (model voice instructions : string) : Session :=
  {| websocket := websocket; endpoint := endpoint; credential := credential;
     model := model; voice := voice; instructions := instructions;
     connection := None; session_ready := false; active := true |}.

(** The world of a session that has just been constructed. *)
Definition fresh (s : Session) : World :=
  {| self := s; receive_state := NotCreated; process_state := NotCreated;
     trace := [] |}.

(** Truth value of [self.connection]: it is [None] or a connection object. *)
Definition is_set (c : option VoiceLiveConnection) : bool :=
  match c with
  | Some _ => true
  | None => false
  end.

(** [assert self.connection is not None] *)
Definition assert_connection : M VoiceLiveConnection :=
  s <- get_self ;;
  match connection s with
  | Some c => ret c
  | None => raise (Exception "")
  end.

(** ["-" in self.voice] *)
Definition contains (needle hay : string) : bool :=
  match String.index 0 needle hay with
  | Some _ => true
  | None => false
  end.

(** [_setup_session] (lines 162-194); [updated] is how the awaited
    [session.update] call ends. *)
Definition _setup_session (updated : outcome unit) : M unit :=
  log Start INFO "Setting up Azure Voice Live session..." ;;
  s <- get_self ;;
  let voice_config :=
    if String.prefix "en-" (voice s) || contains "-" (voice s)
    then AzureStandardVoice (voice s) "azure-standard"
    else NamedVoice (voice s) in
  let turn_detection_config :=
    {| threshold_milli := 500; prefix_padding_ms := 300;
       silence_duration_ms := 500 |} in
  let session_config :=
    {| modalities := [TEXT; AUDIO];
       rs_instructions := instructions s;
       rs_voice := voice_config;
       input_audio_format := PCM16;
       output_audio_format := PCM16;
       turn_detection := turn_detection_config |} in
  assert_connection ;;
  upstream_call Start (session_update session_config) updated ;;
  log Start INFO "Azure session configured".

(** A value that may be [None]: as an f-string shows it, and as
    [send_json] serialises it. *)
Definition display (x : option string) : string :=
  match x with
  | Some text => text
  | None => "None"
  end.

Definition json_of (x : option string) : json :=
  match x with
  | Some text => JStr text
  | None => JNull
  end.

(** [_handle_azure_event] (lines 246-306).  [sent] is how the awaited
    [send_json] call ends, for the branches that make one. *)
Definition _handle_azure_event (event : ServerEvent) (sent : outcome unit) : M unit :=
  let me := Relay process_task in
  try_
    (match ev_type event with
     | SESSION_UPDATED =>
         session <- attr "'NoneType' object has no attribute 'id'"
                      (ev_session event) ;;
         log me INFO ("Session ready: " ++ display (sess_id session)) ;;
         set_session_ready me true ;;
         send_json me
           (JObj [("type", JStr "session_ready");
                  ("session_id", json_of (sess_id session))]) sent
     | INPUT_AUDIO_BUFFER_SPEECH_STARTED =>
         log me INFO "User speech started" ;;
         send_json me (JObj [("type", JStr "speech_started")]) sent
     | INPUT_AUDIO_BUFFER_SPEECH_STOPPED =>
         log me INFO "User speech stopped" ;;
         send_json me (JObj [("type", JStr "speech_stopped")]) sent
     | RESPONSE_CREATED =>
         log me INFO "Response created" ;;
         send_json me (JObj [("type", JStr "response_started")]) sent
     | RESPONSE_AUDIO_DELTA =>
         delta <- attr "a bytes-like object is required, not 'NoneType'"
                    (ev_delta event) ;;
         let audio_base64 := Base64.b64encode delta in
         send_json me
           (JObj [("type", JStr "audio"); ("audio", JStr audio_base64)]) sent
     | RESPONSE_AUDIO_DONE =>
         log me INFO "Response audio done" ;;
         send_json me (JObj [("type", JStr "response_audio_done")]) sent
     | RESPONSE_DONE =>
         log me INFO "Response complete" ;;
         send_json me (JObj [("type", JStr "response_done")]) sent
     | ERROR =>
         error <- attr "'NoneType' object has no attribute 'message'"
                    (ev_error event) ;;
         log me ERROR_LEVEL ("Azure error: " ++ display (err_message error)) ;;
         send_json me
           (JObj [("type", JStr "error");
                  ("message", json_of (err_message error))]) sent
     | OTHER _ => ret tt
     end)
    (fun e =>
       if is_Exception e
       then Some (log me ERROR_LEVEL ("Error handling Azure event: " ++ str e))
       else None).

(** *** The relay coroutines

    A relay coroutine waits at one place only for input of its own:
    [receive_json()] in [_receive_from_browser], the next item of
    [async for event in self.connection] in [_process_azure_events].  Each
    is written as what it does when it is first run ([_enter]) and what it
    does when that wait ends ([_resume]), up to the next wait or to its
    return. *)

Inductive Status : Type :=
| AtRead
| Returned.

Inductive LoopCtl : Type :=
| Continue
| Break.

(** The body of the [while] loop once [receive_json()] has given [data]
    (lines 203-222); [called] is how the upstream call ends, if one is
    made. *)
Definition receive_body (data : json) (called : outcome unit) : M LoopCtl :=
  let me := Relay receive_task in
  message_type <- dict_get data "type" ;;
  if is_str message_type "audio" then
    audio_base64 <- dict_get data "audio" ;;
    s <- get_self ;;
    if truthy audio_base64 && is_set (connection s) then
      upstream_call me (input_audio_buffer_append audio_base64) called ;;
      ret Continue
    else ret Continue
  else if is_str message_type "interrupt" then
    log me INFO "Interrupt requested by browser" ;;
    s <- get_self ;;
    if is_set (connection s) then
      upstream_call me response_cancel called ;;
      ret Continue
    else ret Continue
  else if is_str message_type "stop" then
    log me INFO "Stop requested by browser" ;;
    set_active me false ;;
    ret Break
  else ret Continue.

(** [while self.active:] followed by the [await] of the next message. *)
Definition while_active : M Status :=
  s <- get_self ;;
  if active s then ret AtRead else ret Returned.

(** The [except] clauses of [_receive_from_browser] (lines 224-229). *)
Definition receive_handlers (e : exn) : option (M Status) :=
  let me := Relay receive_task in
  match e with
  | WebSocketDisconnect _ =>
      Some (log me INFO "Browser disconnected during receive" ;;
            set_active me false ;;
            ret Returned)
  | Exception _ =>
      Some (log me ERROR_LEVEL ("Error receiving from browser: " ++ str e) ;;
            set_active me false ;;
            ret Returned)
  | CancelledError => None
  end.

Definition _receive_from_browser_enter : M Status :=
  try_ while_active receive_handlers.

Definition _receive_from_browser_resume
    (received : outcome json) (called : outcome unit) : M Status :=
  try_
    (data <- lift received ;;
     ctl <- receive_body data called ;;
     match ctl with
     | Break => ret Returned
     | Continue => while_active
     end)
    receive_handlers.

(** The [except] clause of [_process_azure_events] (lines 242-244). *)
Definition process_handlers (e : exn) : option (M Status) :=
  let me := Relay process_task in
  if is_Exception e
  then Some (log me ERROR_LEVEL ("Error processing Azure events: " ++ str e) ;;
             set_active me false ;;
             ret Returned)
  else None.

Definition _process_azure_events_enter : M Status :=
  try_ (assert_connection ;; ret AtRead) process_handlers.

(** [next] is what the iteration gives: an event, the end of the stream
    ([None]) or an exception. *)
Definition _process_azure_events_resume
    (next : outcome (option ServerEvent)) (sent : outcome unit) : M Status :=
  try_
    (item <- lift next ;;
     match item with
     | None => ret Returned
     | Some event =>
         s <- get_self ;;
         if negb (active s) then ret Returned
         else _handle_azure_event event sent ;; ret AtRead
     end)
    process_handlers.

(* ================================================================== *)
(** ** The event loop: running the two tasks

    asyncio runs one task at a time and changes task only at an [await]
    that suspends.  A turn is what a task does between two waits for input
    of its own; the sends it awaits inside a turn are given their outcome
    with the turn, so that no other task runs in the middle of a turn.  The
    turns of the two relay tasks interleave as a schedule dictates. *)

(** One turn of the event loop given to a relay task whose wait has ended. *)
Inductive Step : Type :=
| ResumeReceive (received : outcome json) (called : outcome unit)
| ResumeProcess (next : outcome (option ServerEvent)) (sent : outcome unit).

Definition step_task (s : Step) : Task :=
  match s with
  | ResumeReceive _ _ => receive_task
  | ResumeProcess _ _ => process_task
  end.

Definition step_code (s : Step) : M Status :=
  match s with
  | ResumeReceive received called => _receive_from_browser_resume received called
  | ResumeProcess next sent => _process_azure_events_resume next sent
  end.

(** A task that ran up to its next wait, its return or an exception. *)
Definition settle (t : Task) (r : result Status * World) : World :=
  match r with
  | (Ok AtRead, w) => set_task t Awaiting w
  | (Ok Returned, w) => set_task t (Finished (Returns tt)) w
  | (Raise e, w) => set_task t (Finished (Throws e)) w
  | (Suspended, w) => w
  end.

Definition enter_code (t : Task) : M Status :=
  match t with
  | receive_task => _receive_from_browser_enter
  | process_task => _process_azure_events_enter
  end.

(** The first run of a created task. *)
Definition enter (t : Task) (w : World) : World :=
  match task_state w t with
  | Created => settle t (enter_code t w)
  | _ => w
  end.

(** A step is taken by a task that is waiting; a finished task has no more
    steps. *)
Definition step (s : Step) (w : World) : World :=
  match task_state w (step_task s) with
  | Awaiting => settle (step_task s) (step_code s w)
  | _ => w
  end.

Fixpoint run (schedule : list Step) (w : World) : World :=
  match schedule with
  | [] => w
  | s :: rest => run rest (step s w)
  end.

Definition is_done (w : World) (t : Task) : bool :=
  match task_state w t with
  | Finished _ => true
  | _ => false
  end.

(** [asyncio.create_task(...)] *)
Definition create_task (t : Task) : M unit :=
  fun w => (Ok tt, record Start (CreateTask t) (set_task t Created w)).

(** [await asyncio.wait([receive_task, process_task],
    return_when=FIRST_COMPLETED)].  While [start] waits, the loop first runs
    both new tasks in the order of their creation, then gives the turns of
    [schedule]; the call returns [(done, pending)] once a task is done, and
    never when the turns end with both tasks still waiting. *)
Definition asyncio_wait (schedule : list Step) : M (list Task * list Task) :=
  fun w =>
    let w1 := run schedule (enter process_task (enter receive_task w)) in
    let all := [receive_task; process_task] in
    match filter (is_done w1) all with
    | [] => (Suspended, w1)
    | done => (Ok (done, filter (fun t => negb (is_done w1 t)) all), w1)
    end.

(** [task.cancel()]: [CancelledError] is thrown into the task at the wait
    it is suspended in. *)
Definition task_cancel (t : Task) : M unit :=
  fun w =>
    let thrown :=
      match t with
      | receive_task => ResumeReceive (Throws CancelledError) (Returns tt)
      | process_task => ResumeProcess (Throws CancelledError) (Returns tt)
      end in
    (Ok tt, step thrown (record Start (CancelTask t) w)).

(** [await task] *)
Definition await_task (t : Task) : M unit :=
  emit Start (AwaitTask t) ;;
  fun w =>
    match task_state w t with
    | Finished o => lift o w
    | _ => (Suspended, w)
    end.

(** [task.exception()] of a done task. *)
Definition task_exception (t : Task) : M (option exn) :=
  fun w =>
    match task_state w t with
    | Finished (Returns _) => (Ok None, w)
    | Finished (Throws CancelledError) => (Raise CancelledError, w)
    | Finished (Throws e) => (Ok (Some e), w)
    | _ => (Raise (Exception "Exception is not set."), w)
    end.

Fixpoint for_each {A} (items : list A) (body : A -> M unit) : M unit :=
  match items with
  | [] => ret tt
  | x :: rest => body x ;; for_each rest body
  end.

(** Lines 135-140.  [pending] and [done] are sets in the source; they are
    traversed here with the browser task first. *)
Definition cancel_pending (pending : list Task) : M unit :=
  for_each pending (fun task =>
    task_cancel task ;;
    try_ (await_task task)
      (fun e => match e with
                | CancelledError => Some (ret tt)
                | _ => None
                end)).

(** Lines 143-145. *)
Definition check_done (done : list Task) : M unit :=
  for_each done (fun task =>
    exc <- task_exception task ;;
    match exc with
    | Some e => raise e
    | None => ret tt
    end).

(** [async with connect(...) as connection: body]: [entered] is how
    entering the context ends; leaving it closes the upstream connection,
    on every way out of [body]. *)
Definition async_with {A} (entered : outcome VoiceLiveConnection)
    (body : VoiceLiveConnection -> M A) : M A :=
  emit Start Connect ;;
  c <- lift entered ;;
  fun w =>
    match body c w with
    | (Suspended, w1) => (Suspended, w1)
    | (r, w1) => (r, record Start Disconnect w1)
    end.

(** What the peers of one call of [start] do: how the upstream connect and
    [session.update] end, the turns the relay tasks get while [start]
    waits, and how the error notification of [start] ends. *)
Record StartEnv : Type := {
  connected : outcome VoiceLiveConnection;
  configured : outcome unit;
  schedule : list Step;
  notified : outcome unit
}.

(** Lines 119-132 of [start]: from entering the context to the return of
    [asyncio.wait]. *)
Definition relay_until_first (env : StartEnv) (connection : VoiceLiveConnection)
    : M (list Task * list Task) :=
  set_connection Start connection ;;
  _setup_session (configured env) ;;
  create_task receive_task ;;
  create_task process_task ;;
  asyncio_wait (schedule env).

(** Lines 134-145 of [start]: what follows the return of [asyncio.wait]. *)
Definition settle_race (waited : list Task * list Task) : M unit :=
  let '(done, pending) := waited in
  cancel_pending pending ;;
  check_done done.

(** The [except] clauses of [start] (lines 147-157); the inner [except:] is
    bare and swallows whatever the send raises. *)
Definition start_except (env : StartEnv) (e : exn) : option (M unit) :=
  match e with
  | WebSocketDisconnect _ =>
      Some (log Start INFO "Browser WebSocket disconnected")
  | Exception _ =>
      Some (log Start ERROR_LEVEL ("Session error: " ++ str e) ;;
            try_
              (send_json Start
                 (JObj [("type", JStr "error"); ("message", JStr (str e))])
                 (notified env))
              (fun _ => Some (ret tt)))
  | CancelledError => None
  end.

(** The [finally] clause of [start] (lines 158-160). *)
Definition start_finally : M unit :=
  set_active Start false ;;
  log Start INFO "Voice session ended".

(** The [try] block of [start] (lines 106-145). *)
Definition start_try (env : StartEnv) : M unit :=
  s <- get_self ;;
  log Start INFO ("Starting WebSocket voice session with model " ++ model s) ;;
  async_with (connected env) (fun connection =>
    waited <- relay_until_first env connection ;;
    settle_race waited).

(** [start] (lines 103-160). *)
Definition start (env : StartEnv) : M unit :=
  finally_ (try_ (start_try env) (start_except env)) start_finally.

(** The run of [start] up to the return of [asyncio.wait]. *)
Definition until_wait (env : StartEnv) : M (list Task * list Task) :=
  s <- get_self ;;
  log Start INFO ("Starting WebSocket voice session with model " ++ model s) ;;
  emit Start Connect ;;
  connection <- lift (connected env) ;;
  relay_until_first env connection.

(* ================================================================== *)
(** ** The [/ws] endpoint *)

Record Settings : Type := {
  AZURE_VOICELIVE_ENDPOINT : option string;
  AZURE_VOICELIVE_API_KEY : option string;
  VOICELIVE_MODEL : string;
  VOICELIVE_VOICE : string;
  VOICELIVE_INSTRUCTIONS : string
}.

(** [not x] for a value of [os.environ.get]. *)
Definition unset (x : option string) : bool :=
  match x with
  | None => true
  | Some s => (s =? "")%string
  end.

Definition text_of (x : option string) : string :=
  match x with
  | None => "None"
  | Some s => s
  end.

(** [websocket_endpoint] (lines 731-760), with every call on the browser
    socket succeeding. *)
Definition websocket_endpoint (cfg : Settings) (websocket : nat) (env : StartEnv)
    : result unit * list (Actor * Effect) :=
  let opening :=
    [(Endpoint, Accept);
     (Endpoint, Log INFO "Browser WebSocket connection accepted")] in
  if unset (AZURE_VOICELIVE_ENDPOINT cfg) || unset (AZURE_VOICELIVE_API_KEY cfg)
  then
    (Ok tt,
     opening ++
     [(Endpoint,
       SendJson (JObj [("type", JStr "error");
                       ("message",
                        JStr "Server not configured. Missing Azure credentials.")]));
      (Endpoint, Close)])%list
  else
    let endpoint :=
      "wss://" ++ text_of (AZURE_VOICELIVE_ENDPOINT cfg)
      ++ "?api-version=2024-02-15&model=" ++ VOICELIVE_MODEL cfg in
    let credential := text_of (AZURE_VOICELIVE_API_KEY cfg) in
    let session :=
      __init__ websocket endpoint credential (VOICELIVE_MODEL cfg)
        (VOICELIVE_VOICE cfg) (VOICELIVE_INSTRUCTIONS cfg) in
    let '(r, w) := start env (fresh session) in
    (r, (opening ++ trace w)%list).

(* ================================================================== *)
(** ** Reading a trace *)

(** The effects recorded after [w] on the way to [w']. *)
Definition added (w w' : World) : list (Actor * Effect) :=
  skipn (List.length (trace w)) (trace w').

(** The notifications handed to [websocket.send_json], in order. *)
Definition sends (l : list (Actor * Effect)) : list json :=
  flat_map (fun ae => match snd ae with SendJson msg => [msg] | _ => [] end) l.

(** The calls made on the upstream connection, in order. *)
Definition commands (l : list (Actor * Effect)) : list Command :=
  flat_map (fun ae => match snd ae with Upstream c => [c] | _ => [] end) l.

(** The values assigned to [self.active], in order. *)
Definition active_writes (l : list (Actor * Effect)) : list bool :=
  flat_map (fun ae => match snd ae with SetActive v => [v] | _ => [] end) l.

Definition by_start (ae : Actor * Effect) : bool :=
  match fst ae with
  | Start => true
  | _ => false
  end.

Definition by_relay (ae : Actor * Effect) : bool :=
  match fst ae with
  | Relay _ => true
  | _ => false
  end.

(** The values [self.active] takes over a session: its initial value, then
    every value assigned to it. *)
Definition active_history (s : Session) (l : list (Actor * Effect)) : list bool :=
  active s :: active_writes l.

(** How often a flag goes from [true] to [false], and from [false] to
    [true], along a history. *)
Fixpoint falls (h : list bool) : nat :=
  match h with
  | true :: ((false :: _) as rest) => S (falls rest)
  | _ :: rest => falls rest
  | [] => 0%nat
  end.

Fixpoint rises (h : list bool) : nat :=
  match h with
  | false :: ((true :: _) as rest) => S (rises rest)
  | _ :: rest => rises rest
  | [] => 0%nat
  end.

(** An assignment to one of the two flags. *)
Definition writes_flag (e : Effect) : bool :=
  match e with
  | SetActive _ | SetSessionReady _ => true
  | _ => false
  end.

(** The discipline the flag assignments of the code follow: [active] is
    only ever assigned [False]; [session_ready] is only ever assigned
    [True], by the upstream event task. *)
Definition flag_discipline (ae : Actor * Effect) : bool :=
  match ae with
  | (_, SetActive v) => negb v
  | (Relay process_task, SetSessionReady v) => v
  | (_, SetSessionReady _) => false
  | _ => true
  end.

Definition not_close (ae : Actor * Effect) : bool :=
  match snd ae with
  | Close => false
  | _ => true
  end.

(** No message goes out on either connection once [active] has been
    assigned [False]: [live] is the value of the flag before the first
    effect of the list. *)
Fixpoint quiet_once_inactive (live : bool) (l : list (Actor * Effect)) : bool :=
  match l with
  | [] => true
  | (_, SetActive v) :: rest => quiet_once_inactive v rest
  | (_, SendJson _) :: rest => live && quiet_once_inactive live rest
  | (_, Upstream _) :: rest => live && quiet_once_inactive live rest
  | _ :: rest => quiet_once_inactive live rest
  end.

(** A notification of the [response_done] family or an [error]
    notification. *)
Definition closing_notification (msg : json) : bool :=
  match msg with
  | JObj members =>
      is_str (lookup "type" members) "response_done"
      || is_str (lookup "type" members) "response_audio_done"
      || is_str (lookup "type" members) "error"
  | _ => false
  end.

Definition missing {A} (field : option A) : bool :=
  match field with
  | Some _ => false
  | None => true
  end.

(** An event of a handled type without the object its branch reads:
    [event.session], [event.delta] or [event.error] is [None], and using it
    raises. *)
Definition untranslatable (event : ServerEvent) : bool :=
  match ev_type event with
  | SESSION_UPDATED => missing (ev_session event)
  | RESPONSE_AUDIO_DELTA => missing (ev_delta event)
  | ERROR => missing (ev_error event)
  | _ => false
  end.

(* ================================================================== *)
(** ** Scenarios *)

Definition demo_session : Session :=
  __init__ 1 "wss://voice.example?api-version=2024-02-15&model=gpt-4o-realtime-preview"
    "key" "gpt-4o-realtime-preview" "alloy" "Be brief.".

(** A session in the middle of relaying: the upstream connection is set and
    both tasks wait for input. *)
Definition relaying : World :=
  {| self :=
       {| websocket := 1; endpoint := "wss://voice.example"; credential := "key";
          model := "gpt-4o-realtime-preview"; voice := "alloy";
          instructions := "Be brief."; connection := Some upstream;
          session_ready := false; active := true |};
     receive_state := Awaiting;
     process_state := Awaiting;
     trace := [] |}.

Definition msg_stop : json := JObj [("type", JStr "stop")].
Definition msg_audio (payload : string) : json :=
  JObj [("type", JStr "audio"); ("audio", JStr payload)].

(** The browser sends [stop] while the upstream is silent. *)
Definition env_stop : StartEnv :=
  {| connected := Returns upstream;
     configured := Returns tt;
     schedule := [ResumeReceive (Returns msg_stop) (Returns tt)];
     notified := Returns tt |}.

(** The upstream event stream fails; the browser message that was already
    on its way is delivered next. *)
Definition env_late_audio : StartEnv :=
  {| connected := Returns upstream;
     configured := Returns tt;
     schedule :=
       [ResumeProcess (Throws (Exception "upstream reset")) (Returns tt);
        ResumeReceive (Returns (msg_audio "AAAA")) (Returns tt)];
     notified := Returns tt |}.

(** The upstream service refuses the connection. *)
Definition env_refused : StartEnv :=
  {| connected := Throws (Exception "connection refused");
     configured := Returns tt;
     schedule := [];
     notified := Throws (WebSocketDisconnect "1006") |}.

(* ================================================================== *)
(** ** Statements of the specification that the code departs from *)

(** C1 as stated: once [asyncio.wait] has returned, [start] returns, having
    cancelled and awaited every pending task and released both
    connections. *)
Definition C1_as_stated (env : StartEnv) (w : World) : Prop :=
  forall done pending w1,
    until_wait env w = (Ok (done, pending), w1) ->
    exists r w',
      start env w = (r, w') /\ r <> Suspended /\
      (forall t, In t pending ->
         In (Start, CancelTask t) (added w1 w') /\
         In (Start, AwaitTask t) (added w1 w')) /\
      In (Start, Disconnect) (added w1 w') /\
      (exists a, In (a, Close) (added w1 w')).

(** C3 as stated, for the tag [audio]: one append command with the payload
    of the message, whatever the payload. *)
Definition C3_as_stated (w : World) (members : list (string * json)) : Prop :=
  is_str (lookup "type" members) "audio" = true ->
  forall called,
    commands (added w (snd (_receive_from_browser_resume (Returns (JObj members)) called w)))
    = [input_audio_buffer_append (lookup "audio" members)].

(** C5 as stated, for the browser loop: the failure of one upstream send
    leaves the loop waiting for the next message. *)
Definition C5_as_stated (w : World) (data : json) (e : exn) : Prop :=
  is_Exception e = true ->
  task_state w receive_task = Awaiting ->
  task_state (step (ResumeReceive (Returns data) (Throws e)) w) receive_task = Awaiting.

(** The line the [except] clause of [_receive_from_browser] that catches
    [e] logs (lines 224-229). *)
Definition receive_failure_log (e : exn) : Effect :=
  match e with
  | WebSocketDisconnect _ => Log INFO "Browser disconnected during receive"
  | _ => Log ERROR_LEVEL ("Error receiving from browser: " ++ str e)
  end.

(** C7 as stated: a relay task assigns neither flag. *)
Definition C7_as_stated (s : Step) (w : World) : Prop :=
  forall ae, In ae (added w (step s w)) -> writes_flag (snd ae) = true ->
             fst ae = Start.

(** The browser has gone when one of its calls ends in a
    [WebSocketDisconnect]. *)
Definition disconnect {A} (o : outcome A) : bool :=
  match o with
  | Throws (WebSocketDisconnect _) => true
  | _ => false
  end.

Definition browser_gone (env : StartEnv) : bool :=
  disconnect (notified env)
  || existsb (fun s => match s with
                       | ResumeReceive received _ => disconnect received
                       | ResumeProcess _ sent => disconnect sent
                       end) (schedule env).

(** C9 as stated: a session that ends, with the browser still connected,
    was sent a closing notification. *)
Definition C9_as_stated (env : StartEnv) (w : World) : Prop :=
  browser_gone env = false ->
  forall r w',
    start env w = (r, w') -> r <> Suspended ->
    existsb closing_notification (sends (added w w')) = true.

(* ================================================================== *)
(** ** Invariants of the traces *)

(** The notifications one call of the handler hands to the browser
    socket. *)
Definition notifications (event : ServerEvent) (sent : outcome unit) (w : World)
    : list json :=
  sends (added w (snd (_handle_azure_event event sent w))).

(** What every effect of the bridge satisfies. *)
Definition lawful (ae : Actor * Effect) : bool :=
  flag_discipline ae && not_close ae.

(** What every effect of a relay task satisfies. *)
Definition relay_lawful (ae : Actor * Effect) : bool :=
  lawful ae && by_relay ae.

Definition is_send (ae : Actor * Effect) : bool :=
  match snd ae with
  | SendJson _ => true
  | _ => false
  end.

(** What every effect of [start] up to the return of [asyncio.wait]
    satisfies: [start] itself has sent nothing to the browser. *)
Definition prelude_lawful (ae : Actor * Effect) : bool :=
  lawful ae && negb (by_start ae && is_send ae).

(** [w'] is [w] after more effects, all of them satisfying [P]; the value
    of [active] is the last one assigned. *)
Definition grows (P : Actor * Effect -> bool) (w w' : World) : Prop :=
  exists l,
    trace w' = (trace w ++ l)%list /\ forallb P l = true /\
    active (self w') = last (active_writes l) (active (self w)).

Definition sound {A} (P : Actor * Effect -> bool) (m : M A) : Prop :=
  forall w, grows P w (snd (m w)).

(** Code of a relay task: it never stays suspended between two of its
    reads, its effects are those of a relay task, and it leaves the task
    table alone. *)
Definition steady {A} (m : M A) : Prop :=
  forall w,
    fst (m w) <> Suspended /\ grows relay_lawful w (snd (m w)) /\
    receive_state (snd (m w)) = receive_state w /\
    process_state (snd (m w)) = process_state w.

(** No exception other than a cancellation leaves the computation. *)
Definition contained {A} (r : result A) : Prop :=
  match r with
  | Raise e => e = CancelledError
  | _ => True
  end.

(** The states a relay task is in once it has been started: waiting, or
    finished by returning or by a cancellation. *)
Definition tidy_state (s : TaskState) : bool :=
  match s with
  | Awaiting | Finished (Returns _) | Finished (Throws CancelledError) => true
  | _ => false
  end.

Definition tidy (w : World) : Prop :=
  forall t, tidy_state (task_state w t) = true.

(** The effects of lines 135-140 for the pending tasks. *)
Definition cancellations (pending : list Task) : list (Actor * Effect) :=
  flat_map (fun t => [(Start, CancelTask t); (Start, AwaitTask t)]) pending.

(** The notification [start] sends for an exception text. *)
Definition error_notification (text : string) : json :=
  JObj [("type", JStr "error"); ("message", JStr text)].

(** The notifications [start] itself sends: one, when opening or
    configuring the upstream connection raises an [Exception] that is not a
    [WebSocketDisconnect]. *)
Definition start_notifications (env : StartEnv) : list json :=
  match connected env with
  | Throws (Exception text) => [error_notification text]
  | Throws _ => []
  | Returns _ =>
      match configured env with
      | Throws (Exception text) => [error_notification text]
      | _ => []
      end
  end.

(* ================================================================== *)
(** ** Who does what, and what a session keeps *)

(** The effects each actor of the bridge can have: the browser task logs,
    calls the upstream connection (never [session.update]) and clears
    [active]; the event task logs, sends to the browser, raises
    [session_ready] and clears [active]; [start] does the rest, and of the
    upstream calls only [session.update]; the endpoint works on the browser
    socket. *)
Definition emitted (ae : Actor * Effect) : bool :=
  match ae with
  | (Relay receive_task, Log _ _) => true
  | (Relay receive_task, Upstream (session_update _)) => false
  | (Relay receive_task, Upstream _) => true
  | (Relay receive_task, SetActive v) => negb v
  | (Relay receive_task, _) => false
  | (Relay process_task, Log _ _) => true
  | (Relay process_task, SendJson _) => true
  | (Relay process_task, SetSessionReady v) => v
  | (Relay process_task, SetActive v) => negb v
  | (Relay process_task, _) => false
  | (Start, Upstream (session_update _)) => true
  | (Start, Upstream _) => false
  | (Start, SetActive v) => negb v
  | (Start, (Accept | Close | SetSessionReady _)) => false
  | (Start, _) => true
  | (Endpoint, (Accept | Log _ _ | SendJson _ | Close)) => true
  | (Endpoint, _) => false
  end.

(** An effect that is not an assignment to a field of the session. *)
Definition plain (e : Effect) : bool :=
  match e with
  | SetActive _ | SetSessionReady _ | SetConnection => false
  | _ => true
  end.

(** What a session record keeps over time: its configuration, a
    connection once it is set, a [session_ready] that is true and an
    [active] that is false. *)
Definition evolves (s s' : Session) : Prop :=
  websocket s' = websocket s /\ endpoint s' = endpoint s /\
  credential s' = credential s /\ model s' = model s /\
  voice s' = voice s /\ instructions s' = instructions s /\
  (forall c, connection s = Some c -> connection s' = Some c) /\
  (session_ready s = true -> session_ready s' = true) /\
  (active s = false -> active s' = false).

(** A computation all of whose runs are related by [R] to the world they
    start in. *)
Definition respects {A} (R : World -> World -> Prop) (m : M A) : Prop :=
  forall w, R w (snd (m w)).

(* ================================================================== *)
(** ** The relay, message by message *)

(** The upstream commands one browser message gives rise to when the
    upstream connection is set (lines 203-216). *)
Definition forwarded (data : json) : list Command :=
  match data with
  | JObj members =>
      if is_str (lookup "type" members) "audio" then
        if truthy (lookup "audio" members)
        then [input_audio_buffer_append (lookup "audio" members)]
        else []
      else if is_str (lookup "type" members) "interrupt" then [response_cancel]
      else []
  | _ => []
  end.

(** The messages the browser loop does not survive: a [stop], and
    anything that is not an object. *)
Definition ends_browser_loop (data : json) : bool :=
  match data with
  | JObj members =>
      negb (is_str (lookup "type" members) "audio")
      && negb (is_str (lookup "type" members) "interrupt")
      && is_str (lookup "type" members) "stop"
  | _ => true
  end.

(** The notification one upstream event gives rise to, if any
    (lines 251-303). *)
Definition notification_of (event : ServerEvent) : list json :=
  match ev_type event with
  | SESSION_UPDATED =>
      match ev_session event with
      | Some session =>
          [JObj [("type", JStr "session_ready");
                 ("session_id", json_of (sess_id session))]]
      | None => []
      end
  | INPUT_AUDIO_BUFFER_SPEECH_STARTED => [JObj [("type", JStr "speech_started")]]
  | INPUT_AUDIO_BUFFER_SPEECH_STOPPED => [JObj [("type", JStr "speech_stopped")]]
  | RESPONSE_CREATED => [JObj [("type", JStr "response_started")]]
  | RESPONSE_AUDIO_DELTA =>
      match ev_delta event with
      | Some delta =>
          [JObj [("type", JStr "audio");
                 ("audio", JStr (Base64.b64encode delta))]]
      | None => []
      end
  | RESPONSE_AUDIO_DONE => [JObj [("type", JStr "response_audio_done")]]
  | RESPONSE_DONE => [JObj [("type", JStr "response_done")]]
  | ERROR =>
      match ev_error event with
      | Some error =>
          [JObj [("type", JStr "error");
                 ("message", json_of (err_message error))]]
      | None => []
      end
  | OTHER _ => []
  end.

(** A turn that ends neither loop: a browser message that is not the last
    one, whose upstream call (if any) succeeds; an upstream event, whose
    send may fail but is not cancelled. *)
Definition calm (s : Step) : bool :=
  match s with
  | ResumeReceive (Returns data) (Returns _) => negb (ends_browser_loop data)
  | ResumeReceive _ _ => false
  | ResumeProcess (Returns (Some _)) (Returns _) => true
  | ResumeProcess (Returns (Some _)) (Throws e) => is_Exception e
  | ResumeProcess _ _ => false
  end.

(** The browser messages and the upstream events a schedule delivers, in
    order. *)
Definition messages (schedule : list Step) : list json :=
  flat_map (fun s => match s with
                     | ResumeReceive (Returns data) _ => [data]
                     | _ => []
                     end) schedule.

Definition events (schedule : list Step) : list ServerEvent :=
  flat_map (fun s => match s with
                     | ResumeProcess (Returns (Some event)) _ => [event]
                     | _ => []
                     end) schedule.

(** Both loops wait for input in an active session with its upstream
    connection set. *)
Definition relaying_state (w : World) : Prop :=
  receive_state w = Awaiting /\ process_state w = Awaiting /\
  active (self w) = true /\ is_set (connection (self w)) = true.

(** The browser loop has ended and [active] is false. *)
Definition browser_side_ended (w : World) : Prop :=
  is_done w receive_task = true /\ active (self w) = false.

(** What one turn contributes to each direction. *)
Definition forwarded_by (s : Step) : list Command :=
  match s with
  | ResumeReceive (Returns data) _ => forwarded data
  | _ => []
  end.

Definition notified_by (s : Step) : list json :=
  match s with
  | ResumeProcess (Returns (Some event)) _ => notification_of event
  | _ => []
  end.

(** A schedule with traffic in both directions. *)
Definition busy_schedule : list Step :=
  [ResumeReceive (Returns (msg_audio "AAAA")) (Returns tt);
   ResumeProcess
     (Returns (Some {| ev_type := INPUT_AUDIO_BUFFER_SPEECH_STARTED;
                       ev_session := None; ev_delta := None;
                       ev_error := None |}))
     (Throws (Exception "send failed"));
   ResumeReceive (Returns (JObj [("type", JStr "ping")])) (Returns tt);
   ResumeReceive (Returns (JObj [("type", JStr "interrupt")])) (Returns tt);
   ResumeProcess
     (Returns (Some {| ev_type := ERROR; ev_session := None;
                       ev_delta := None;
                       ev_error := Some {| err_message := Some "rate limited" |} |}))
     (Returns tt);
   ResumeProcess
     (Returns (Some {| ev_type := SESSION_UPDATED;
                       ev_session := Some {| sess_id := None |};
                       ev_delta := None; ev_error := None |}))
     (Returns tt)].

(* ================================================================== *)
(** ** The course of a session *)

(** The voice name contains a hyphen. *)
Definition has_hyphen (name : string) : bool :=
  existsb (Ascii.eqb "-"%char) (list_ascii_of_string name).

(** The configuration [_setup_session] sends, read off the session. *)
Definition request_session (s : Session) : RequestSession :=
  {| modalities := [TEXT; AUDIO];
     rs_instructions := instructions s;
     rs_voice :=
       if has_hyphen (voice s)
       then AzureStandardVoice (voice s) "azure-standard"
       else NamedVoice (voice s);
     input_audio_format := PCM16;
     output_audio_format := PCM16;
     turn_detection :=
       {| threshold_milli := 500; prefix_padding_ms := 300;
          silence_duration_ms := 500 |} |}.

(** The effects of [start] before it opens the upstream connection, after
    it has opened it, and once the session is configured and both tasks
    are created. *)
Definition session_opening (s : Session) : list (Actor * Effect) :=
  [(Start, Log INFO ("Starting WebSocket voice session with model " ++ model s));
   (Start, Connect)].

Definition session_setup (s : Session) : list (Actor * Effect) :=
  [(Start, SetConnection);
   (Start, Log INFO "Setting up Azure Voice Live session...");
   (Start, Upstream (session_update (request_session s)))].

Definition session_prologue (s : Session) : list (Actor * Effect) :=
  (session_opening s ++ session_setup s ++
   [(Start, Log INFO "Azure session configured");
    (Start, CreateTask receive_task);
    (Start, CreateTask process_task)])%list.

(** The effects of [start] once the relay is over. *)
Definition session_epilogue : list (Actor * Effect) :=
  [(Start, Disconnect); (Start, SetActive false);
   (Start, Log INFO "Voice session ended")].

(** The effects of the [except] clause of [start] that matches [e], the
    send of the notification ending as it may. *)
Definition failure_report (e : exn) : list (Actor * Effect) :=
  match e with
  | WebSocketDisconnect _ =>
      [(Start, Log INFO "Browser WebSocket disconnected")]
  | Exception text =>
      [(Start, Log ERROR_LEVEL ("Session error: " ++ text));
       (Start, SendJson (error_notification text))]
  | CancelledError => []
  end.

(** What [start] gives back when its [try] block raises [e]. *)
Definition failure_result (e : exn) : result unit :=
  if is_Exception e then Ok tt else Raise e.

(** How often an effect of a kind occurs. *)
Definition occurrences (kind : Effect -> bool) (l : list (Actor * Effect)) : nat :=
  List.length (filter (fun ae => kind (snd ae)) l).

Definition is_connect (e : Effect) : bool :=
  match e with Connect => true | _ => false end.

Definition is_disconnect (e : Effect) : bool :=
  match e with Disconnect => true | _ => false end.

Definition is_create (e : Effect) : bool :=
  match e with CreateTask _ => true | _ => false end.

(** An effect of a relay task. *)
Definition relay_effect (ae : Actor * Effect) : bool :=
  by_relay ae && emitted ae.

(** Nothing in the environment cancels: neither the connect nor the
    configuration call, and no turn of a relay task. *)
Definition uncancelled {A} (o : outcome A) : bool :=
  match o with
  | Throws CancelledError => false
  | _ => true
  end.

Definition cancel_free_step (s : Step) : bool :=
  match s with
  | ResumeReceive received called => uncancelled received && uncancelled called
  | ResumeProcess next sent => uncancelled next && uncancelled sent
  end.

Definition cancel_free (env : StartEnv) : bool :=
  uncancelled (connected env) && uncancelled (configured env)
  && forallb cancel_free_step (schedule env).

(** The states of a relay task that has not been cancelled. *)
Definition clean_state (s : TaskState) : bool :=
  match s with
  | Awaiting | Finished (Returns _) => true
  | _ => false
  end.

Definition clean (w : World) : Prop :=
  forall t, clean_state (task_state w t) = true.

(** The session [start] works on once the connection is opened. *)
Definition connected_world (c : VoiceLiveConnection) (w : World) : World :=
  snd (set_connection Start c
         (record Start Connect
            (record Start
               (Log INFO ("Starting WebSocket voice session with model "
                          ++ model (self w))) w))).

(** No cancellation comes out of the computation. *)
Definition never_cancelled {A} (m : M A) : Prop :=
  forall w, fst (m w) <> Raise CancelledError.

(** A character of a base64 text: a digit of the alphabet or the padding
    character. *)
Definition base64_char (c : ascii) : bool :=
  match Base64.value c with
  | Some _ => true
  | None => Ascii.eqb c Base64.pad
  end.

(** A session that is configured and relays without either loop ending. *)
Definition env_busy : StartEnv :=
  {| connected := Returns upstream;
     configured := Returns tt;
     schedule := busy_schedule;
     notified := Returns tt |}.

(** [session.update] is rejected. *)
Definition env_rejected : StartEnv :=
  {| connected := Returns upstream;
     configured := Throws (Exception "invalid voice");
     schedule := [];
     notified := Returns tt |}.

Definition settings_complete : Settings :=
  {| AZURE_VOICELIVE_ENDPOINT := Some "voice.example";
     AZURE_VOICELIVE_API_KEY := Some "key";
     VOICELIVE_MODEL := "gpt-4o-realtime-preview";
     VOICELIVE_VOICE := "en-US-AvaNeural";
     VOICELIVE_INSTRUCTIONS := "Be brief." |}.

(* ================================================================== *)
(** * Properties *)

(** The test vectors of RFC 4648, section 10. *)
Example b64_rfc_f : Base64.b64encode ["f"%byte] = "Zg==".
Proof. reflexivity. Qed.

Example b64_rfc_fo : Base64.b64encode ["f"; "o"]%byte = "Zm8=".
Proof. reflexivity. Qed.

Example b64_rfc_foobar :
  Base64.b64encode ["f"; "o"; "o"; "b"; "a"; "r"]%byte = "Zm9vYmFy".
Proof. reflexivity. Qed.

Example b64_rfc_decode :
  Base64.b64decode "Zm9vYg==" = Some ["f"; "o"; "o"; "b"]%byte.
Proof. reflexivity. Qed.

(* ================================================================== *)
(** ** Base64: decoding inverts encoding *)

Section Base64Facts.
Import Base64.
Local Open Scope Z_scope.

Lemma octet_range (b : byte) : 0 <= octet b < 256.
Proof.
  unfold octet. pose proof (Byte.to_N_bounded b). lia.
Qed.

Lemma of_octet_octet (b : byte) : of_octet (octet b) = Some b.
Proof.
  unfold of_octet, octet. rewrite N2Z.id. apply Byte.of_to_N.
Qed.

Lemma digits_ok_all : forallb digits_ok (seq 0 64) = true.
Proof. vm_compute. reflexivity. Qed.

Lemma value_digit (i : Z) : 0 <= i < 64 -> value (digit i) = Some i.
Proof.
  intros Hi.
  assert (Hin : In (Z.to_nat i) (seq 0 64)) by (apply in_seq; lia).
  pose proof (proj1 (forallb_forall _ _) digits_ok_all _ Hin) as H.
  unfold digits_ok in H. rewrite Z2Nat.id in H by lia.
  destruct (value (digit i)) as [j|]; [|discriminate].
  apply andb_prop in H. destruct H as [H _].
  apply Z.eqb_eq in H. congruence.
Qed.

Lemma digit_not_pad (i : Z) : 0 <= i < 64 -> Ascii.eqb (digit i) pad = false.
Proof.
  intros Hi.
  assert (Hin : In (Z.to_nat i) (seq 0 64)) by (apply in_seq; lia).
  pose proof (proj1 (forallb_forall _ _) digits_ok_all _ Hin) as H.
  unfold digits_ok in H. rewrite Z2Nat.id in H by lia.
  destruct (value (digit i)) as [j|]; [|discriminate].
  apply andb_prop in H. destruct H as [_ H].
  now apply negb_true_iff in H.
Qed.

Lemma sextet_range (k : nat) (n : Z) : 0 <= n < 16777216 -> 0 <= sextet k n < 64.
Proof.
  intros Hn. destruct k as [|[|[|k]]]; cbn [sextet].
  - split; [apply Z.div_pos; lia | apply Z.div_lt_upper_bound; lia].
  - apply Z.mod_pos_bound; lia.
  - apply Z.mod_pos_bound; lia.
  - apply Z.mod_pos_bound; lia.
Qed.

Lemma group_range (a b c : Z) :
  0 <= a < 256 -> 0 <= b < 256 -> 0 <= c < 256 -> 0 <= group a b c < 16777216.
Proof. unfold group. lia. Qed.

Lemma ungroup_sextets (n : Z) :
  0 <= n -> ungroup (sextet 0 n) (sextet 1 n) (sextet 2 n) (sextet 3 n) = n.
Proof.
  intros Hn. unfold ungroup, sextet.
  Z.div_mod_to_equations. lia.
Qed.

Lemma group_hi (a b c : Z) :
  0 <= b < 256 -> 0 <= c < 256 -> group a b c / 65536 = a.
Proof. intros. unfold group. Z.div_mod_to_equations. lia. Qed.

Lemma group_mid (a b c : Z) :
  0 <= b < 256 -> 0 <= c < 256 -> (group a b c / 256) mod 256 = b.
Proof. intros. unfold group. Z.div_mod_to_equations. lia. Qed.

Lemma group_lo (a b c : Z) :
  0 <= c < 256 -> group a b c mod 256 = c.
Proof. intros. unfold group. Z.div_mod_to_equations. lia. Qed.

Lemma decode3_encode (a b c : byte) :
  let n := group (octet a) (octet b) (octet c) in
  decode3 (digit (sextet 0 n)) (digit (sextet 1 n))
          (digit (sextet 2 n)) (digit (sextet 3 n)) = Some [a; b; c].
Proof.
  intros n.
  pose proof (octet_range a) as Ha. pose proof (octet_range b) as Hb.
  pose proof (octet_range c) as Hc.
  pose proof (group_range _ _ _ Ha Hb Hc) as Hn. fold n in Hn.
  unfold decode3.
  rewrite !value_digit by (apply sextet_range; exact Hn). cbn [opt_bind].
  rewrite ungroup_sextets by lia. unfold n.
  rewrite group_hi, group_mid, group_lo by assumption.
  rewrite !of_octet_octet. reflexivity.
Qed.

Lemma decode2_encode (a b : byte) :
  let n := group (octet a) (octet b) 0 in
  decode2 (digit (sextet 0 n)) (digit (sextet 1 n)) (digit (sextet 2 n))
  = Some [a; b].
Proof.
  intros n.
  pose proof (octet_range a) as Ha. pose proof (octet_range b) as Hb.
  assert (Hn : 0 <= n < 16777216) by (apply group_range; lia).
  unfold decode2.
  rewrite !value_digit by (apply sextet_range; exact Hn). cbn [opt_bind].
  assert (E1 : ungroup (sextet 0 n) (sextet 1 n) (sextet 2 n) 0 / 65536 = octet a).
  { unfold ungroup, sextet, n, group. Z.div_mod_to_equations. lia. }
  assert (E2 : (ungroup (sextet 0 n) (sextet 1 n) (sextet 2 n) 0 / 256) mod 256 = octet b).
  { unfold ungroup, sextet, n, group. Z.div_mod_to_equations. lia. }
  rewrite E1, E2, !of_octet_octet. reflexivity.
Qed.

Lemma decode1_encode (a : byte) :
  let n := group (octet a) 0 0 in
  decode1 (digit (sextet 0 n)) (digit (sextet 1 n)) = Some [a].
Proof.
  intros n.
  pose proof (octet_range a) as Ha.
  assert (Hn : 0 <= n < 16777216) by (apply group_range; lia).
  unfold decode1.
  rewrite !value_digit by (apply sextet_range; exact Hn). cbn [opt_bind].
  assert (E1 : ungroup (sextet 0 n) (sextet 1 n) 0 0 / 65536 = octet a).
  { unfold ungroup, sextet, n, group. Z.div_mod_to_equations. lia. }
  rewrite E1, !of_octet_octet. reflexivity.
Qed.

Lemma list_ind3 {A} (P : list A -> Prop) :
  P [] -> (forall a, P [a]) -> (forall a b, P [a; b]) ->
  (forall a b c l, P l -> P (a :: b :: c :: l)) ->
  forall l, P l.
Proof.
  intros H0 H1 H2 H3.
  fix IH 1. intros [|a [|b [|c l]]];
    [apply H0 | apply H1 | apply H2 | apply H3; apply IH].
Qed.

Lemma b64decode_b64encode (data : list byte) :
  b64decode (b64encode data) = Some data.
Proof.
  induction data as [|a|a b|a b c rest IH] using list_ind3.
  - reflexivity.
  - cbn [b64encode b64decode]. rewrite Ascii.eqb_refl. apply decode1_encode.
  - cbn [b64encode b64decode]. rewrite Ascii.eqb_refl.
    pose proof (octet_range a) as Ha. pose proof (octet_range b) as Hb.
    rewrite digit_not_pad
      by (apply sextet_range, group_range; lia).
    apply decode2_encode.
  - pose proof (octet_range a) as Ha. pose proof (octet_range b) as Hb.
    pose proof (octet_range c) as Hc.
    change (b64encode (a :: b :: c :: rest)) with
      (let n := group (octet a) (octet b) (octet c) in
       String (digit (sextet 0 n)) (String (digit (sextet 1 n))
        (String (digit (sextet 2 n)) (String (digit (sextet 3 n))
          (b64encode rest))))).
    cbv zeta. cbn [b64decode]. rewrite IH.
    pose proof (decode3_encode a b c) as D. cbv zeta in D. rewrite D.
    destruct (b64encode rest) eqn:E.
    + rewrite digit_not_pad by (apply sextet_range, group_range; lia).
      destruct rest as [|x [|y [|z r]]]; [reflexivity| discriminate E ..].
    + reflexivity.
Qed.
End Base64Facts.


(* ================================================================== *)
(** ** How traces grow *)

Lemma added_app (w w' : World) (l : list (Actor * Effect)) :
  trace w' = (trace w ++ l)%list -> added w w' = l.
Proof.
  intros H. unfold added. rewrite H.
  rewrite skipn_app, Nat.sub_diag, skipn_all. reflexivity.
Qed.

Lemma added_refl (w : World) : added w w = [].
Proof. apply added_app. now rewrite app_nil_r. Qed.

Lemma last_cons_default {A} (l : list A) (a d : A) :
  last (a :: l) d = last l a.
Proof.
  revert a d. induction l as [|b l IH]; intros a d; [reflexivity|].
  change (last (a :: b :: l) d) with (last (b :: l) d).
  now rewrite (IH b d), (IH b a).
Qed.

Lemma last_app_default {A} (l1 l2 : list A) (d : A) :
  last (l1 ++ l2) d = last l2 (last l1 d).
Proof.
  revert d. induction l1 as [|a l1 IH]; intros d; [reflexivity|].
  cbn [app]. now rewrite !last_cons_default, IH.
Qed.

Section Growth.
Variable P : Actor * Effect -> bool.

Lemma grows_refl (w : World) : grows P w w.
Proof. exists []. now rewrite app_nil_r. Qed.

Lemma grows_trans (w1 w2 w3 : World) :
  grows P w1 w2 -> grows P w2 w3 -> grows P w1 w3.
Proof.
  intros (l1 & T1 & F1 & A1) (l2 & T2 & F2 & A2).
  exists (l1 ++ l2)%list. repeat split.
  - now rewrite T2, T1, app_assoc.
  - now rewrite forallb_app, F1, F2.
  - unfold active_writes in *. rewrite flat_map_app, last_app_default.
    now rewrite <- A1.
Qed.

Lemma grows_record (a : Actor) (e : Effect) (w : World) :
  P (a, e) = true -> active_writes [(a, e)] = [] -> grows P w (record a e w).
Proof.
  intros HP HA. exists [(a, e)]. repeat split.
  - cbn. now rewrite HP.
  - now rewrite HA.
Qed.

Lemma grows_set_task (t : Task) (s : TaskState) (w w' : World) :
  grows P w w' -> grows P w (set_task t s w').
Proof. intros (l & T & F & A). exists l. destruct t; repeat split; assumption. Qed.

Lemma sound_ret {A} (a : A) : sound P (ret a).
Proof. intros w. apply grows_refl. Qed.

Lemma sound_raise {A} (e : exn) : sound P (@raise A e).
Proof. intros w. apply grows_refl. Qed.

Lemma sound_lift {A} (o : outcome A) : sound P (lift o).
Proof. intros w. destruct o; apply grows_refl. Qed.

Lemma sound_get_self : sound P get_self.
Proof. intros w. apply grows_refl. Qed.

Lemma sound_bind {A B} (m : M A) (k : A -> M B) :
  sound P m -> (forall a, sound P (k a)) -> sound P (bind m k).
Proof.
  intros Hm Hk w. unfold bind. specialize (Hm w).
  destruct (m w) as [[a|e|] w1]; cbn [snd] in *; try assumption.
  eapply grows_trans; [exact Hm | apply Hk].
Qed.

Lemma sound_try {A} (body : M A) (handlers : exn -> option (M A)) :
  sound P body -> (forall e h, handlers e = Some h -> sound P h) ->
  sound P (try_ body handlers).
Proof.
  intros Hb Hh w. unfold try_. specialize (Hb w).
  destruct (body w) as [[a|e|] w1]; cbn [snd] in *; try assumption.
  destruct (handlers e) as [h|] eqn:E; cbn [snd]; try assumption.
  eapply grows_trans; [exact Hb | apply (Hh _ _ E)].
Qed.

Lemma sound_finally {A} (body : M A) (fin : M unit) :
  sound P body -> sound P fin -> sound P (finally_ body fin).
Proof.
  intros Hb Hf w. unfold finally_. specialize (Hb w).
  destruct (body w) as [[a|e|] w1]; cbn [snd] in *; try assumption;
    specialize (Hf w1); destruct (fin w1) as [[[]|e'|] w2]; cbn [snd] in *;
    eapply grows_trans; eassumption.
Qed.

Lemma sound_emit (a : Actor) (e : Effect) :
  P (a, e) = true -> active_writes [(a, e)] = [] -> sound P (emit a e).
Proof. intros HP HA w. now apply grows_record. Qed.

Lemma sound_log (a : Actor) (lvl : Level) (text : string) :
  P (a, Log lvl text) = true -> sound P (log a lvl text).
Proof. intros HP. now apply sound_emit. Qed.

Lemma sound_set_active (a : Actor) (v : bool) :
  P (a, SetActive v) = true -> sound P (set_active a v).
Proof.
  intros HP w. exists [(a, SetActive v)]. repeat split.
  cbn. now rewrite HP.
Qed.

Lemma sound_set_connection (a : Actor) (c : VoiceLiveConnection) :
  P (a, SetConnection) = true -> sound P (set_connection a c).
Proof.
  intros HP w. exists [(a, SetConnection)]. repeat split.
  cbn. now rewrite HP.
Qed.

Lemma sound_send_json (a : Actor) (msg : json) (sent : outcome unit) :
  P (a, SendJson msg) = true -> sound P (send_json a msg sent).
Proof.
  intros HP. apply sound_bind; [now apply sound_emit | intros; apply sound_lift].
Qed.

Lemma sound_upstream_call (a : Actor) (c : Command) (called : outcome unit) :
  P (a, Upstream c) = true -> sound P (upstream_call a c called).
Proof.
  intros HP. apply sound_bind; [now apply sound_emit | intros; apply sound_lift].
Qed.

Lemma sound_assert_connection : sound P assert_connection.
Proof.
  apply sound_bind; [apply sound_get_self|].
  intros s. destruct (connection s); first [apply sound_ret | apply sound_raise].
Qed.

Lemma sound_for_each {A} (items : list A) (body : A -> M unit) :
  (forall x, sound P (body x)) -> sound P (for_each items body).
Proof.
  intros Hb. induction items as [|x rest IH]; cbn [for_each].
  - apply sound_ret.
  - apply sound_bind; [apply Hb | intros _; exact IH].
Qed.

Lemma grows_settle (t : Task) (w : World) (r : result Status * World) :
  grows P w (snd r) -> grows P w (settle t r).
Proof.
  destruct r as [[[]|e|] w1]; cbn [snd settle]; intros H;
    try apply grows_set_task; assumption.
Qed.
End Growth.

Lemma grows_weaken (P Q : Actor * Effect -> bool) (w w' : World) :
  (forall ae, P ae = true -> Q ae = true) -> grows P w w' -> grows Q w w'.
Proof.
  intros HPQ (l & T & F & A). exists l. repeat split; try assumption.
  rewrite forallb_forall in *. auto.
Qed.

Lemma relay_lawful_lawful (ae : Actor * Effect) :
  relay_lawful ae = true -> lawful ae = true.
Proof. unfold relay_lawful. intros H. now apply andb_prop in H. Qed.

Lemma relay_lawful_prelude (ae : Actor * Effect) :
  relay_lawful ae = true -> prelude_lawful ae = true.
Proof.
  unfold relay_lawful, prelude_lawful, by_relay, by_start.
  destruct ae as [[| t |] e]; cbn [fst andb negb];
    rewrite ?andb_true_r, ?andb_false_r; auto; discriminate.
Qed.

Lemma prelude_lawful_lawful (ae : Actor * Effect) :
  prelude_lawful ae = true -> lawful ae = true.
Proof. unfold prelude_lawful. intros H. now apply andb_prop in H. Qed.

(** *** Code of the relay tasks *)

Lemma steady_ret {A} (a : A) : steady (ret a).
Proof. intros w. repeat split; try discriminate. apply grows_refl. Qed.

Lemma steady_raise {A} (e : exn) : steady (@raise A e).
Proof. intros w. repeat split; try discriminate. apply grows_refl. Qed.

Lemma steady_lift {A} (o : outcome A) : steady (lift o).
Proof.
  intros w. destruct o; repeat split; try discriminate; apply grows_refl.
Qed.

Lemma steady_get_self : steady get_self.
Proof. intros w. repeat split; try discriminate. apply grows_refl. Qed.

Lemma steady_bind {A B} (m : M A) (k : A -> M B) :
  steady m -> (forall a, steady (k a)) -> steady (bind m k).
Proof.
  intros Hm Hk w. unfold bind. destruct (Hm w) as (N & G & R & Q).
  destruct (m w) as [[a|e|] w1]; cbn [fst snd] in *.
  - destruct (Hk a w1) as (N' & G' & R' & Q').
    repeat split; try congruence. eapply grows_trans; eassumption.
  - repeat split; try discriminate; assumption.
  - contradiction.
Qed.

Lemma steady_try {A} (body : M A) (handlers : exn -> option (M A)) :
  steady body -> (forall e h, handlers e = Some h -> steady h) ->
  steady (try_ body handlers).
Proof.
  intros Hb Hh w. unfold try_. destruct (Hb w) as (N & G & R & Q).
  destruct (body w) as [[a|e|] w1]; cbn [fst snd] in *.
  - repeat split; try discriminate; assumption.
  - destruct (handlers e) as [h|] eqn:E.
    + destruct (Hh _ _ E w1) as (N' & G' & R' & Q').
      repeat split; try congruence. eapply grows_trans; eassumption.
    + repeat split; try discriminate; assumption.
  - contradiction.
Qed.

Lemma steady_emit (a : Actor) (e : Effect) :
  relay_lawful (a, e) = true -> active_writes [(a, e)] = [] -> steady (emit a e).
Proof.
  intros HP HA w. repeat split; try discriminate. now apply grows_record.
Qed.

Lemma steady_log (a : Actor) (lvl : Level) (text : string) :
  relay_lawful (a, Log lvl text) = true -> steady (log a lvl text).
Proof. intros HP. now apply steady_emit. Qed.

Lemma steady_set_active (a : Actor) (v : bool) :
  relay_lawful (a, SetActive v) = true -> steady (set_active a v).
Proof.
  intros HP w. repeat split; try discriminate.
  exists [(a, SetActive v)]. repeat split. cbn. now rewrite HP.
Qed.

Lemma steady_set_session_ready (a : Actor) (v : bool) :
  relay_lawful (a, SetSessionReady v) = true -> steady (set_session_ready a v).
Proof.
  intros HP w. repeat split; try discriminate.
  exists [(a, SetSessionReady v)]. repeat split. cbn. now rewrite HP.
Qed.

Lemma steady_send_json (a : Actor) (msg : json) (sent : outcome unit) :
  relay_lawful (a, SendJson msg) = true -> steady (send_json a msg sent).
Proof.
  intros HP. apply steady_bind; [now apply steady_emit | intros; apply steady_lift].
Qed.

Lemma steady_upstream_call (a : Actor) (c : Command) (called : outcome unit) :
  relay_lawful (a, Upstream c) = true -> steady (upstream_call a c called).
Proof.
  intros HP. apply steady_bind; [now apply steady_emit | intros; apply steady_lift].
Qed.

Lemma steady_dict_get (data : json) (key : string) : steady (dict_get data key).
Proof. destruct data; first [apply steady_ret | apply steady_raise]. Qed.

Lemma steady_attr {A} (failure : string) (field : option A) :
  steady (attr failure field).
Proof. destruct field; first [apply steady_ret | apply steady_raise]. Qed.

Lemma steady_assert_connection : steady assert_connection.
Proof.
  apply steady_bind; [apply steady_get_self|].
  intros s. destruct (connection s); first [apply steady_ret | apply steady_raise].
Qed.

(** Follows the structure of a piece of relay code. *)
Ltac steady_step :=
  first
    [ apply steady_ret | apply steady_raise | apply steady_lift
    | apply steady_get_self | apply steady_dict_get | apply steady_attr
    | apply steady_assert_connection
    | apply steady_log; reflexivity
    | apply steady_set_active; reflexivity
    | apply steady_set_session_ready; reflexivity
    | apply steady_send_json; reflexivity
    | apply steady_upstream_call; reflexivity
    | apply steady_bind; [|intros ?]
    | match goal with
      | |- steady (if ?b then _ else _) => destruct b
      | |- steady (match ?x with _ => _ end) => destruct x
      end ].

Ltac steady_auto := repeat steady_step.

Lemma steady_handle_azure_event (event : ServerEvent) (sent : outcome unit) :
  steady (_handle_azure_event event sent).
Proof.
  unfold _handle_azure_event. apply steady_try.
  - steady_auto.
  - intros e h. destruct (is_Exception e); intros [= <-]. steady_auto.
Qed.

Lemma steady_receive_handlers (e : exn) (h : M Status) :
  receive_handlers e = Some h -> steady h.
Proof. destruct e; intros [= <-]; steady_auto. Qed.

Lemma steady_process_handlers (e : exn) (h : M Status) :
  process_handlers e = Some h -> steady h.
Proof.
  unfold process_handlers. destruct (is_Exception e); intros [= <-]. steady_auto.
Qed.

Lemma steady_step_code (s : Step) : steady (step_code s).
Proof.
  destruct s as [received called | next sent]; cbn [step_code].
  - unfold _receive_from_browser_resume, receive_body, while_active.
    apply steady_try; [steady_auto | apply steady_receive_handlers].
  - unfold _process_azure_events_resume.
    apply steady_try; [|apply steady_process_handlers].
    apply steady_bind; [steady_auto|]. intros [event|]; [|steady_auto].
    apply steady_bind; [steady_auto|]. intros s.
    destruct (negb (active s)); [steady_auto|].
    apply steady_bind; [apply steady_handle_azure_event | intros; steady_auto].
Qed.

Lemma steady_enter_code (t : Task) : steady (enter_code t).
Proof.
  destruct t; cbn [enter_code].
  - unfold _receive_from_browser_enter, while_active.
    apply steady_try; [steady_auto | apply steady_receive_handlers].
  - unfold _process_azure_events_enter.
    apply steady_try; [steady_auto | apply steady_process_handlers].
Qed.

(** *** No exception leaves a relay task *)

Lemma try_contained {A} (body : M A) (handlers : exn -> option (M A)) :
  (forall e, is_Exception e = true -> handlers e <> None) ->
  (forall e h w, handlers e = Some h -> contained (fst (h w))) ->
  forall w, contained (fst (try_ body handlers w)).
Proof.
  intros Hall Hh w. unfold try_.
  destruct (body w) as [[a|e|] w1]; cbn [fst contained]; auto.
  destruct (handlers e) as [h|] eqn:E.
  - apply (Hh _ _ _ E).
  - cbn [fst contained]. destruct e as [text|text|]; try reflexivity;
      exfalso; [apply (Hall (WebSocketDisconnect text) eq_refl E)
               | apply (Hall (Exception text) eq_refl E)].
Qed.

Lemma receive_handlers_all (e : exn) :
  is_Exception e = true -> receive_handlers e <> None.
Proof. destruct e; discriminate. Qed.

Lemma receive_handlers_contained (e : exn) (h : M Status) (w : World) :
  receive_handlers e = Some h -> contained (fst (h w)).
Proof. destruct e; intros [= <-]; exact I. Qed.

Lemma process_handlers_all (e : exn) :
  is_Exception e = true -> process_handlers e <> None.
Proof. unfold process_handlers. intros ->. discriminate. Qed.

Lemma process_handlers_contained (e : exn) (h : M Status) (w : World) :
  process_handlers e = Some h -> contained (fst (h w)).
Proof.
  unfold process_handlers. destruct (is_Exception e); intros [= <-]. exact I.
Qed.

Lemma contained_step_code (s : Step) (w : World) :
  contained (fst (step_code s w)).
Proof.
  destruct s; cbn [step_code].
  - apply try_contained;
      [apply receive_handlers_all | intros; eapply receive_handlers_contained; eassumption].
  - apply try_contained;
      [apply process_handlers_all | intros; eapply process_handlers_contained; eassumption].
Qed.

Lemma contained_enter_code (t : Task) (w : World) :
  contained (fst (enter_code t w)).
Proof.
  destruct t; cbn [enter_code].
  - apply try_contained;
      [apply receive_handlers_all | intros; eapply receive_handlers_contained; eassumption].
  - apply try_contained;
      [apply process_handlers_all | intros; eapply process_handlers_contained; eassumption].
Qed.

(** *** Turns of the event loop *)

Lemma task_state_set_task (t u : Task) (s : TaskState) (w : World) :
  task_state (set_task t s w) u
  = if match t, u with
       | receive_task, receive_task | process_task, process_task => true
       | _, _ => false
       end
    then s else task_state w u.
Proof. destruct t, u; reflexivity. Qed.

(** A turn of relay code [code] for task [t]: the growth of the trace, and
    the task table afterwards. *)
Lemma settle_spec (t : Task) (code : M Status) (w : World) :
  steady code -> contained (fst (code w)) ->
  grows relay_lawful w (settle t (code w)) /\
  tidy_state (task_state (settle t (code w)) t) = true /\
  (forall u, u <> t -> task_state (settle t (code w)) u = task_state w u).
Proof.
  intros Hs Hc. destruct (Hs w) as (N & G & R & Q).
  split; [now apply grows_settle|].
  destruct (code w) as [[[]|e|] w1]; cbn [fst snd settle contained] in *;
    try contradiction; subst;
    (split;
     [ rewrite task_state_set_task; destruct t; reflexivity
     | intros u Hu; rewrite task_state_set_task;
       destruct t, u; cbn [task_state]; congruence ]).
Qed.

Lemma tidy_settle (t : Task) (code : M Status) (w : World) :
  steady code -> contained (fst (code w)) ->
  (forall u, u <> t -> tidy_state (task_state w u) = true) ->
  tidy (settle t (code w)).
Proof.
  intros Hs Hc Hu. destruct (settle_spec t code w Hs Hc) as (_ & T & K).
  intros u. destruct t, u; try exact T; rewrite K by discriminate;
    apply Hu; discriminate.
Qed.

Lemma step_spec (s : Step) (w : World) :
  tidy w ->
  grows relay_lawful w (step s w) /\ tidy (step s w).
Proof.
  intros Ht. unfold step.
  destruct (task_state w (step_task s)) eqn:E;
    try (split; [apply grows_refl | exact Ht]).
  split.
  - apply grows_settle, steady_step_code.
  - apply tidy_settle;
      [apply steady_step_code | apply contained_step_code | intros u _; apply Ht].
Qed.

Lemma grows_step (s : Step) (w : World) : grows relay_lawful w (step s w).
Proof.
  unfold step. destruct (task_state w (step_task s)); try apply grows_refl.
  apply grows_settle, steady_step_code.
Qed.

Lemma grows_enter (t : Task) (w : World) : grows relay_lawful w (enter t w).
Proof.
  unfold enter. destruct (task_state w t); try apply grows_refl.
  apply grows_settle, steady_enter_code.
Qed.

Lemma grows_run (schedule : list Step) (w : World) :
  grows relay_lawful w (run schedule w).
Proof.
  revert w. induction schedule as [|s rest IH]; intros w; cbn [run].
  - apply grows_refl.
  - eapply grows_trans; [apply grows_step | apply IH].
Qed.

Lemma tidy_run (schedule : list Step) (w : World) :
  tidy w -> tidy (run schedule w).
Proof.
  revert w. induction schedule as [|s rest IH]; intros w Ht; cbn [run].
  - exact Ht.
  - apply IH. now apply step_spec.
Qed.

(** *** [asyncio.wait] and what follows it *)

Lemma asyncio_wait_spec (schedule : list Step) (w : World) :
  receive_state w = Created -> process_state w = Created ->
  let r := asyncio_wait schedule w in
  grows relay_lawful w (snd r) /\ tidy (snd r) /\
  match fst r with
  | Ok (done, pending) =>
      done = filter (is_done (snd r)) [receive_task; process_task] /\
      pending = filter (fun t => negb (is_done (snd r) t)) [receive_task; process_task] /\
      done <> []
  | Raise _ => False
  | Suspended => True
  end.
Proof.
  intros Hr Hp r. subst r. unfold asyncio_wait.
  set (w1 := enter receive_task w).
  set (w2 := enter process_task w1).
  set (w3 := run schedule w2).
  assert (G1 : grows relay_lawful w w1) by apply grows_enter.
  assert (G2 : grows relay_lawful w1 w2) by apply grows_enter.
  assert (G3 : grows relay_lawful w2 w3) by apply grows_run.
  assert (S1 : tidy_state (receive_state w1) = true /\ process_state w1 = Created).
  { subst w1. unfold enter. cbn [task_state]. rewrite Hr.
    destruct (settle_spec receive_task (enter_code receive_task) w
                (steady_enter_code _) (contained_enter_code _ _)) as (_ & T & K).
    split; [exact T|]. rewrite <- Hp. apply (K process_task). discriminate. }
  assert (T2 : tidy w2).
  { subst w2. unfold enter. cbn [task_state]. destruct S1 as [S1 S1'].
    rewrite S1'. apply tidy_settle;
      [apply steady_enter_code | apply contained_enter_code |].
    intros [] Hu; [exact S1 | contradiction]. }
  assert (T3 : tidy w3) by (apply tidy_run; exact T2).
  assert (G : grows relay_lawful w w3)
    by (eapply grows_trans; [eapply grows_trans|]; eassumption).
  destruct (filter (is_done w3) [receive_task; process_task]) as [|d ds] eqn:E;
    cbn [fst snd]; repeat split; try assumption.
  - now rewrite E.
  - discriminate.
Qed.

Ltac simpl_world :=
  cbn [self receive_state process_state trace record set_self set_task
       task_state active session_ready connection websocket endpoint
       credential model voice instructions fst snd].

Ltac flatten_trace :=
  simpl_world; repeat rewrite <- app_assoc; cbn [app].

(** Lines 134-145, on a task table whose finished tasks are [done] and
    whose waiting tasks are [pending]. *)
Lemma settle_race_spec (w : World) :
  tidy w ->
  let done := filter (is_done w) [receive_task; process_task] in
  let pending := filter (fun t => negb (is_done w t)) [receive_task; process_task] in
  exists r w',
    settle_race (done, pending) w = (r, w') /\
    (r = Ok tt \/ r = Raise CancelledError) /\
    trace w' = (trace w ++ cancellations pending)%list /\
    self w' = self w /\
    (forall t, In t pending -> task_state w' t = Finished (Throws CancelledError)) /\
    (forall t, is_done w' t = true).
Proof.
  intros Ht done pending. subst done pending.
  pose proof (Ht receive_task) as Hr. pose proof (Ht process_task) as Hp.
  destruct w as [s rs ps tr]. cbn [task_state receive_state process_state] in Hr, Hp.
  destruct rs as [| | |[[]|[]]]; try discriminate Hr;
    destruct ps as [| | |[[]|[]]]; try discriminate Hp;
    (eexists; eexists; split; [reflexivity|]);
    (split; [first [left; reflexivity | right; reflexivity]|]);
    (split; [cbn; rewrite ?app_nil_r, <- ?app_assoc; reflexivity|]);
    (split; [reflexivity|]);
    (split;
     [ intros [] Hin; cbn in Hin;
       first [ reflexivity | tauto
             | destruct Hin as [Hin|Hin]; [discriminate Hin | tauto] ]
     | intros []; reflexivity ]).
Qed.

(** *** [start] *)

Ltac run_start :=
  cbv [start_try until_wait relay_until_first _setup_session async_with
       assert_connection bind get_self log emit lift set_connection
       upstream_call create_task ret raise];
  simpl_world.

Lemma until_wait_prepared (env : StartEnv) (w : World) (c : VoiceLiveConnection) :
  connected env = Returns c -> configured env = Returns tt ->
  exists w0,
    until_wait env w = asyncio_wait (schedule env) w0 /\
    grows prelude_lawful w w0 /\
    receive_state w0 = Created /\ process_state w0 = Created.
Proof.
  intros Hc Hu. run_start. rewrite Hc. simpl_world. rewrite Hu. simpl_world.
  eexists. split; [reflexivity|]. split; [|split; reflexivity].
  eexists. split; [flatten_trace; reflexivity|]. split; reflexivity.
Qed.

Lemma until_wait_spec (env : StartEnv) (w w1 : World) (done pending : list Task) :
  until_wait env w = (Ok (done, pending), w1) ->
  grows prelude_lawful w w1 /\ tidy w1 /\
  done = filter (is_done w1) [receive_task; process_task] /\
  pending = filter (fun t => negb (is_done w1 t)) [receive_task; process_task] /\
  done <> [].
Proof.
  intros H.
  destruct (connected env) as [c|e] eqn:Hc.
  2:{ revert H. run_start. rewrite Hc. discriminate. }
  destruct (configured env) as [[]|e] eqn:Hu.
  2:{ revert H. run_start. rewrite Hc. simpl_world. rewrite Hu. discriminate. }
  destruct (until_wait_prepared env w c Hc Hu) as (w0 & E & G & Sr & Sp).
  rewrite E in H.
  pose proof (asyncio_wait_spec (schedule env) w0 Sr Sp) as S. cbv zeta in S.
  rewrite H in S. cbn [fst snd] in S. destruct S as (G1 & T1 & D & Pn & Ne).
  repeat split; try assumption.
  eapply grows_trans; [exact G|].
  eapply grows_weaken; [apply relay_lawful_prelude | exact G1].
Qed.

Lemma start_try_after_wait (env : StartEnv) (w w1 : World)
    (waited : list Task * list Task) :
  until_wait env w = (Ok waited, w1) ->
  start_try env w
  = match settle_race waited w1 with
    | (Suspended, w2) => (Suspended, w2)
    | (r, w2) => (r, record Start Disconnect w2)
    end.
Proof.
  unfold start_try, until_wait, async_with.
  cbv [bind get_self log emit lift]. simpl_world.
  destruct (connected env) as [c|e]; [|discriminate].
  intros ->. reflexivity.
Qed.

(** Once [asyncio.wait] has returned, [start] runs to its end. *)
Lemma start_after_wait (env : StartEnv) (w w1 : World) (done pending : list Task) :
  until_wait env w = (Ok (done, pending), w1) ->
  exists r w',
    start env w = (r, w') /\ (r = Ok tt \/ r = Raise CancelledError) /\
    trace w' =
      (trace w1 ++ cancellations pending ++
       [(Start, Disconnect); (Start, SetActive false);
        (Start, Log INFO "Voice session ended")])%list /\
    active (self w') = false /\
    (forall t, In t pending -> task_state w' t = Finished (Throws CancelledError)) /\
    (forall t, is_done w' t = true).
Proof.
  intros H. destruct (until_wait_spec _ _ _ _ _ H) as (_ & T & D & Pn & _).
  destruct (settle_race_spec w1 T) as (r & w2 & E & R & Tr & S & Cn & Dn).
  cbv zeta in E. rewrite <- D, <- Pn in E. rewrite <- Pn in Tr, Cn.
  unfold start, finally_, try_. rewrite (start_try_after_wait _ _ _ _ H), E.
  destruct R as [-> | ->]; cbn [start_except];
    cbv [start_finally bind set_active log emit]; simpl_world;
    (eexists; eexists; split; [reflexivity|]);
    (split; [first [left; reflexivity | right; reflexivity]|]);
    simpl_world; rewrite Tr, <- !app_assoc; cbn [app];
    (split; [reflexivity|]); (split; [reflexivity|]);
    (split; [intros t Hin; specialize (Cn t Hin); destruct t; exact Cn
            | intros t; specialize (Dn t); destruct t; exact Dn]).
Qed.

Lemma sound_create_task (t : Task) : sound lawful (create_task t).
Proof.
  intros w. unfold create_task. cbn [snd].
  eapply grows_trans;
    [apply grows_set_task, grows_refl | apply grows_record; reflexivity].
Qed.

Lemma grows_lawful_step (s : Step) (w : World) : grows lawful w (step s w).
Proof. eapply grows_weaken; [apply relay_lawful_lawful | apply grows_step]. Qed.

Lemma sound_asyncio_wait (schedule : list Step) : sound lawful (asyncio_wait schedule).
Proof.
  intros w. unfold asyncio_wait.
  assert (G : grows lawful w
                (run schedule (enter process_task (enter receive_task w)))).
  { eapply grows_weaken; [apply relay_lawful_lawful|].
    eapply grows_trans; [eapply grows_trans|];
      [apply grows_enter | apply grows_enter | apply grows_run]. }
  destruct (filter _ _); exact G.
Qed.

Lemma sound_task_cancel (t : Task) : sound lawful (task_cancel t).
Proof.
  intros w. unfold task_cancel. cbn [snd].
  eapply grows_trans; [|apply grows_lawful_step].
  apply grows_record; reflexivity.
Qed.

Lemma sound_await_task (t : Task) : sound lawful (await_task t).
Proof.
  unfold await_task. apply sound_bind; [apply sound_emit; reflexivity|].
  intros _ w. destruct (task_state w t); try apply grows_refl. apply sound_lift.
Qed.

Lemma sound_task_exception (t : Task) : sound lawful (task_exception t).
Proof.
  intros w. unfold task_exception.
  destruct (task_state w t) as [| | |[[]|[]]]; apply grows_refl.
Qed.

Lemma sound_async_with {A} (entered : outcome VoiceLiveConnection)
    (body : VoiceLiveConnection -> M A) :
  (forall c, sound lawful (body c)) -> sound lawful (async_with entered body).
Proof.
  intros Hb. unfold async_with.
  apply sound_bind; [apply sound_emit; reflexivity|]. intros _.
  apply sound_bind; [apply sound_lift|]. intros c w.
  specialize (Hb c w). destruct (body c w) as [[a|e|] w1]; cbn [snd] in *;
    try assumption;
    (eapply grows_trans; [exact Hb | apply grows_record; reflexivity]).
Qed.

(** Follows the structure of a piece of [start]. *)
Ltac sound_step :=
  first
    [ apply sound_ret | apply sound_raise | apply sound_lift
    | apply sound_get_self | apply sound_assert_connection
    | apply sound_create_task | apply sound_asyncio_wait
    | apply sound_task_cancel | apply sound_await_task
    | apply sound_task_exception
    | apply sound_log; reflexivity
    | apply sound_emit; reflexivity
    | apply sound_set_active; reflexivity
    | apply sound_set_connection; reflexivity
    | apply sound_send_json; reflexivity
    | apply sound_upstream_call; reflexivity
    | apply sound_for_each; intros ?
    | apply sound_async_with; intros ?
    | apply sound_bind; [|intros ?]
    | match goal with
      | |- sound _ (if ?b then _ else _) => destruct b
      | |- sound _ (match ?x with _ => _ end) => destruct x
      | |- sound _ (let '(_, _) := ?x in _) => destruct x
      end ].

Ltac sound_auto := repeat sound_step.

Lemma sound_start_try (env : StartEnv) : sound lawful (start_try env).
Proof.
  unfold start_try, relay_until_first, _setup_session, settle_race,
    cancel_pending, check_done.
  sound_auto.
  apply sound_try; [sound_auto|].
  intros e h. destruct e; intros [= <-]. sound_auto.
Qed.

Lemma sound_start_except (env : StartEnv) (e : exn) (h : M unit) :
  start_except env e = Some h -> sound lawful h.
Proof.
  destruct e; intros [= <-]; sound_auto.
  apply sound_try; [sound_auto|]. intros e h [= <-]. sound_auto.
Qed.

Lemma sound_start_finally : sound lawful start_finally.
Proof. unfold start_finally. sound_auto. Qed.

Lemma sound_start (env : StartEnv) : sound lawful (start env).
Proof.
  unfold start. apply sound_finally; [|apply sound_start_finally].
  apply sound_try; [apply sound_start_try | apply sound_start_except].
Qed.

(** A call of [start] that returns has gone through its [finally] clause. *)
Lemma start_returns (env : StartEnv) (w w' : World) (r : result unit) :
  start env w = (r, w') -> r <> Suspended ->
  exists l,
    trace w' =
      (trace w ++ l ++ [(Start, SetActive false);
                        (Start, Log INFO "Voice session ended")])%list /\
    forallb lawful l = true /\ active (self w') = false.
Proof.
  unfold start, finally_. intros H Hr.
  pose proof (sound_try lawful _ _ (sound_start_try env) (sound_start_except env) w)
    as (l & T & F & _).
  destruct (try_ (start_try env) (start_except env) w) as [[[]|e|] w1];
    cbn [snd] in T;
    cbv [start_finally bind set_active log emit] in H; simpl_world;
    inversion H; subst; try contradiction;
    (exists l; simpl_world; rewrite T, <- !app_assoc; cbn [app];
     repeat split; assumption).
Qed.

(** *** Histories of [active] *)

Lemma lawful_flag_discipline (l : list (Actor * Effect)) :
  forallb lawful l = true -> forallb flag_discipline l = true.
Proof.
  rewrite !forallb_forall. intros H ae Hin. specialize (H ae Hin).
  unfold lawful in H. now apply andb_prop in H.
Qed.

Lemma lawful_not_close (l : list (Actor * Effect)) :
  forallb lawful l = true -> forallb not_close l = true.
Proof.
  rewrite !forallb_forall. intros H ae Hin. specialize (H ae Hin).
  unfold lawful in H. now apply andb_prop in H.
Qed.

Lemma lawful_writes_false (l : list (Actor * Effect)) :
  forallb lawful l = true -> forallb negb (active_writes l) = true.
Proof.
  induction l as [|[a e] l IH]; [reflexivity|].
  cbn [forallb]. intros H. apply andb_prop in H. destruct H as [H1 H2].
  change (active_writes ((a, e) :: l))
    with ((match e with SetActive v => [v] | _ => [] end) ++ active_writes l)%list.
  rewrite forallb_app, (IH H2), andb_true_r.
  destruct e; try reflexivity. cbn [forallb]. rewrite andb_true_r.
  unfold lawful in H1. apply andb_prop in H1. destruct H1 as [H1 _].
  destruct a as [|[]|]; exact H1.
Qed.

Lemma last_of_false (ws : list bool) :
  forallb negb ws = true -> last ws false = false.
Proof.
  induction ws as [|v ws IH]; [reflexivity|].
  cbn [forallb]. intros H. apply andb_prop in H. destruct H as [Hv Hws].
  rewrite last_cons_default. destruct v; [discriminate|]. now apply IH.
Qed.

Lemma falls_of_false (ws : list bool) :
  forallb negb ws = true -> falls ws = 0%nat /\ rises ws = 0%nat.
Proof.
  induction ws as [|v ws IH]; [now split|].
  cbn [forallb]. intros H. apply andb_prop in H. destruct H as [Hv Hws].
  destruct v; [discriminate|]. destruct (IH Hws) as [IHf IHr].
  destruct ws as [|[] ws]; [now split | discriminate | now split].
Qed.

Lemma falls_once (ws : list bool) :
  forallb negb ws = true -> ws <> [] ->
  falls (true :: ws) = 1%nat /\ rises (true :: ws) = 0%nat.
Proof.
  intros H Hne. destruct ws as [|[] ws]; [contradiction | discriminate |].
  destruct (falls_of_false _ H) as [Hf Hr].
  change (falls (true :: false :: ws)) with (S (falls (false :: ws))).
  change (rises (true :: false :: ws)) with (rises (false :: ws)).
  now rewrite Hf, Hr.
Qed.
(* ================================================================== *)
(** ** Translation of upstream events *)

Ltac each_outcome o :=
  destruct o as [[]|[]]; simpl_world; cbn [is_Exception].

Ltac notified :=
  erewrite added_app by (flatten_trace; reflexivity); reflexivity.

Ltac run_handler :=
  cbv [notifications _handle_azure_event try_ bind send_json log emit lift attr
       ret raise set_session_ready is_Exception ev_type ev_session ev_delta
       ev_error sess_id err_message display json_of];
  simpl_world.

(** C2.  For every upstream event the handler hands exactly the specified
    notification to [send_json]: [session_ready] with the session id for
    session-updated, which also sets [session_ready]; the payload-free
    notifications for speech-started, speech-stopped, response-created,
    response-audio-done and response-done; [audio] with the base64 text of
    the delta for an audio delta; [error] with the message for an error
    event; and for an event of any other type it sends nothing, raises
    nothing and changes nothing. *)
Theorem C2_upstream_event_translation
    (w : World) (sent : outcome unit) (id message tag : string)
    (delta : list byte)
    (sid : option ResponseSession) (d : option (list byte))
    (m : option ServerEventErrorDetails) :
  let ev ty :=
    {| ev_type := ty; ev_session := sid; ev_delta := d; ev_error := m |} in
  let updated :=
    {| ev_type := SESSION_UPDATED; ev_session := Some {| sess_id := Some id |};
       ev_delta := d; ev_error := m |} in
  let failed :=
    {| ev_type := ERROR; ev_session := sid; ev_delta := d;
       ev_error := Some {| err_message := Some message |} |} in
  let audio_delta :=
    {| ev_type := RESPONSE_AUDIO_DELTA; ev_session := sid;
       ev_delta := Some delta; ev_error := m |} in
  notifications updated sent w
    = [JObj [("type", JStr "session_ready"); ("session_id", JStr id)]]
  /\ session_ready (self (snd (_handle_azure_event updated sent w))) = true
  /\ notifications (ev INPUT_AUDIO_BUFFER_SPEECH_STARTED) sent w
    = [JObj [("type", JStr "speech_started")]]
  /\ notifications (ev INPUT_AUDIO_BUFFER_SPEECH_STOPPED) sent w
    = [JObj [("type", JStr "speech_stopped")]]
  /\ notifications (ev RESPONSE_CREATED) sent w
    = [JObj [("type", JStr "response_started")]]
  /\ notifications audio_delta sent w
    = [JObj [("type", JStr "audio"); ("audio", JStr (Base64.b64encode delta))]]
  /\ notifications (ev RESPONSE_AUDIO_DONE) sent w
    = [JObj [("type", JStr "response_audio_done")]]
  /\ notifications (ev RESPONSE_DONE) sent w
    = [JObj [("type", JStr "response_done")]]
  /\ notifications failed sent w
    = [JObj [("type", JStr "error"); ("message", JStr message)]]
  /\ notifications (ev (OTHER tag)) sent w = []
  /\ _handle_azure_event (ev (OTHER tag)) sent w = (Ok tt, w).
Proof.
  intros ev updated failed audio_delta. subst ev updated failed audio_delta.
  repeat split; run_handler;
    try (each_outcome sent; first [notified | reflexivity]).
  apply (f_equal sends (added_refl w)).
Qed.

(** C4.  For an audio-delta event carrying the bytes [delta], the handler
    sends one [audio] notification whose [audio] member is the base64
    encoding of [delta], and decoding that string gives [delta] back; this
    holds for every byte sequence, the empty one included. *)
Theorem C4_audio_delta_base64_roundtrip
    (w : World) (sent : outcome unit) (delta : list byte)
    (sid : option ResponseSession) (m : option ServerEventErrorDetails) :
  notifications
    {| ev_type := RESPONSE_AUDIO_DELTA; ev_session := sid;
       ev_delta := Some delta; ev_error := m |} sent w
  = [JObj [("type", JStr "audio"); ("audio", JStr (Base64.b64encode delta))]]
  /\ Base64.b64decode (Base64.b64encode delta) = Some delta
  /\ Base64.b64encode [] = ""
  /\ Base64.b64decode "" = Some [].
Proof.
  split; [|split; [apply b64decode_b64encode | split; reflexivity]].
  run_handler. each_outcome sent; notified.
Qed.

(* ================================================================== *)
(** ** Translation of browser messages *)

Ltac run_receive :=
  cbv [_receive_from_browser_resume receive_body dict_get try_ bind lift ret
       raise get_self upstream_call emit log set_active while_active
       receive_handlers];
  simpl_world.

Ltac settle_cases o w :=
  simpl_world; each_outcome o; simpl_world;
  try destruct (active (self w)); simpl_world.

Lemma is_str_unique (j : json) (a b : string) :
  is_str j a = true -> a <> b -> is_str j b = false.
Proof.
  destruct j; cbn [is_str]; try discriminate.
  intros Ha Hab. apply String.eqb_eq in Ha. subst.
  now apply String.eqb_neq.
Qed.

Lemma lookup_absent (key : string) (members : list (string * json)) :
  (forall v, ~ In (key, v) members) -> lookup key members = JNull.
Proof.
  induction members as [|[k v] rest IH]; intros H; cbn [lookup].
  - reflexivity.
  - destruct (String.eqb_spec k key) as [->|Hne].
    + exfalso. apply (H v). now left.
    + apply IH. intros v' Hin. apply (H v'). now right.
Qed.

(** An [audio] message with a payload is forwarded whenever the browser
    loop is resumed with it; the value of [active] plays no part. *)
Lemma audio_forwarded (w : World) (members : list (string * json))
    (called : outcome unit) :
  is_set (connection (self w)) = true ->
  is_str (lookup "type" members) "audio" = true ->
  truthy (lookup "audio" members) = true ->
  commands (added w (snd (_receive_from_browser_resume
                            (Returns (JObj members)) called w)))
  = [input_audio_buffer_append (lookup "audio" members)].
Proof.
  intros Hconn Hty Hp. run_receive. rewrite Hty, Hp, Hconn. cbn [andb].
  settle_cases called w; notified.
Qed.

(** C3, counterexample.  An [audio] message whose payload is the empty
    string produces no append command. *)
Lemma C3_empty_audio_not_forwarded :
  ~ C3_as_stated relaying [("type", JStr "audio"); ("audio", JStr "")].
Proof.
  intros H. specialize (H eq_refl (Returns tt)). vm_compute in H. discriminate H.
Qed.

(** C3, amended.  With the upstream connection set, a browser message that
    is a JSON object is translated as follows: tag [audio] with a payload
    that is not empty gives exactly one append command carrying that
    payload unchanged; tag [interrupt] gives exactly one response-cancel
    command; tag [stop] gives no command, sets [active] to false and ends
    the loop; any other tag gives no command and no effect at all, and the
    loop goes on to the next message as long as [active] is true. *)
Theorem C3_browser_message_translation
    (w : World) (members : list (string * json)) (called : outcome unit)
    (Hconn : is_set (connection (self w)) = true) :
  let ty := lookup "type" members in
  let payload := lookup "audio" members in
  let r := _receive_from_browser_resume (Returns (JObj members)) called w in
  (is_str ty "audio" = true -> truthy payload = true ->
     commands (added w (snd r)) = [input_audio_buffer_append payload])
  /\ (is_str ty "interrupt" = true ->
     commands (added w (snd r)) = [response_cancel])
  /\ (is_str ty "stop" = true ->
     commands (added w (snd r)) = [] /\ active (self (snd r)) = false
     /\ fst r = Ok Returned)
  /\ (is_str ty "audio" = false -> is_str ty "interrupt" = false ->
      is_str ty "stop" = false ->
      r = (Ok (if active (self w) then AtRead else Returned), w)).
Proof.
  intros ty payload r. subst ty payload r.
  refine (conj _ (conj _ (conj _ _))).
  - intros Hty Hp. now apply audio_forwarded.
  - intros Hty.
    assert (Ha : is_str (lookup "type" members) "audio" = false)
      by (apply (is_str_unique _ _ _ Hty); discriminate).
    run_receive. rewrite Ha, Hty, Hconn.
    settle_cases called w; notified.
  - intros Hty.
    assert (Ha : is_str (lookup "type" members) "audio" = false)
      by (apply (is_str_unique _ _ _ Hty); discriminate).
    assert (Hi : is_str (lookup "type" members) "interrupt" = false)
      by (apply (is_str_unique _ _ _ Hty); discriminate).
    run_receive. rewrite Ha, Hi, Hty. simpl_world.
    refine (conj _ (conj eq_refl eq_refl)). notified.
  - intros Ha Hi Hs. run_receive. rewrite Ha, Hi, Hs.
    destruct (active (self w)); reflexivity.
Qed.

(** C3, at an [audio] message with the payload [AAAA]. *)
Lemma C3_witness :
  commands (added relaying
     (snd (_receive_from_browser_resume (Returns (msg_audio "AAAA")) (Returns tt)
             relaying)))
  = [input_audio_buffer_append (JStr "AAAA")].
Proof.
  apply (proj1 (C3_browser_message_translation relaying
                  [("type", JStr "audio"); ("audio", JStr "AAAA")]
                  (Returns tt) eq_refl)); reflexivity.
Defined.

Lemma empty_audio_skipped (w : World) (members : list (string * json))
    (called : outcome unit) :
  is_str (lookup "type" members) "audio" = true ->
  truthy (lookup "audio" members) = false ->
  _receive_from_browser_resume (Returns (JObj members)) called w
  = (Ok (if active (self w) then AtRead else Returned), w).
Proof.
  intros Hty Hp. run_receive. rewrite Hty, Hp. cbn [andb]. simpl_world.
  destruct (active (self w)); reflexivity.
Qed.

Lemma append_only_when_guarded (w : World) (members : list (string * json))
    (called : outcome unit) (audio : json) :
  is_str (lookup "type" members) "audio" = true ->
  In (input_audio_buffer_append audio)
     (commands (added w (snd (_receive_from_browser_resume
                                (Returns (JObj members)) called w)))) ->
  audio = lookup "audio" members /\ truthy audio = true
  /\ is_set (connection (self w)) = true.
Proof.
  intros Hty.
  destruct (truthy (lookup "audio" members)) eqn:Hp;
    destruct (is_set (connection (self w))) eqn:Hc;
    try (rewrite (empty_audio_skipped w members called Hty Hp);
         cbn [snd]; rewrite added_refl; intros []).
  - run_receive. rewrite Hty, Hp, Hc. cbn [andb].
    settle_cases called w;
      (erewrite added_app by (flatten_trace; reflexivity));
      cbn; intros [H|H]; try contradiction; inversion H; subst; auto;
      try (destruct H as [H|H]; [discriminate|contradiction]).
  - run_receive. rewrite Hty, Hp, Hc. cbn [andb]. simpl_world.
    destruct (active (self w)); simpl_world; rewrite added_refl; intros [].
Qed.

(** C10.  For a message tagged [audio] whose [audio] member is absent,
    null or the empty string, the receive loop issues no upstream command,
    raises nothing, has no effect on the session, and (the session being
    active) waits for the next message; and whenever an append command is
    issued for a message tagged [audio], its payload is the non-empty
    [audio] member and the upstream connection is set. *)
Theorem C10_empty_audio_ignored
    (w : World) (members : list (string * json)) (called : outcome unit)
    (Hty : is_str (lookup "type" members) "audio" = true) :
  let r := _receive_from_browser_resume (Returns (JObj members)) called w in
  (((forall v, ~ In ("audio", v) members)
    \/ lookup "audio" members = JNull
    \/ lookup "audio" members = JStr "") ->
   commands (added w (snd r)) = []
   /\ r = (Ok (if active (self w) then AtRead else Returned), w)
   /\ (active (self w) = true -> r = (Ok AtRead, w)))
  /\ (forall audio,
        In (input_audio_buffer_append audio) (commands (added w (snd r))) ->
        audio = lookup "audio" members /\ truthy audio = true
        /\ is_set (connection (self w)) = true).
Proof.
  intros r. subst r. split.
  - intros Hempty.
    assert (Hp : truthy (lookup "audio" members) = false).
    { destruct Hempty as [H|[H|H]].
      - now rewrite (lookup_absent _ _ H).
      - now rewrite H.
      - now rewrite H. }
    rewrite (empty_audio_skipped w members called Hty Hp). cbn [snd].
    rewrite added_refl. repeat split. now intros ->.
  - intros audio. now apply append_only_when_guarded.
Qed.

(** C10, at an [audio] message without an [audio] member. *)
Lemma C10_witness :
  _receive_from_browser_resume (Returns (JObj [("type", JStr "audio")]))
    (Returns tt) relaying
  = (Ok AtRead, relaying).
Proof.
  apply (proj1 (C10_empty_audio_ignored relaying [("type", JStr "audio")]
                  (Returns tt) eq_refl)).
  - right. left. reflexivity.
  - reflexivity.
Defined.

(* ================================================================== *)
(** ** Failures of a single message *)

Lemma added_set_task (t : Task) (s : TaskState) (w w' : World) :
  added w (set_task t s w') = added w w'.
Proof. destruct t; reflexivity. Qed.

Lemma active_set_task (t : Task) (s : TaskState) (w : World) :
  active (self (set_task t s w)) = active (self w).
Proof. destruct t; reflexivity. Qed.

(** Unless it is cancelled, the handler returns normally, whatever the
    event and however the send ends, and leaves [active] alone. *)
Lemma handler_returns (w : World) (event : ServerEvent) (sent : outcome unit) :
  sent <> Throws CancelledError ->
  exists w',
    _handle_azure_event event sent w = (Ok tt, w') /\
    active (self w') = active (self w).
Proof.
  intros Hs. destruct event as [ty sid d m].
  destruct ty; destruct sid as [[[]]|]; destruct d; destruct m as [[[]]|];
    destruct sent as [[]|[]]; try contradiction;
    run_handler; eexists; split; reflexivity.
Qed.

Lemma handler_logs_failure (w : World) (event : ServerEvent) (e : exn) :
  is_Exception e = true ->
  let w' := snd (_handle_azure_event event (Throws e) w) in
  sends (added w w') <> [] ->
  In (Relay process_task,
      Log ERROR_LEVEL ("Error handling Azure event: " ++ str e)) (added w w').
Proof.
  intros He w'. subst w'. destruct event as [ty sid d m].
  destruct e; try discriminate He;
    destruct ty; destruct sid as [[[]]|]; destruct d; destruct m as [[[]]|];
    run_handler;
    first [ rewrite added_refl
          | erewrite added_app by (flatten_trace; reflexivity) ];
    cbn; intros H; tauto.
Qed.

Lemma handler_logs_untranslatable (w : World) (event : ServerEvent)
    (sent : outcome unit) :
  untranslatable event = true ->
  exists text,
    added w (snd (_handle_azure_event event sent w))
    = [(Relay process_task,
        Log ERROR_LEVEL ("Error handling Azure event: " ++ text))].
Proof.
  intros Hu. destruct event as [ty sid d m].
  destruct ty; destruct sid as [[[]]|]; destruct d; destruct m as [[[]]|];
    try discriminate Hu;
    run_handler;
    (erewrite added_app by (flatten_trace; reflexivity));
    eexists; reflexivity.
Qed.

(** A turn of the upstream event task on an event, in an active session. *)
Lemma process_turn (w w' : World) (event : ServerEvent) (sent : outcome unit) :
  process_state w = Awaiting -> active (self w) = true ->
  _handle_azure_event event sent w = (Ok tt, w') ->
  step (ResumeProcess (Returns (Some event)) sent) w
  = set_task process_task Awaiting w'.
Proof.
  intros Hp Ha Hh.
  cbv [step step_task step_code settle _process_azure_events_resume try_ bind
       lift get_self ret].
  simpl_world. rewrite Hp, Ha. cbn [negb]. rewrite Hh. reflexivity.
Qed.

Lemma handler_survives (w : World) (event : ServerEvent) (e : exn) :
  process_state w = Awaiting -> active (self w) = true ->
  is_Exception e = true ->
  let w1 := step (ResumeProcess (Returns (Some event)) (Throws e)) w in
  task_state w1 process_task = Awaiting /\ active (self w1) = true /\
  (sends (added w w1) <> [] ->
   In (Relay process_task,
       Log ERROR_LEVEL ("Error handling Azure event: " ++ str e)) (added w w1)).
Proof.
  intros Hp Ha He w1. subst w1.
  destruct (handler_returns w event (Throws e)) as (w' & Hh & Hact).
  { intros [= ->]. discriminate He. }
  rewrite (process_turn w w' event _ Hp Ha Hh).
  rewrite added_set_task, active_set_task, Hact.
  repeat split; try assumption.
  pose proof (handler_logs_failure w event e He) as L. cbv zeta in L.
  now rewrite Hh in L.
Qed.

Lemma untranslatable_survives (w : World) (event : ServerEvent) (sent : outcome unit) :
  process_state w = Awaiting -> active (self w) = true ->
  untranslatable event = true ->
  let w1 := step (ResumeProcess (Returns (Some event)) sent) w in
  task_state w1 process_task = Awaiting /\ active (self w1) = true /\
  sends (added w w1) = [] /\
  exists text,
    added w w1 = [(Relay process_task,
                   Log ERROR_LEVEL ("Error handling Azure event: " ++ text))].
Proof.
  intros Hp Ha Hu w1. subst w1.
  destruct (handler_logs_untranslatable w event sent Hu) as (text & L).
  assert (Hh : exists w', _handle_azure_event event sent w = (Ok tt, w')
                          /\ active (self w') = active (self w)).
  { destruct event as [ty sid d m].
    destruct ty; destruct sid as [[[]]|]; destruct d; destruct m as [[[]]|];
      try discriminate Hu;
      run_handler; eexists; split; reflexivity. }
  destruct Hh as (w' & Hh & Hact).
  rewrite (process_turn w w' event _ Hp Ha Hh).
  rewrite added_set_task, active_set_task, Hact.
  rewrite Hh in L. cbn [snd] in L. rewrite L.
  repeat split; try assumption. now exists text.
Qed.

Lemma read_failure_ends_loops (w : World) (e : exn)
    (called sent : outcome unit) :
  receive_state w = Awaiting -> process_state w = Awaiting ->
  is_Exception e = true ->
  let w1 := step (ResumeReceive (Throws e) called) w in
  let w2 := step (ResumeProcess (Throws e) sent) w in
  (task_state w1 receive_task = Finished (Returns tt) /\ active (self w1) = false
   /\ added w w1 = [(Relay receive_task, receive_failure_log e);
                    (Relay receive_task, SetActive false)])
  /\ (task_state w2 process_task = Finished (Returns tt) /\ active (self w2) = false
      /\ added w w2
         = [(Relay process_task,
             Log ERROR_LEVEL ("Error processing Azure events: " ++ str e));
            (Relay process_task, SetActive false)]).
Proof.
  intros Hr Hp He w1 w2. subst w1 w2.
  destruct e; try discriminate He;
    cbv [step step_task step_code settle _receive_from_browser_resume
         _process_azure_events_resume receive_handlers process_handlers try_
         bind lift log emit set_active ret is_Exception receive_failure_log];
    simpl_world; rewrite Hr, Hp; simpl_world;
    (split; (split; [reflexivity|]); (split; [reflexivity|]));
    apply added_app; flatten_trace; reflexivity.
Qed.

(** The event task at the end of the event stream, and at an event it
    reads when [active] is false: it returns, without a trace. *)
Lemma stream_end_ends_process (w : World) (sent : outcome unit) :
  process_state w = Awaiting ->
  let w1 := step (ResumeProcess (Returns None) sent) w in
  task_state w1 process_task = Finished (Returns tt) /\
  added w w1 = [] /\ active (self w1) = active (self w).
Proof.
  intros Hp w1. subst w1.
  cbv [step step_task step_code settle _process_azure_events_resume try_ bind
       lift ret].
  simpl_world. rewrite Hp. simpl_world.
  split; [reflexivity|]. split; [|reflexivity].
  unfold added. simpl_world. apply skipn_all.
Qed.

Lemma inactive_ends_process (w : World) (event : ServerEvent) (sent : outcome unit) :
  process_state w = Awaiting -> active (self w) = false ->
  let w1 := step (ResumeProcess (Returns (Some event)) sent) w in
  task_state w1 process_task = Finished (Returns tt) /\ added w w1 = [].
Proof.
  intros Hp Ha w1. subst w1.
  cbv [step step_task step_code settle _process_azure_events_resume try_ bind
       lift get_self ret].
  simpl_world. rewrite Hp, Ha. simpl_world.
  split; [reflexivity|].
  unfold added. simpl_world. apply skipn_all.
Qed.

(** No event ends the event loop of an active session, however the send of
    its notification ends, short of a cancellation. *)
Lemma event_keeps_process (w : World) (event : ServerEvent) (sent : outcome unit) :
  process_state w = Awaiting -> active (self w) = true ->
  sent <> Throws CancelledError ->
  let w1 := step (ResumeProcess (Returns (Some event)) sent) w in
  task_state w1 process_task = Awaiting /\ active (self w1) = true.
Proof.
  intros Hp Ha Hs w1. subst w1.
  destruct (handler_returns w event sent Hs) as (w' & Hh & Hact).
  rewrite (process_turn w w' event _ Hp Ha Hh).
  rewrite active_set_task, Hact. split; [reflexivity | exact Ha].
Qed.

Lemma receive_turn (w : World) (received : outcome json) (called : outcome unit) :
  receive_state w = Awaiting ->
  step (ResumeReceive received called) w
  = settle receive_task (_receive_from_browser_resume received called w).
Proof. intros Hr. unfold step. cbn [step_task task_state step_code]. now rewrite Hr. Qed.

Lemma upstream_failure_ends_receive (w : World) (members : list (string * json))
    (e : exn) :
  receive_state w = Awaiting -> is_Exception e = true ->
  let w1 := step (ResumeReceive (Returns (JObj members)) (Throws e)) w in
  commands (added w w1) <> [] ->
  task_state w1 receive_task = Finished (Returns tt) /\ active (self w1) = false /\
  exists before,
    added w w1 = (before ++ [(Relay receive_task, receive_failure_log e);
                             (Relay receive_task, SetActive false)])%list.
Proof.
  intros Hr He w1. subst w1. rewrite (receive_turn _ _ _ Hr).
  assert (Quiet : forall st l,
            commands l = [] ->
            forall w', trace w' = (trace w ++ l)%list ->
            commands (added w (settle receive_task (Ok st, w'))) = []).
  { intros st l Hl w' Hw'.
    destruct st; cbn [settle]; rewrite added_set_task, (added_app _ _ _ Hw');
      exact Hl. }
  destruct (is_str (lookup "type" members) "audio") eqn:A;
    [destruct (truthy (lookup "audio" members) && is_set (connection (self w))) eqn:G|
     destruct (is_str (lookup "type" members) "interrupt") eqn:I;
     [destruct (is_set (connection (self w))) eqn:C|
      destruct (is_str (lookup "type" members) "stop") eqn:S]].
  - intros _. run_receive. rewrite A, G. simpl_world.
    destruct e; try discriminate He; cbn [settle receive_failure_log str];
      (split; [reflexivity|]); (split; [reflexivity|]);
      exists [(Relay receive_task,
               Upstream (input_audio_buffer_append (lookup "audio" members)))];
      apply added_app; flatten_trace; reflexivity.
  - run_receive. rewrite A, G. simpl_world. intros H. exfalso. apply H.
    destruct (active (self w)); apply (Quiet _ []); try reflexivity;
      now rewrite app_nil_r.
  - intros _. run_receive. rewrite A, I, C. simpl_world.
    destruct e; try discriminate He; cbn [settle receive_failure_log str];
      (split; [reflexivity|]); (split; [reflexivity|]);
      exists [(Relay receive_task, Log INFO "Interrupt requested by browser");
              (Relay receive_task, Upstream response_cancel)];
      apply added_app; flatten_trace; reflexivity.
  - run_receive. rewrite A, I, C. simpl_world. intros H. exfalso. apply H.
    destruct (active (self w)); eapply Quiet;
      try (flatten_trace; reflexivity); reflexivity.
  - run_receive. rewrite A, I, S. simpl_world. intros H. exfalso. apply H.
    eapply Quiet; try (flatten_trace; reflexivity); reflexivity.
  - run_receive. rewrite A, I, S. simpl_world. intros H. exfalso. apply H.
    destruct (active (self w)); apply (Quiet _ []); try reflexivity;
      now rewrite app_nil_r.
Qed.

(** C5, counterexample.  In the browser loop the failure of one upstream
    send ends the loop. *)
Lemma C5_upstream_send_failure_ends_receive_loop :
  ~ C5_as_stated relaying (msg_audio "AAAA") (Exception "send failed").
Proof.
  intros H. specialize (H eq_refl eq_refl). vm_compute in H. discriminate H.
Qed.

(** C5, amended.  In the upstream event loop, the failure of one send and
    the failure to translate one event are caught inside the handler and
    logged; the loop keeps waiting for the next event and [active] stays
    true, and no event ends the loop of an active session, whatever its
    send does short of a cancellation.  What ends that loop is the end of
    the event stream, [active] being false when an event is read, and a
    failure of the stream, which is logged and sets [active] to false.  In
    the browser loop the [try] encloses the whole loop: the failure of one
    upstream send is caught and logged like a failed read or a disconnect,
    with the log line of the clause that catches it, then sets [active] to
    false and ends the loop. *)
Theorem C5_failure_isolation_per_loop
    (w : World) (e : exn)
    (Hr : receive_state w = Awaiting) (Hp : process_state w = Awaiting)
    (Ha : active (self w) = true) (He : is_Exception e = true) :
  (forall event,
     let w1 := step (ResumeProcess (Returns (Some event)) (Throws e)) w in
     task_state w1 process_task = Awaiting /\ active (self w1) = true /\
     (sends (added w w1) <> [] ->
      In (Relay process_task,
          Log ERROR_LEVEL ("Error handling Azure event: " ++ str e))
         (added w w1)))
  /\ (forall event sent,
      untranslatable event = true ->
      let w1 := step (ResumeProcess (Returns (Some event)) sent) w in
      task_state w1 process_task = Awaiting /\ active (self w1) = true /\
      sends (added w w1) = [] /\
      exists text,
        added w w1 = [(Relay process_task,
                       Log ERROR_LEVEL ("Error handling Azure event: " ++ text))])
  /\ (forall members,
      let w1 := step (ResumeReceive (Returns (JObj members)) (Throws e)) w in
      commands (added w w1) <> [] ->
      task_state w1 receive_task = Finished (Returns tt)
      /\ active (self w1) = false
      /\ exists before,
           added w w1
           = (before ++ [(Relay receive_task, receive_failure_log e);
                         (Relay receive_task, SetActive false)])%list)
  /\ (forall called sent,
      let w1 := step (ResumeReceive (Throws e) called) w in
      let w2 := step (ResumeProcess (Throws e) sent) w in
      (task_state w1 receive_task = Finished (Returns tt)
       /\ active (self w1) = false
       /\ added w w1 = [(Relay receive_task, receive_failure_log e);
                        (Relay receive_task, SetActive false)])
      /\ (task_state w2 process_task = Finished (Returns tt)
          /\ active (self w2) = false
          /\ added w w2
             = [(Relay process_task,
                 Log ERROR_LEVEL ("Error processing Azure events: " ++ str e));
                (Relay process_task, SetActive false)]))
  /\ (forall event sent,
      sent <> Throws CancelledError ->
      let w1 := step (ResumeProcess (Returns (Some event)) sent) w in
      task_state w1 process_task = Awaiting /\ active (self w1) = true)
  /\ (forall sent,
      let w1 := step (ResumeProcess (Returns None) sent) w in
      task_state w1 process_task = Finished (Returns tt)
      /\ added w w1 = [] /\ active (self w1) = active (self w))
  /\ (forall w0 event sent,
      process_state w0 = Awaiting -> active (self w0) = false ->
      let w1 := step (ResumeProcess (Returns (Some event)) sent) w0 in
      task_state w1 process_task = Finished (Returns tt) /\ added w0 w1 = []).
Proof.
  refine (conj _ (conj _ (conj _ (conj _ (conj _ (conj _ _)))))).
  - intros event. now apply handler_survives.
  - intros event sent Hu. now apply untranslatable_survives.
  - intros members. now apply upstream_failure_ends_receive.
  - intros called sent. now apply read_failure_ends_loops.
  - intros event sent Hs. now apply event_keeps_process.
  - intros sent. now apply stream_end_ends_process.
  - intros w0 event sent Hp0 Ha0. now apply inactive_ends_process.
Qed.

(** C5, at a [response_done] event whose send fails. *)
Lemma C5_witness :
  task_state
    (step (ResumeProcess
             (Returns (Some {| ev_type := RESPONSE_DONE; ev_session := None;
                               ev_delta := None; ev_error := None |}))
             (Throws (Exception "send failed"))) relaying)
    process_task = Awaiting.
Proof.
  apply (proj1 (C5_failure_isolation_per_loop relaying (Exception "send failed")
                  eq_refl eq_refl eq_refl eq_refl)).
Defined.

(* ================================================================== *)
(** ** The flags *)

(** C6, on the code.  The upstream event stream fails while the browser
    loop waits in [receive_json]: the event task sets [active] to false and
    finishes; the message that arrives next is still forwarded upstream,
    because the browser loop tests [active] before the read only: resumed
    with an [audio] message it forwards the payload even when [active] is
    false.  The event loop does test the flag after its read and drops the
    event. *)
Theorem C6_audio_forwarded_after_inactive :
  let w' := snd (start env_late_audio (fresh demo_session)) in
  fst (start env_late_audio (fresh demo_session)) = Ok tt
  /\ quiet_once_inactive (active demo_session) (trace w') = false
  /\ (exists pre mid post,
        trace w' =
          (pre ++ (Relay process_task, SetActive false) :: mid ++
           (Relay receive_task, Upstream (input_audio_buffer_append (JStr "AAAA")))
           :: post)%list)
  /\ (forall w called payload,
        active (self w) = false ->
        is_set (connection (self w)) = true -> truthy payload = true ->
        commands
          (added w (snd (_receive_from_browser_resume
                           (Returns (JObj [("type", JStr "audio");
                                           ("audio", payload)])) called w)))
        = [input_audio_buffer_append payload])
  /\ (forall w event sent,
        active (self w) = false ->
        _process_azure_events_resume (Returns (Some event)) sent w
        = (Ok Returned, w)).
Proof.
  refine (conj _ (conj _ (conj _ (conj _ _)))).
  - vm_compute. reflexivity.
  - vm_compute. reflexivity.
  - eexists (firstn 9 (trace (snd (start env_late_audio (fresh demo_session))))).
    exists []. eexists. vm_compute. reflexivity.
  - intros w called payload _ Hconn Hp.
    now apply (audio_forwarded w [("type", JStr "audio"); ("audio", payload)]).
  - intros w event sent Ha.
    cbv [_process_azure_events_resume try_ bind lift get_self ret]. simpl_world.
    rewrite Ha. reflexivity.
Qed.

(** C7, counterexample.  On [stop] the browser receive loop assigns
    [active] itself. *)
Lemma C7_receive_loop_writes_active :
  ~ C7_as_stated (ResumeReceive (Returns msg_stop) (Returns tt)) relaying.
Proof.
  intros H.
  specialize (H (Relay receive_task, SetActive false)).
  assert (F : Relay receive_task = Start); [|discriminate F].
  apply H; [vm_compute; tauto | reflexivity].
Qed.

(** C7, amended.  The flags are written by [start] and by the relay tasks
    alike, under one discipline: whoever assigns [active] assigns false (the
    browser loop on [stop], on a disconnect and on an error, the event loop
    on an error, [start] in its [finally] clause), and [session_ready] is
    assigned only by the upstream event task, and only true.  This holds
    for every turn of a relay task and for every run of [start]. *)
Theorem C7_flag_write_discipline (env : StartEnv) (s : Step) (w : World) :
  forallb flag_discipline (added w (step s w)) = true
  /\ forallb flag_discipline (added w (snd (start env w))) = true.
Proof.
  split.
  - destruct (grows_lawful_step s w) as (l & T & F & _).
    rewrite (added_app _ _ _ T). now apply lawful_flag_discipline.
  - destruct (sound_start env w) as (l & T & F & _).
    rewrite (added_app _ _ _ T). now apply lawful_flag_discipline.
Qed.

Lemma active_stays_false (w w' : World) :
  grows lawful w w' -> active (self w) = false -> active (self w') = false.
Proof.
  intros (l & _ & F & A) Ha. rewrite A, Ha.
  apply last_of_false, lawful_writes_false, F.
Qed.

(** C8.  [active] is true when the session is constructed; over a call of
    [start] that returns, the values [active] takes go from true to false
    exactly once and never from false to true, and [active] is false at the
    end; and no turn of a relay task and no call of [start] makes a false
    [active] true again. *)
Theorem C8_active_falls_once
    (websocket : nat) (endpoint credential model voice instructions : string)
    (env : StartEnv) (r : result unit) (w' : World)
    (Hrun : start env
              (fresh (__init__ websocket endpoint credential model voice
                        instructions)) = (r, w'))
    (Hr : r <> Suspended) :
  let s0 := __init__ websocket endpoint credential model voice instructions in
  active s0 = true
  /\ falls (active_history s0 (trace w')) = 1%nat
  /\ rises (active_history s0 (trace w')) = 0%nat
  /\ last (active_history s0 (trace w')) true = active (self w')
  /\ active (self w') = false
  /\ (forall s w, active (self w) = false -> active (self (step s w)) = false)
  /\ (forall env' w, active (self w) = false ->
                     active (self (snd (start env' w))) = false).
Proof.
  intros s0.
  destruct (start_returns _ _ _ _ Hrun Hr) as (l & T & F & A).
  cbn [fresh trace app] in T.
  assert (W : active_writes (trace w') = (active_writes l ++ [false])%list).
  { rewrite T. unfold active_writes. rewrite flat_map_app. reflexivity. }
  assert (AllF : forallb negb (active_writes (trace w')) = true).
  { rewrite W, forallb_app, (lawful_writes_false _ F). reflexivity. }
  assert (Ne : active_writes (trace w') <> []).
  { rewrite W. intros E. apply app_eq_nil in E. destruct E as [_ E]. discriminate E. }
  destruct (falls_once _ AllF Ne) as [Hf Hrs].
  repeat split; try assumption.
  - unfold active_history. cbn [s0 __init__ active].
    rewrite last_cons_default, W, last_last. now rewrite A.
  - intros s w. apply active_stays_false, grows_lawful_step.
  - intros env' w. apply active_stays_false, sound_start.
Qed.

(** C8, at the session that the browser ends with [stop]. *)
Lemma C8_witness :
  falls (active_history demo_session
           (trace (snd (start env_stop (fresh demo_session))))) = 1%nat.
Proof.
  apply (C8_active_falls_once 1
           "wss://voice.example?api-version=2024-02-15&model=gpt-4o-realtime-preview"
           "key" "gpt-4o-realtime-preview" "alloy" "Be brief." env_stop
           (fst (start env_stop (fresh demo_session)))
           (snd (start env_stop (fresh demo_session)))).
  - vm_compute. reflexivity.
  - vm_compute. discriminate.
Defined.

(* ================================================================== *)
(** ** The end of a session *)

(** Without its settings the endpoint reports the error and closes the
    browser socket itself. *)
Lemma endpoint_unconfigured (cfg : Settings) (websocket : nat) (env : StartEnv) :
  unset (AZURE_VOICELIVE_ENDPOINT cfg) || unset (AZURE_VOICELIVE_API_KEY cfg) = true ->
  websocket_endpoint cfg websocket env
  = (Ok tt,
     [(Endpoint, Accept);
      (Endpoint, Log INFO "Browser WebSocket connection accepted");
      (Endpoint,
       SendJson (error_notification
                   "Server not configured. Missing Azure credentials."));
      (Endpoint, Close)]).
Proof. intros H. unfold websocket_endpoint. now rewrite H. Qed.

(** With its settings the endpoint hands over to [start] and returns
    without closing the browser socket. *)
Lemma endpoint_configured_leaves_socket (cfg : Settings) (websocket : nat)
    (env : StartEnv) :
  unset (AZURE_VOICELIVE_ENDPOINT cfg) || unset (AZURE_VOICELIVE_API_KEY cfg) = false ->
  forallb not_close (snd (websocket_endpoint cfg websocket env)) = true.
Proof.
  intros H. unfold websocket_endpoint. rewrite H.
  match goal with
  | |- context [start env ?w0] =>
      pose proof (sound_start env w0) as (l & T & F & _);
      destruct (start env w0) as [r w']
  end.
  cbn [snd fresh trace app] in *. rewrite T. cbn [forallb app not_close snd].
  now apply lawful_not_close.
Qed.

Lemma start_try_unfold (env : StartEnv) (w : World) :
  start_try env w
  = match until_wait env w with
    | (Ok waited, w1) =>
        match settle_race waited w1 with
        | (Suspended, w2) => (Suspended, w2)
        | (r, w2) => (r, record Start Disconnect w2)
        end
    | (Raise e, w1) =>
        (Raise e,
         match connected env with
         | Returns _ => record Start Disconnect w1
         | Throws _ => w1
         end)
    | (Suspended, w1) => (Suspended, w1)
    end.
Proof.
  unfold start_try, until_wait, async_with.
  cbv [bind get_self log emit lift]. simpl_world.
  destruct (connected env) as [c|e]; [|reflexivity].
  destruct (relay_until_first env c _) as [[waited|e|] w1]; reflexivity.
Qed.

(** When [until_wait] raises, opening or configuring the upstream
    connection has raised. *)
Lemma until_wait_raises (env : StartEnv) (w w1 : World) (e : exn) :
  until_wait env w = (Raise e, w1) ->
  grows prelude_lawful w w1 /\
  (connected env = Throws e \/
   exists c, connected env = Returns c /\ configured env = Throws e).
Proof.
  intros H.
  destruct (connected env) as [c|e0] eqn:Hc.
  - destruct (configured env) as [[]|e0] eqn:Hu.
    + destruct (until_wait_prepared env w c Hc Hu) as (w0 & E & _ & Sr & Sp).
      rewrite E in H.
      pose proof (asyncio_wait_spec (schedule env) w0 Sr Sp) as S. cbv zeta in S.
      rewrite H in S. cbn [fst] in S. tauto.
    + revert H. run_start. rewrite Hc. simpl_world. rewrite Hu. simpl_world.
      intros [= <- <-]. split; [|right; now exists c].
      eexists. split; [flatten_trace; reflexivity|]. split; reflexivity.
  - revert H. run_start. rewrite Hc. intros [= <- <-]. split; [|now left].
    eexists. split; [flatten_trace; reflexivity|]. split; reflexivity.
Qed.

Lemma until_wait_returns (env : StartEnv) (w w1 : World)
    (waited : list Task * list Task) :
  until_wait env w = (Ok waited, w1) ->
  exists c, connected env = Returns c /\ configured env = Returns tt.
Proof.
  intros H.
  destruct (connected env) as [c|e0] eqn:Hc.
  - destruct (configured env) as [[]|e0] eqn:Hu; [now exists c|].
    revert H. run_start. rewrite Hc. simpl_world. rewrite Hu. discriminate.
  - revert H. run_start. rewrite Hc. discriminate.
Qed.

Lemma sends_app (l1 l2 : list (Actor * Effect)) :
  sends (l1 ++ l2) = (sends l1 ++ sends l2)%list.
Proof. unfold sends. apply flat_map_app. Qed.

Lemma prelude_no_start_sends (l : list (Actor * Effect)) :
  forallb prelude_lawful l = true -> sends (filter by_start l) = [].
Proof.
  induction l as [|[a e] l IH]; [reflexivity|].
  cbn [forallb]. intros H. apply andb_prop in H. destruct H as [H1 H2].
  cbn [filter]. specialize (IH H2).
  unfold prelude_lawful in H1. apply andb_prop in H1. destruct H1 as [_ H1].
  destruct a as [|t|]; cbn [by_start fst]; try exact IH.
  change (sends ((Start, e) :: filter by_start l))
    with ((match e with SendJson msg => [msg] | _ => [] end) ++ sends (filter by_start l))%list.
  rewrite IH. destruct e; try reflexivity. discriminate H1.
Qed.

Lemma cancellations_no_sends (pending : list Task) :
  sends (filter by_start (cancellations pending)) = [].
Proof. induction pending as [|t rest IH]; [reflexivity | exact IH]. Qed.

(** The exception of a done task reaches the [except] clause of [start],
    which reports it; a failure of that send is swallowed. *)
Lemma done_exception_reported (env : StartEnv) (w : World) (t : Task)
    (text : string) :
  task_state w t = Finished (Throws (Exception text)) ->
  exists w',
    try_ (check_done [t]) (start_except env) w = (Ok tt, w') /\
    sends (added w w') = [error_notification text].
Proof.
  intros Ht.
  cbv [try_ check_done for_each bind task_exception ret raise start_except
       send_json log emit lift].
  rewrite Ht. simpl_world.
  destruct (notified env) as [[]|e']; simpl_world;
    (eexists; split; [reflexivity|]);
    (erewrite added_app by (flatten_trace; reflexivity)); reflexivity.
Qed.

(** C9, counterexample.  The browser sends [stop]; nothing fails and the
    browser is still connected; the session ends and the browser has been
    sent neither a [response_done] nor an [error]. *)
Lemma C9_stop_ends_without_notification :
  ~ C9_as_stated env_stop (fresh demo_session).
Proof.
  intros H.
  specialize (H eq_refl (fst (start env_stop (fresh demo_session)))
                (snd (start env_stop (fresh demo_session)))).
  assert (F : false = true); [|discriminate F].
  rewrite <- H; [vm_compute; reflexivity | vm_compute; reflexivity
                | vm_compute; discriminate].
Qed.

(** C9, amended.  [start] itself sends the browser an [error] notification
    exactly when opening or configuring the upstream connection raises an
    [Exception] that is not a [WebSocketDisconnect]; the send is attempted
    once, and [start] returns normally whether or not the send succeeds.
    When both succeed, [start] sends nothing, however the relay loops end:
    by [stop], by a disconnect, by the end of the upstream stream or by an
    error, which the loops catch themselves.  The path that reports the
    exception of a done task is in place: such an exception is raised into
    the same [except] clause and sent as an [error] notification. *)
Theorem C9_start_notifications
    (env : StartEnv) (w w' : World) (r : result unit)
    (Hrun : start env w = (r, w')) (Hr : r <> Suspended) :
  sends (filter by_start (added w w')) = start_notifications env
  /\ (start_notifications env <> [] -> r = Ok tt)
  /\ (forall w0 t text,
        task_state w0 t = Finished (Throws (Exception text)) ->
        exists w1,
          try_ (check_done [t]) (start_except env) w0 = (Ok tt, w1) /\
          sends (added w0 w1) = [error_notification text]).
Proof.
  split; [|split; [|intros w0 t text; apply done_exception_reported]];
  destruct (until_wait env w) as [[[done pending]|e|] w1] eqn:U.
  - destruct (start_after_wait _ _ _ _ _ U) as (r0 & w0 & E & _ & T & _).
    rewrite E in Hrun. injection Hrun as <- <-.
    destruct (until_wait_spec _ _ _ _ _ U) as ((l & T1 & F1 & _) & _).
    destruct (until_wait_returns _ _ _ _ U) as (c & Hc & Hu).
    unfold start_notifications. rewrite Hc, Hu.
    rewrite T1, <- app_assoc in T. rewrite (added_app _ _ _ T).
    rewrite !filter_app, !sends_app, (prelude_no_start_sends _ F1),
      cancellations_no_sends. reflexivity.
  - destruct (until_wait_raises _ _ _ _ U) as ((l & T1 & F1 & _) & Hcase).
    revert Hrun. unfold start, finally_, try_. rewrite start_try_unfold, U.
    unfold start_notifications.
    destruct Hcase as [Hc | (c & Hc & Hu)]; rewrite Hc; try rewrite Hu;
      destruct e as [text|text|]; cbn [start_except];
      cbv [start_finally bind set_active log emit send_json lift try_ ret];
      simpl_world; try destruct (notified env) as [[]|e']; simpl_world;
      intros [= <- <-];
      (erewrite added_app by (flatten_trace; rewrite T1, <- app_assoc; reflexivity));
      rewrite !filter_app, !sends_app, (prelude_no_start_sends _ F1);
      reflexivity.
  - exfalso. apply Hr. revert Hrun.
    unfold start, finally_, try_. rewrite start_try_unfold, U.
    now intros [= <- _].
  - destruct (until_wait_returns _ _ _ _ U) as (c & Hc & Hu).
    unfold start_notifications. rewrite Hc, Hu. intros F. now contradiction F.
  - destruct (until_wait_raises _ _ _ _ U) as (_ & Hcase).
    revert Hrun. unfold start, finally_, try_. rewrite start_try_unfold, U.
    unfold start_notifications.
    destruct Hcase as [Hc | (c & Hc & Hu)]; rewrite Hc; try rewrite Hu;
      destruct e as [text|text|]; cbn [start_except];
      cbv [start_finally bind set_active log emit send_json lift try_ ret];
      simpl_world; try destruct (notified env) as [[]|e']; simpl_world;
      intros [= <- _] F; first [reflexivity | now contradiction F].
  - exfalso. apply Hr. revert Hrun.
    unfold start, finally_, try_. rewrite start_try_unfold, U.
    now intros [= <- _].
Qed.

(** C9, at a session whose upstream connection is refused. *)
Lemma C9_witness :
  sends (filter by_start
           (added (fresh demo_session)
                  (snd (start env_refused (fresh demo_session)))))
  = [error_notification "connection refused"].
Proof.
  apply (proj1 (C9_start_notifications env_refused (fresh demo_session)
                  (snd (start env_refused (fresh demo_session)))
                  (fst (start env_refused (fresh demo_session)))
                  ltac:(vm_compute; reflexivity)
                  ltac:(vm_compute; discriminate))).
Defined.

(** C1, counterexample.  The browser sends [stop]: the receive task
    finishes first, the event task is cancelled and awaited and the
    upstream connection is closed, but [start] returns without closing the
    browser socket. *)
Lemma C1_browser_socket_left_open :
  ~ C1_as_stated env_stop (fresh demo_session).
Proof.
  intros H.
  specialize (H [receive_task] [process_task]
                (snd (until_wait env_stop (fresh demo_session)))
                ltac:(vm_compute; reflexivity)).
  destruct H as (r & w' & Hs & _ & _ & _ & a & Hin).
  vm_compute in Hs. injection Hs as <- <-.
  vm_compute in Hin.
  repeat (destruct Hin as [Hin|Hin]; [discriminate Hin|]). exact Hin.
Qed.

(** C1, amended.  Once [asyncio.wait] has returned with a task done,
    [start] returns: it cancels each task that is still pending and awaits
    it, so that the task ends cancelled and no task is left running; then
    the upstream connection is closed, and [active] is set to false.  The
    pending tasks are those still waiting for input.  [start] never closes
    the browser socket: that is left to the endpoint and the server. *)
Theorem C1_start_cancels_pending_and_closes_upstream
    (env : StartEnv) (w w1 : World) (done pending : list Task)
    (Hwait : until_wait env w = (Ok (done, pending), w1)) :
  exists r w',
    start env w = (r, w') /\ r <> Suspended
    /\ done <> []
    /\ (forall t, In t pending <-> task_state w1 t = Awaiting)
    /\ added w1 w' =
         (cancellations pending ++
          [(Start, Disconnect); (Start, SetActive false);
           (Start, Log INFO "Voice session ended")])%list
    /\ (forall t, In t pending ->
                  task_state w' t = Finished (Throws CancelledError))
    /\ (forall t, is_done w' t = true)
    /\ forallb not_close (added w w') = true.
Proof.
  destruct (start_after_wait _ _ _ _ _ Hwait) as (r & w' & E & R & T & _ & Cn & Dn).
  destruct (until_wait_spec _ _ _ _ _ Hwait) as (_ & Td & _ & Pn & Ne).
  exists r, w'. repeat split; try assumption.
  - destruct R as [-> | ->]; discriminate.
  - rewrite Pn. intros Hin. apply filter_In in Hin. destruct Hin as [_ Hin].
    specialize (Td t). unfold is_done in Hin.
    destruct (task_state w1 t) as [| | |[[]|[]]]; try discriminate; reflexivity.
  - rewrite Pn. intros Hin. apply filter_In. split.
    + destruct t; cbn; tauto.
    + unfold is_done. now rewrite Hin.
  - now apply added_app.
  - pose proof (sound_start env w) as (l & Tl & F & _).
    rewrite E in Tl. cbn [snd] in Tl.
    rewrite (added_app _ _ _ Tl). now apply lawful_not_close.
Qed.

(** C1, at the session that the browser ends with [stop]. *)
Lemma C1_witness :
  exists r w',
    start env_stop (fresh demo_session) = (r, w') /\ r <> Suspended
    /\ [receive_task] <> []
    /\ (forall t, In t [process_task] <->
                  task_state (snd (until_wait env_stop (fresh demo_session))) t
                  = Awaiting)
    /\ added (snd (until_wait env_stop (fresh demo_session))) w' =
         (cancellations [process_task] ++
          [(Start, Disconnect); (Start, SetActive false);
           (Start, Log INFO "Voice session ended")])%list
    /\ (forall t, In t [process_task] ->
                  task_state w' t = Finished (Throws CancelledError))
    /\ (forall t, is_done w' t = true)
    /\ forallb not_close (added (fresh demo_session) w') = true.
Proof.
  apply (C1_start_cancels_pending_and_closes_upstream env_stop
           (fresh demo_session)
           (snd (until_wait env_stop (fresh demo_session)))
           [receive_task] [process_task]).
  vm_compute. reflexivity.
Defined.

(* ================================================================== *)
(** ** Relations kept by every piece of the code *)

Section Respect.
Variable R : World -> World -> Prop.
Variable P : Actor * Effect -> bool.
Hypothesis R_refl : forall w, R w w.
Hypothesis R_trans : forall w1 w2 w3, R w1 w2 -> R w2 w3 -> R w1 w3.
Hypothesis R_emit :
  forall a e w, P (a, e) = true -> plain e = true -> R w (record a e w).
Hypothesis R_task : forall t s w, R w (set_task t s w).
Hypothesis R_active :
  forall a w, P (a, SetActive false) = true -> R w (snd (set_active a false w)).
Hypothesis R_ready :
  forall a w, P (a, SetSessionReady true) = true ->
              R w (snd (set_session_ready a true w)).
Hypothesis R_conn :
  forall a c w, P (a, SetConnection) = true -> R w (snd (set_connection a c w)).
Hypothesis P_code : forall ae, emitted ae = true -> P ae = true.

Lemma respects_ret {A} (a : A) : respects R (ret a).
Proof. intros w. apply R_refl. Qed.

Lemma respects_raise {A} (e : exn) : respects R (@raise A e).
Proof. intros w. apply R_refl. Qed.

Lemma respects_lift {A} (o : outcome A) : respects R (lift o).
Proof. intros w. destruct o; apply R_refl. Qed.

Lemma respects_get_self : respects R get_self.
Proof. intros w. apply R_refl. Qed.

Lemma respects_bind {A B} (m : M A) (k : A -> M B) :
  respects R m -> (forall a, respects R (k a)) -> respects R (bind m k).
Proof.
  intros Hm Hk w. unfold bind. specialize (Hm w).
  destruct (m w) as [[a|e|] w1]; cbn [snd] in *; try assumption.
  eapply R_trans; [exact Hm | apply Hk].
Qed.

Lemma respects_try {A} (body : M A) (handlers : exn -> option (M A)) :
  respects R body -> (forall e h, handlers e = Some h -> respects R h) ->
  respects R (try_ body handlers).
Proof.
  intros Hb Hh w. unfold try_. specialize (Hb w).
  destruct (body w) as [[a|e|] w1]; cbn [snd] in *; try assumption.
  destruct (handlers e) as [h|] eqn:E; cbn [snd]; try assumption.
  eapply R_trans; [exact Hb | apply (Hh _ _ E)].
Qed.

Lemma respects_finally {A} (body : M A) (fin : M unit) :
  respects R body -> respects R fin -> respects R (finally_ body fin).
Proof.
  intros Hb Hf w. unfold finally_. specialize (Hb w).
  destruct (body w) as [[a|e|] w1]; cbn [snd] in *; try assumption;
    specialize (Hf w1); destruct (fin w1) as [[[]|e'|] w2]; cbn [snd] in *;
    eapply R_trans; eassumption.
Qed.

Lemma respects_for_each {A} (items : list A) (body : A -> M unit) :
  (forall x, respects R (body x)) -> respects R (for_each items body).
Proof.
  intros Hb. induction items as [|x rest IH]; cbn [for_each].
  - apply respects_ret.
  - apply respects_bind; [apply Hb | intros _; exact IH].
Qed.

Lemma respects_emit (a : Actor) (e : Effect) :
  emitted (a, e) = true -> plain e = true -> respects R (emit a e).
Proof. intros HP HA w. apply R_emit; [now apply P_code | exact HA]. Qed.

Lemma respects_log (a : Actor) (lvl : Level) (text : string) :
  emitted (a, Log lvl text) = true -> respects R (log a lvl text).
Proof. intros HP. now apply respects_emit. Qed.

Lemma respects_send_json (a : Actor) (msg : json) (sent : outcome unit) :
  emitted (a, SendJson msg) = true -> respects R (send_json a msg sent).
Proof.
  intros HP. apply respects_bind;
    [now apply respects_emit | intros; apply respects_lift].
Qed.

Lemma respects_upstream_call (a : Actor) (c : Command) (called : outcome unit) :
  emitted (a, Upstream c) = true -> respects R (upstream_call a c called).
Proof.
  intros HP. apply respects_bind;
    [now apply respects_emit | intros; apply respects_lift].
Qed.

Lemma respects_set_active (a : Actor) :
  emitted (a, SetActive false) = true -> respects R (set_active a false).
Proof. intros HP w. apply R_active. now apply P_code. Qed.

Lemma respects_set_session_ready (a : Actor) :
  emitted (a, SetSessionReady true) = true ->
  respects R (set_session_ready a true).
Proof. intros HP w. apply R_ready. now apply P_code. Qed.

Lemma respects_set_connection (a : Actor) (c : VoiceLiveConnection) :
  emitted (a, SetConnection) = true -> respects R (set_connection a c).
Proof. intros HP w. apply R_conn. now apply P_code. Qed.

Lemma respects_dict_get (data : json) (key : string) :
  respects R (dict_get data key).
Proof. destruct data; first [apply respects_ret | apply respects_raise]. Qed.

Lemma respects_attr {A} (failure : string) (field : option A) :
  respects R (attr failure field).
Proof. destruct field; first [apply respects_ret | apply respects_raise]. Qed.

Lemma respects_assert_connection : respects R assert_connection.
Proof.
  apply respects_bind; [apply respects_get_self|].
  intros s. destruct (connection s);
    first [apply respects_ret | apply respects_raise].
Qed.

Ltac respects_step :=
  first
    [ apply respects_assert_connection
    | apply respects_dict_get | apply respects_attr
    | apply respects_log; reflexivity
    | apply respects_send_json; reflexivity
    | apply respects_upstream_call; reflexivity
    | apply respects_set_active; reflexivity
    | apply respects_set_session_ready; reflexivity
    | apply respects_set_connection; reflexivity
    | apply respects_emit; reflexivity
    | apply respects_get_self | apply respects_lift
    | apply respects_ret | apply respects_raise
    | apply respects_for_each; intros ?
    | apply respects_bind; [|intros ?]
    | match goal with
      | |- respects _ (if ?b then _ else _) => destruct b
      | |- respects _ (match ?x with _ => _ end) => destruct x
      | |- respects _ (let '(_, _) := ?x in _) => destruct x
      end ].

Lemma respects_handle_azure_event (event : ServerEvent) (sent : outcome unit) :
  respects R (_handle_azure_event event sent).
Proof.
  unfold _handle_azure_event. apply respects_try.
  - repeat respects_step.
  - intros e h. destruct (is_Exception e); intros [= <-]. repeat respects_step.
Qed.

Lemma respects_receive_handlers (e : exn) (h : M Status) :
  receive_handlers e = Some h -> respects R h.
Proof. destruct e; intros [= <-]; repeat respects_step. Qed.

Lemma respects_process_handlers (e : exn) (h : M Status) :
  process_handlers e = Some h -> respects R h.
Proof.
  unfold process_handlers. destruct (is_Exception e); intros [= <-].
  repeat respects_step.
Qed.

Lemma respects_step_code (s : Step) : respects R (step_code s).
Proof.
  destruct s as [received called | next sent]; cbn [step_code].
  - unfold _receive_from_browser_resume, receive_body, while_active.
    apply respects_try; [repeat respects_step | apply respects_receive_handlers].
  - unfold _process_azure_events_resume.
    apply respects_try; [|apply respects_process_handlers].
    apply respects_bind; [repeat respects_step|].
    intros [event|]; [|repeat respects_step].
    apply respects_bind; [repeat respects_step|]. intros s.
    destruct (negb (active s)); [repeat respects_step|].
    apply respects_bind;
      [apply respects_handle_azure_event | intros; repeat respects_step].
Qed.

Lemma respects_enter_code (t : Task) : respects R (enter_code t).
Proof.
  destruct t; cbn [enter_code].
  - unfold _receive_from_browser_enter, while_active.
    apply respects_try; [repeat respects_step | apply respects_receive_handlers].
  - unfold _process_azure_events_enter.
    apply respects_try; [repeat respects_step | apply respects_process_handlers].
Qed.

Lemma related_settle (t : Task) (w : World) (r : result Status * World) :
  R w (snd r) -> R w (settle t r).
Proof.
  destruct r as [[[]|e|] w1]; cbn [snd settle]; intros H; try assumption;
    (eapply R_trans; [exact H | apply R_task]).
Qed.

Lemma related_step (s : Step) (w : World) : R w (step s w).
Proof.
  unfold step. destruct (task_state w (step_task s)); try apply R_refl.
  apply related_settle, respects_step_code.
Qed.

Lemma related_enter (t : Task) (w : World) : R w (enter t w).
Proof.
  unfold enter. destruct (task_state w t); try apply R_refl.
  apply related_settle, respects_enter_code.
Qed.

Lemma related_run (schedule : list Step) (w : World) : R w (run schedule w).
Proof.
  revert w. induction schedule as [|s rest IH]; intros w; cbn [run].
  - apply R_refl.
  - eapply R_trans; [apply related_step | apply IH].
Qed.

Lemma respects_create_task (t : Task) : respects R (create_task t).
Proof.
  intros w. unfold create_task. cbn [snd].
  eapply R_trans; [apply R_task|]. apply R_emit; [apply P_code|]; reflexivity.
Qed.

Lemma respects_asyncio_wait (schedule : list Step) :
  respects R (asyncio_wait schedule).
Proof.
  intros w. unfold asyncio_wait.
  assert (G : R w (run schedule (enter process_task (enter receive_task w)))).
  { eapply R_trans; [eapply R_trans|];
      [apply related_enter | apply related_enter | apply related_run]. }
  destruct (filter _ _); exact G.
Qed.

Lemma respects_task_cancel (t : Task) : respects R (task_cancel t).
Proof.
  intros w. unfold task_cancel. cbn [snd].
  eapply R_trans; [|apply related_step].
  apply R_emit; [apply P_code|]; reflexivity.
Qed.

Lemma respects_await_task (t : Task) : respects R (await_task t).
Proof.
  unfold await_task. apply respects_bind; [apply respects_emit; reflexivity|].
  intros _ w. destruct (task_state w t); try apply R_refl. apply respects_lift.
Qed.

Lemma respects_task_exception (t : Task) : respects R (task_exception t).
Proof.
  intros w. unfold task_exception.
  destruct (task_state w t) as [| | |[[]|[]]]; apply R_refl.
Qed.

Lemma respects_async_with {A} (entered : outcome VoiceLiveConnection)
    (body : VoiceLiveConnection -> M A) :
  (forall c, respects R (body c)) -> respects R (async_with entered body).
Proof.
  intros Hb. unfold async_with.
  apply respects_bind; [apply respects_emit; reflexivity|]. intros _.
  apply respects_bind; [apply respects_lift|]. intros c w.
  specialize (Hb c w). destruct (body c w) as [[a|e|] w1]; cbn [snd] in *;
    try assumption;
    (eapply R_trans; [exact Hb | apply R_emit; [apply P_code|]; reflexivity]).
Qed.

Lemma respects_setup_session (updated : outcome unit) :
  respects R (_setup_session updated).
Proof. unfold _setup_session. repeat respects_step. Qed.

Lemma respects_settle_race (waited : list Task * list Task) :
  respects R (settle_race waited).
Proof.
  unfold settle_race, cancel_pending, check_done. destruct waited as [done pending].
  apply respects_bind.
  - apply respects_for_each. intros t.
    apply respects_bind; [apply respects_task_cancel|]. intros _.
    apply respects_try; [apply respects_await_task|].
    intros e h. destruct e; intros [= <-]. apply respects_ret.
  - intros _. apply respects_for_each. intros t.
    apply respects_bind; [apply respects_task_exception|].
    intros [e|]; [apply respects_raise | apply respects_ret].
Qed.

Lemma respects_start_try (env : StartEnv) : respects R (start_try env).
Proof.
  unfold start_try, relay_until_first.
  apply respects_bind; [apply respects_get_self|]. intros s.
  apply respects_bind; [apply respects_log; reflexivity|]. intros _.
  apply respects_async_with. intros c.
  apply respects_bind; [|intros waited; apply respects_settle_race].
  apply respects_bind; [apply respects_set_connection; reflexivity|]. intros _.
  apply respects_bind; [apply respects_setup_session|]. intros _.
  apply respects_bind; [apply respects_create_task|]. intros _.
  apply respects_bind; [apply respects_create_task|]. intros _.
  apply respects_asyncio_wait.
Qed.

Lemma respects_start_except (env : StartEnv) (e : exn) (h : M unit) :
  start_except env e = Some h -> respects R h.
Proof.
  destruct e; intros [= <-].
  - apply respects_log; reflexivity.
  - apply respects_bind; [apply respects_log; reflexivity|]. intros _.
    apply respects_try; [apply respects_send_json; reflexivity|].
    intros e h [= <-]. apply respects_ret.
Qed.

Lemma respects_start (env : StartEnv) : respects R (start env).
Proof.
  unfold start. apply respects_finally.
  - apply respects_try; [apply respects_start_try | apply respects_start_except].
  - unfold start_finally.
    apply respects_bind; [apply respects_set_active; reflexivity|]. intros _.
    apply respects_log; reflexivity.
Qed.


(** [start] from the moment it has asked for the upstream connection, and
    from the moment the connection is stored. *)
Lemma related_after_connect (env : StartEnv) (w : World) :
  R (record Start Connect
       (record Start
          (Log INFO ("Starting WebSocket voice session with model "
                     ++ model (self w))) w))
    (snd (start env w)).
Proof.
  set (w2 := record Start Connect _).
  change (start env w)
    with (finally_
            (try_ (c <- lift (connected env) ;;
                   fun w0 =>
                     match (waited <- relay_until_first env c ;;
                            settle_race waited) w0 with
                     | (Suspended, w1) => (Suspended, w1)
                     | (r, w1) => (r, record Start Disconnect w1)
                     end)
                  (start_except env))
            start_finally w2).
  apply respects_finally.
  - apply respects_try; [|apply respects_start_except].
    apply respects_bind; [apply respects_lift|]. intros c w0.
    assert (Hb : R w0 (snd ((waited <- relay_until_first env c ;;
                             settle_race waited) w0))).
    { apply respects_bind; [|intros waited; apply respects_settle_race].
      unfold relay_until_first.
      apply respects_bind; [apply respects_set_connection; reflexivity|]. intros _.
      apply respects_bind; [apply respects_setup_session|]. intros _.
      apply respects_bind; [apply respects_create_task|]. intros _.
      apply respects_bind; [apply respects_create_task|]. intros _.
      apply respects_asyncio_wait. }
    destruct ((waited <- relay_until_first env c ;; settle_race waited) w0)
      as [[a|e|] w1]; cbn [snd] in *; try assumption;
      (eapply R_trans; [exact Hb | apply R_emit; [apply P_code|]; reflexivity]).
  - unfold start_finally.
    apply respects_bind; [apply respects_set_active; reflexivity|]. intros _.
    apply respects_log; reflexivity.
Qed.

Lemma related_after_set_connection (env : StartEnv) (w : World)
    (c : VoiceLiveConnection) :
  connected env = Returns c ->
  R (connected_world c w) (snd (start env w)).
Proof.
  intros Hc. unfold connected_world.
  set (w3 := snd (set_connection Start c _)).
  assert (E : start env w
              = finally_
                  (try_ (fun w0 =>
                           match (waited <- (_setup_session (configured env) ;;
                                             create_task receive_task ;;
                                             create_task process_task ;;
                                             asyncio_wait (schedule env)) ;;
                                  settle_race waited) w0 with
                           | (Suspended, w1) => (Suspended, w1)
                           | (r, w1) => (r, record Start Disconnect w1)
                           end)
                        (start_except env))
                  start_finally w3).
  { unfold start, finally_, try_, start_try, async_with, relay_until_first.
    cbv [bind get_self log emit lift set_connection]. rewrite Hc.
    subst w3. cbv [set_connection]. simpl_world. reflexivity. }
  rewrite E. clear E.
  apply respects_finally.
  - apply respects_try; [|apply respects_start_except]. intros w0.
    assert (Hb : R w0 (snd ((waited <- (_setup_session (configured env) ;;
                                        create_task receive_task ;;
                                        create_task process_task ;;
                                        asyncio_wait (schedule env)) ;;
                             settle_race waited) w0))).
    { apply respects_bind; [|intros waited; apply respects_settle_race].
      apply respects_bind; [apply respects_setup_session|]. intros _.
      apply respects_bind; [apply respects_create_task|]. intros _.
      apply respects_bind; [apply respects_create_task|]. intros _.
      apply respects_asyncio_wait. }
    destruct ((waited <- (_setup_session (configured env) ;; _) ;; _) w0)
      as [[a|e|] w1]; cbn [snd] in *; try assumption;
      (eapply R_trans; [exact Hb | apply R_emit; [apply P_code|]; reflexivity]).
  - unfold start_finally.
    apply respects_bind; [apply respects_set_active; reflexivity|]. intros _.
    apply respects_log; reflexivity.
Qed.

End Respect.

(** *** Two relations the code keeps *)

Lemma plain_no_write (a : Actor) (e : Effect) :
  plain e = true -> active_writes [(a, e)] = [].
Proof. destruct e; try discriminate; reflexivity. Qed.

(** Every effect of a turn, of [start] and of the endpoint is one its actor
    can have. *)
Lemma start_emits (env : StartEnv) (w : World) :
  grows emitted w (snd (start env w)).
Proof.
  apply (respects_start (grows emitted) emitted).
  - apply grows_refl.
  - apply grows_trans.
  - intros a e w0 HP Hpl. apply grows_record; [exact HP | now apply plain_no_write].
  - intros t s w0. apply grows_set_task, grows_refl.
  - intros a w0 HP. now apply sound_set_active.
  - intros a w0 HP. exists [(a, SetSessionReady true)]. repeat split.
    cbn [forallb]. now rewrite HP.
  - intros a c w0 HP. now apply sound_set_connection.
  - auto.
Qed.

Lemma run_emits (schedule : list Step) (w : World) :
  grows emitted w (run schedule w).
Proof.
  apply (related_run (grows emitted) emitted).
  - apply grows_refl.
  - apply grows_trans.
  - intros a e w0 HP Hpl. apply grows_record; [exact HP | now apply plain_no_write].
  - intros t s w0. apply grows_set_task, grows_refl.
  - intros a w0 HP. now apply sound_set_active.
  - intros a w0 HP. exists [(a, SetSessionReady true)]. repeat split.
    cbn [forallb]. now rewrite HP.
  - auto.
Qed.

Lemma evolves_refl (s : Session) : evolves s s.
Proof. unfold evolves. tauto. Qed.

Lemma evolves_trans (s1 s2 s3 : Session) :
  evolves s1 s2 -> evolves s2 s3 -> evolves s1 s3.
Proof.
  unfold evolves. intros H1 H2.
  destruct H1 as (A1 & B1 & C1 & D1 & E1 & F1 & G1 & I1 & J1).
  destruct H2 as (A2 & B2 & C2 & D2 & E2 & F2 & G2 & I2 & J2).
  repeat split; try congruence; auto.
Qed.

Lemma start_keeps (env : StartEnv) (w : World) :
  evolves (self w) (self (snd (start env w))).
Proof.
  apply (respects_start (fun w0 w1 => evolves (self w0) (self w1))
           (fun _ => true)).
  - intros w0. apply evolves_refl.
  - intros w1 w2 w3. apply evolves_trans.
  - intros a e w0 _ _. apply evolves_refl.
  - intros [] s w0; apply evolves_refl.
  - intros a w0 _. cbn. unfold evolves. cbn. tauto.
  - intros a w0 _. cbn. unfold evolves. cbn. tauto.
  - intros a c w0 _. cbn. unfold evolves. cbn. repeat split; auto.
    intros c0 _. now destruct c, c0.
  - auto.
Qed.

Lemma step_keeps (s : Step) (w : World) :
  evolves (self w) (self (step s w)).
Proof.
  apply (related_step (fun w0 w1 => evolves (self w0) (self w1))
           (fun _ => true)).
  - intros w0. apply evolves_refl.
  - intros w1 w2 w3. apply evolves_trans.
  - intros a e w0 _ _. apply evolves_refl.
  - intros [] s0 w0; apply evolves_refl.
  - intros a w0 _. cbn. unfold evolves. cbn. tauto.
  - intros a w0 _. cbn. unfold evolves. cbn. tauto.
  - auto.
Qed.

(* ================================================================== *)
(** ** The relay in order *)

Lemma handler_effects (w : World) (event : ServerEvent) (sent : outcome unit) :
  exists l,
    trace (snd (_handle_azure_event event sent w)) = (trace w ++ l)%list /\
    sends l = notification_of event /\ commands l = [].
Proof.
  destruct event as [ty sid d m].
  destruct ty; destruct sid as [[[]]|]; destruct d; destruct m as [[[]]|];
    destruct sent as [[]|[]];
    run_handler; cbv [notification_of ev_type ev_session ev_delta ev_error sess_id err_message
         json_of];
    eexists; (split; [first [flatten_trace; reflexivity
                            | symmetry; apply app_nil_r]|]);
    split; reflexivity.
Qed.

Lemma calm_process_turn (w : World) (event : ServerEvent) (sent : outcome unit) :
  relaying_state w -> sent <> Throws CancelledError ->
  exists l,
    trace (step (ResumeProcess (Returns (Some event)) sent) w) = (trace w ++ l)%list /\
    sends l = notification_of event /\ commands l = [] /\
    relaying_state (step (ResumeProcess (Returns (Some event)) sent) w).
Proof.
  intros (Hr & Hp & Ha & Hc) Hs.
  destruct (handler_returns w event sent Hs) as (w' & Hh & Hact).
  destruct (handler_effects w event sent) as (l & T & S & C).
  rewrite Hh in T. cbn [snd] in T.
  destruct (steady_handle_azure_event event sent w) as (_ & _ & Sr & Sp).
  rewrite Hh in Sr, Sp. cbn [snd] in Sr, Sp.
  pose proof (step_keeps (ResumeProcess (Returns (Some event)) sent) w) as K.
  rewrite (process_turn w w' event sent Hp Ha Hh) in *.
  exists l. repeat split.
  - exact T.
  - exact S.
  - exact C.
  - cbn [receive_state set_task]. congruence.
  - rewrite active_set_task. congruence.
  - destruct K as (_ & _ & _ & _ & _ & _ & Kc & _).
    destruct (connection (self w)) as [c|]; [|discriminate Hc].
    now rewrite (Kc c eq_refl).
Qed.

Lemma calm_receive_turn (w : World) (data : json) (u : unit) :
  relaying_state w -> ends_browser_loop data = false ->
  exists l,
    trace (step (ResumeReceive (Returns data) (Returns u)) w) = (trace w ++ l)%list /\
    sends l = [] /\ commands l = forwarded data /\
    relaying_state (step (ResumeReceive (Returns data) (Returns u)) w).
Proof.
  intros (Hr & Hp & Ha & Hc) He. destruct u.
  rewrite (receive_turn _ _ _ Hr).
  destruct data as [| | | | |members]; try discriminate He.
  cbn [ends_browser_loop forwarded] in *.
  run_receive.
  destruct (is_str (lookup "type" members) "audio") eqn:A;
    [destruct (truthy (lookup "audio" members)) eqn:G|
     destruct (is_str (lookup "type" members) "interrupt") eqn:I;
     [|destruct (is_str (lookup "type" members) "stop") eqn:S;
       [discriminate He|]]];
    rewrite ?Hc; cbn [andb]; simpl_world; rewrite ?Ha; cbn [settle];
    eexists;
    (split; [first [flatten_trace; reflexivity | symmetry; apply app_nil_r]|]);
    (split; [reflexivity|]); (split; [reflexivity|]);
    unfold relaying_state; simpl_world; repeat split;
    first [reflexivity | assumption].
Qed.

Lemma calm_turn (w : World) (s : Step) :
  relaying_state w -> calm s = true ->
  exists l,
    trace (step s w) = (trace w ++ l)%list /\
    commands l = forwarded_by s /\ sends l = notified_by s /\
    relaying_state (step s w).
Proof.
  intros Hw Hs.
  destruct s as [[data|e] [u|e'] | [[event|]|e] sent]; try discriminate Hs.
  - destruct (calm_receive_turn w data u Hw) as (l & T & S & C & K).
    { cbn [calm] in Hs. now apply negb_true_iff in Hs. }
    exists l. split; [exact T|]. split; [exact C|]. split; [exact S | exact K].
  - destruct (calm_process_turn w event sent Hw) as (l & T & S & C & K).
    { destruct sent as [u|e]; [discriminate|]. cbn [calm] in Hs.
      intros [= ->]. discriminate Hs. }
    exists l. split; [exact T|]. split; [exact C|]. split; [exact S | exact K].
Qed.

Lemma calm_run (schedule : list Step) (w : World) :
  relaying_state w -> forallb calm schedule = true ->
  exists l,
    trace (run schedule w) = (trace w ++ l)%list /\
    commands l = flat_map forwarded_by schedule /\
    sends l = flat_map notified_by schedule /\
    relaying_state (run schedule w).
Proof.
  revert w. induction schedule as [|s rest IH]; intros w Hw Hc.
  - exists []. cbn. rewrite app_nil_r. repeat split; try reflexivity; apply Hw.
  - cbn [forallb] in Hc. apply andb_prop in Hc. destruct Hc as [Hs Hrest].
    destruct (calm_turn w s Hw Hs) as (l1 & T1 & C1 & S1 & K1).
    destruct (IH (step s w) K1 Hrest) as (l2 & T2 & C2 & S2 & K2).
    exists (l1 ++ l2)%list. cbn [run flat_map]. repeat split; try apply K2.
    + now rewrite T2, T1, app_assoc.
    + unfold commands in *. now rewrite flat_map_app, C1, C2.
    + unfold sends in *. now rewrite flat_map_app, S1, S2.
Qed.

Lemma forwarded_by_messages (schedule : list Step) :
  flat_map forwarded_by schedule = flat_map forwarded (messages schedule).
Proof.
  induction schedule as [|s rest IH]; [reflexivity|].
  cbn [flat_map messages]. fold (messages rest). rewrite flat_map_app, IH.
  destruct s as [[data|e] called | next sent]; cbn; now rewrite ?app_nil_r.
Qed.

Lemma notified_by_events (schedule : list Step) :
  flat_map notified_by schedule = flat_map notification_of (events schedule).
Proof.
  induction schedule as [|s rest IH]; [reflexivity|].
  cbn [flat_map events]. fold (events rest). rewrite flat_map_app, IH.
  destruct s as [received called | [[event|]|e] sent]; cbn; now rewrite ?app_nil_r.
Qed.

(** X12.  While neither loop ends, the upstream commands are the
    translations of the browser messages, one message after the other in
    the order of arrival, whatever upstream events are handled in between:
    nothing is reordered, batched, dropped or added, and the session stays
    in the relaying state. *)
Theorem browser_messages_forwarded_in_order
    (w : World) (schedule : list Step)
    (Hw : relaying_state w) (Hcalm : forallb calm schedule = true) :
  commands (added w (run schedule w)) = flat_map forwarded (messages schedule)
  /\ relaying_state (run schedule w).
Proof.
  destruct (calm_run schedule w Hw Hcalm) as (l & T & C & _ & K).
  rewrite (added_app _ _ _ T), C, forwarded_by_messages. now split.
Qed.

(** X12, on a schedule with traffic in both directions. *)
Lemma browser_messages_forwarded_in_order_witness :
  commands (added relaying (run busy_schedule relaying))
  = [input_audio_buffer_append (JStr "AAAA"); response_cancel].
Proof.
  apply (proj1 (browser_messages_forwarded_in_order relaying busy_schedule
                  ltac:(repeat split; reflexivity) eq_refl)).
Defined.

(** X13.  While neither loop ends, the notifications handed to the browser
    socket are those of the upstream events, one event after the other in
    the order of arrival, whatever browser messages are handled in between
    and whether or not earlier sends failed.  An event of a handled type
    gives one notification; for a session or an error object that lacks
    its [id] or [message] the notification carries [null] in that place.
    An event of another type gives none, and neither does an event whose
    [session], [delta] or [error] is [None], for which the handler raises
    before it sends. *)
Theorem upstream_events_notified_in_order
    (w : World) (schedule : list Step)
    (Hw : relaying_state w) (Hcalm : forallb calm schedule = true) :
  sends (added w (run schedule w)) = flat_map notification_of (events schedule).
Proof.
  destruct (calm_run schedule w Hw Hcalm) as (l & T & _ & S & _).
  now rewrite (added_app _ _ _ T), S, notified_by_events.
Qed.

(** X13, on a schedule with traffic in both directions. *)
Lemma upstream_events_notified_in_order_witness :
  sends (added relaying (run busy_schedule relaying))
  = [JObj [("type", JStr "speech_started")];
     JObj [("type", JStr "error"); ("message", JStr "rate limited")];
     JObj [("type", JStr "session_ready"); ("session_id", JNull)]].
Proof.
  apply (upstream_events_notified_in_order relaying busy_schedule
           ltac:(repeat split; reflexivity) eq_refl).
Defined.

(* ================================================================== *)
(** ** After the browser loop *)

Lemma quiet_turn (w : World) (s : Step) :
  browser_side_ended w ->
  exists l,
    trace (step s w) = (trace w ++ l)%list /\
    sends l = [] /\ commands l = [] /\ browser_side_ended (step s w).
Proof.
  intros (Hd & Ha). unfold is_done in Hd. cbn [task_state] in Hd.
  assert (Same : exists l, trace w = (trace w ++ l)%list /\ sends l = [] /\
                           commands l = [] /\ browser_side_ended w).
  { exists []. rewrite app_nil_r. repeat split; assumption. }
  destruct s as [received called | next sent]; unfold step; cbn [step_task task_state].
  - destruct (receive_state w); try discriminate Hd; exact Same.
  - destruct (process_state w) eqn:Hp; try exact Same.
    cbv [step_code _process_azure_events_resume process_handlers try_ bind lift
         get_self ret log emit set_active is_Exception].
    destruct next as [[event|]|[text|text|]]; simpl_world; rewrite ?Ha;
      cbn [negb settle];
      eexists;
      (split; [first [flatten_trace; reflexivity | symmetry; apply app_nil_r]|]);
      (split; [reflexivity|]); (split; [reflexivity|]);
      unfold browser_side_ended, is_done; simpl_world; split;
      first [exact Hd | assumption | reflexivity].
Qed.

Lemma quiet_run (schedule : list Step) (w : World) :
  browser_side_ended w ->
  exists l,
    trace (run schedule w) = (trace w ++ l)%list /\
    sends l = [] /\ commands l = [].
Proof.
  revert w. induction schedule as [|s rest IH]; intros w Hw.
  - exists []. now rewrite app_nil_r.
  - destruct (quiet_turn w s Hw) as (l1 & T1 & S1 & C1 & K1).
    destruct (IH (step s w) K1) as (l2 & T2 & S2 & C2).
    exists (l1 ++ l2)%list. cbn [run]. repeat split.
    + now rewrite T2, T1, app_assoc.
    + unfold sends in *. now rewrite flat_map_app, S1, S2.
    + unfold commands in *. now rewrite flat_map_app, C1, C2.
Qed.

Lemma stop_ends_browser_side (w : World) (members : list (string * json))
    (called : outcome unit) :
  receive_state w = Awaiting ->
  is_str (lookup "type" members) "audio" = false ->
  is_str (lookup "type" members) "interrupt" = false ->
  is_str (lookup "type" members) "stop" = true ->
  browser_side_ended (step (ResumeReceive (Returns (JObj members)) called) w).
Proof.
  intros Hr A I S. rewrite (receive_turn _ _ _ Hr). run_receive.
  rewrite A, I, S. simpl_world. cbn [settle]. split; reflexivity.
Qed.

(** X14.  Once the browser loop has ended with [active] false, which is
    how it ends on [stop], on a disconnect and on an error, neither relay
    task sends anything more, on either connection, whatever arrives
    afterwards and in whatever order: the event loop drops the events it
    reads, and the end or a failure of the event stream is only logged. *)
Theorem silence_after_browser_loop
    (w : World) (schedule : list Step) (Hw : browser_side_ended w) :
  sends (added w (run schedule w)) = []
  /\ commands (added w (run schedule w)) = [].
Proof.
  destruct (quiet_run schedule w Hw) as (l & T & S & C).
  rewrite (added_app _ _ _ T). now split.
Qed.

(** X14, after a [stop] in the relaying session. *)
Lemma silence_after_browser_loop_witness :
  sends (added (step (ResumeReceive (Returns msg_stop) (Returns tt)) relaying)
           (run busy_schedule
              (step (ResumeReceive (Returns msg_stop) (Returns tt)) relaying)))
  = [].
Proof.
  apply (proj1 (silence_after_browser_loop
                  (step (ResumeReceive (Returns msg_stop) (Returns tt)) relaying)
                  busy_schedule
                  ltac:(split; reflexivity))).
Defined.

(** X15.  A browser message that is not a JSON object ends the browser
    loop: [data.get] raises, the error is logged with the name of the type
    of the value, [active] is set to false, no upstream command is issued,
    and the task returns normally. *)
Theorem non_object_message_ends_browser_loop
    (w : World) (data : json) (called : outcome unit)
    (Hr : receive_state w = Awaiting)
    (Hdata : match data with JObj _ => False | _ => True end) :
  let w' := step (ResumeReceive (Returns data) called) w in
  added w w' =
    [(Relay receive_task,
      Log ERROR_LEVEL
        ("Error receiving from browser: '" ++ type_name data
         ++ "' object has no attribute 'get'"));
     (Relay receive_task, SetActive false)]
  /\ task_state w' receive_task = Finished (Returns tt)
  /\ active (self w') = false
  /\ browser_side_ended w'.
Proof.
  intros w'. subst w'. rewrite (receive_turn _ _ _ Hr).
  destruct data; try contradiction; run_receive; cbn [settle str type_name];
    (split; [apply added_app; flatten_trace; reflexivity|]);
    repeat split.
Qed.

(** X15, at a JSON array. *)
Lemma non_object_message_ends_browser_loop_witness :
  task_state (step (ResumeReceive (Returns (JArr [])) (Returns tt)) relaying)
    receive_task = Finished (Returns tt).
Proof.
  apply (non_object_message_ends_browser_loop relaying (JArr []) (Returns tt)
           eq_refl I).
Defined.

(** X16.  Whatever the event and however its send ends,
    [_handle_azure_event] issues no upstream command, leaves [active], the
    connection and the configuration of the session as they are, sets
    [session_ready] exactly when the event is a session-updated event whose
    [session] is not [None], with or without an [id] in it, and lets no
    exception out except the cancellation of its own send. *)
Theorem handler_frame
    (w : World) (event : ServerEvent) (sent : outcome unit) :
  let r := _handle_azure_event event sent w in
  commands (added w (snd r)) = []
  /\ active (self (snd r)) = active (self w)
  /\ connection (self (snd r)) = connection (self w)
  /\ evolves (self w) (self (snd r))
  /\ session_ready (self (snd r))
     = match ev_type event, ev_session event with
       | SESSION_UPDATED, Some _ => true
       | _, _ => session_ready (self w)
       end
  /\ (fst r = Ok tt \/ (fst r = Raise CancelledError /\ sent = Throws CancelledError))
  /\ receive_state (snd r) = receive_state w
  /\ process_state (snd r) = process_state w.
Proof.
  intros r. subst r.
  destruct (handler_effects w event sent) as (l & T & _ & C).
  rewrite (added_app _ _ _ T).
  split; [exact C|].
  destruct event as [ty sid d m].
  destruct ty; destruct sid as [[[]]|]; destruct d; destruct m as [[[]]|];
    destruct sent as [[]|[]];
    run_handler; unfold evolves; simpl_world;
    repeat split; auto.
Qed.

(* ================================================================== *)
(** ** The configuration of the upstream session *)

Lemma contains_has_hyphen (name : string) :
  contains "-" name = has_hyphen name.
Proof.
  unfold contains, has_hyphen.
  induction name as [|b rest IH]; [reflexivity|].
  cbn [String.index list_ascii_of_string existsb String.prefix].
  destruct (ascii_dec "-" b) as [E|N].
  - subst b. destruct rest; reflexivity.
  - assert (Hb : Ascii.eqb "-" b = false) by (now apply Ascii.eqb_neq).
    rewrite Hb. cbn [orb].
    destruct (String.index 0 "-" rest); exact IH.
Qed.

Lemma prefix_en_has_hyphen (name : string) :
  String.prefix "en-" name = true -> has_hyphen name = true.
Proof.
  unfold has_hyphen.
  destruct name as [|a [|b [|c rest]]]; cbn [String.prefix]; try discriminate.
  - destruct (ascii_dec "e" a); discriminate.
  - destruct (ascii_dec "e" a); [|discriminate].
    destruct (ascii_dec "n" b); discriminate.
  - destruct (ascii_dec "e" a); [|discriminate].
    destruct (ascii_dec "n" b); [|discriminate].
    destruct (ascii_dec "-" c) as [E|]; [|discriminate]. subst c. intros _.
    cbn [list_ascii_of_string existsb]. rewrite Ascii.eqb_refl.
    now rewrite !orb_true_r.
Qed.

Lemma voice_test (name : string) :
  String.prefix "en-" name || contains "-" name = has_hyphen name.
Proof.
  rewrite contains_has_hyphen.
  destruct (String.prefix "en-" name) eqn:E; [|reflexivity].
  now rewrite (prefix_en_has_hyphen name E).
Qed.

(** X1 ([_setup_session]).  With an upstream connection at hand, the one
    call made on it is [session.update] with the configuration read off
    the session: text and audio, PCM16 both ways, server voice-activity
    detection at 0.5 / 300 ms / 500 ms, and the voice as an Azure standard
    voice exactly when its name contains a hyphen (the test for the [en-]
    prefix never decides).  Nothing is sent to the browser, the session is
    left as it was, and the call fails exactly as [session.update] does.
    Without a connection the assertion fails before any call is made. *)
Theorem setup_session_sends_configuration (updated : outcome unit) (w : World) :
  let r := _setup_session updated w in
  commands (added w (snd r))
  = (if is_set (connection (self w))
     then [session_update (request_session (self w))] else []) /\
  sends (added w (snd r)) = [] /\
  self (snd r) = self w /\
  fst r = match connection (self w) with
          | None => Raise (Exception "")
          | Some _ =>
              match updated with
              | Returns _ => Ok tt
              | Throws e => Raise e
              end
          end.
Proof.
  unfold _setup_session, assert_connection, upstream_call, log.
  cbv [bind get_self emit lift ret raise]. simpl_world.
  unfold request_session. rewrite voice_test.
  destruct (connection (self w)) as [c|]; simpl_world.
  - destruct updated as [[]|e]; simpl_world; cbn [is_set];
      (split; [notified|]); (split; [notified|]); split; reflexivity.
  - cbn [is_set]. (split; [notified|]); (split; [notified|]); split; reflexivity.
Qed.

(* ================================================================== *)
(** ** The course of [start] *)

Lemma asyncio_wait_emits (schedule : list Step) (w : World) :
  grows emitted w (snd (asyncio_wait schedule w)).
Proof.
  apply (respects_asyncio_wait (grows emitted) emitted).
  - apply grows_refl.
  - apply grows_trans.
  - intros a e w0 HP Hpl. apply grows_record; [exact HP | now apply plain_no_write].
  - intros t s w0. apply grows_set_task, grows_refl.
  - intros a w0 HP. now apply sound_set_active.
  - intros a w0 HP. exists [(a, SetSessionReady true)]. repeat split.
    cbn [forallb]. now rewrite HP.
  - auto.
Qed.

Lemma after_connect_emits (env : StartEnv) (w : World) :
  grows emitted
    (record Start Connect
       (record Start
          (Log INFO ("Starting WebSocket voice session with model "
                     ++ model (self w))) w))
    (snd (start env w)).
Proof.
  apply (related_after_connect (grows emitted) emitted).
  - apply grows_refl.
  - apply grows_trans.
  - intros a e w0 HP Hpl. apply grows_record; [exact HP | now apply plain_no_write].
  - intros t s w0. apply grows_set_task, grows_refl.
  - intros a w0 HP. now apply sound_set_active.
  - intros a w0 HP. exists [(a, SetSessionReady true)]. repeat split.
    cbn [forallb]. now rewrite HP.
  - intros a c w0 HP. now apply sound_set_connection.
  - auto.
Qed.

Lemma after_set_connection_keeps (env : StartEnv) (w : World)
    (c : VoiceLiveConnection) :
  connected env = Returns c ->
  evolves (self (connected_world c w)) (self (snd (start env w))).
Proof.
  intros Hc.
  apply (related_after_set_connection
           (fun w0 w1 => evolves (self w0) (self w1)) (fun _ => true));
    try exact Hc.
  - intros w0. apply evolves_refl.
  - intros w1 w2 w3. apply evolves_trans.
  - intros a e w0 _ _. apply evolves_refl.
  - intros [] s w0; apply evolves_refl.
  - intros a w0 _. cbn. unfold evolves. cbn. tauto.
  - intros a w0 _. cbn. unfold evolves. cbn. tauto.
  - auto.
Qed.

Lemma forallb_both {A} (P Q : A -> bool) (l : list A) :
  forallb P l = true -> forallb Q l = true ->
  forallb (fun x => P x && Q x) l = true.
Proof.
  induction l as [|x l IH]; cbn [forallb]; [reflexivity|].
  intros HP HQ. apply andb_prop in HP, HQ.
  destruct HP as [-> HP], HQ as [-> HQ]. cbn [andb]. now apply IH.
Qed.

Lemma relay_lawful_by_relay (ae : Actor * Effect) :
  relay_lawful ae = true -> by_relay ae = true.
Proof. unfold relay_lawful. intros H. now apply andb_prop in H. Qed.

(** What the relay tasks do while [start] waits. *)
Lemma asyncio_wait_relays (schedule : list Step) (w : World) :
  receive_state w = Created -> process_state w = Created ->
  exists relayed,
    trace (snd (asyncio_wait schedule w)) = (trace w ++ relayed)%list /\
    forallb relay_effect relayed = true.
Proof.
  intros Sr Sp.
  destruct (asyncio_wait_spec schedule w Sr Sp) as ((l & Tl & Fl & _) & _).
  destruct (asyncio_wait_emits schedule w) as (l' & Tl' & Fl' & _).
  assert (l' = l) by (eapply app_inv_head; rewrite <- Tl, <- Tl'; reflexivity).
  subst l'. exists l. split; [exact Tl|].
  unfold relay_effect. apply forallb_both; [|exact Fl'].
  rewrite forallb_forall in *. intros ae Hin. now apply relay_lawful_by_relay, Fl.
Qed.

Lemma until_wait_refused (env : StartEnv) (w : World) (e : exn) :
  connected env = Throws e ->
  exists w1,
    until_wait env w = (Raise e, w1) /\
    trace w1 = (trace w ++ session_opening (self w))%list /\
    self w1 = self w /\
    receive_state w1 = receive_state w /\ process_state w1 = process_state w.
Proof.
  intros Hc. run_start. rewrite Hc. simpl_world.
  eexists. split; [reflexivity|]. unfold session_opening.
  flatten_trace. repeat split; reflexivity.
Qed.

Lemma until_wait_unconfigured (env : StartEnv) (w : World)
    (c : VoiceLiveConnection) (e : exn) :
  connected env = Returns c -> configured env = Throws e ->
  exists w1,
    until_wait env w = (Raise e, w1) /\
    trace w1 = (trace w ++ session_opening (self w) ++ session_setup (self w))%list /\
    connection (self w1) = Some c /\ active (self w1) = active (self w) /\
    receive_state w1 = receive_state w /\ process_state w1 = process_state w.
Proof.
  intros Hc Hu. run_start. rewrite Hc. simpl_world. rewrite Hu. simpl_world.
  eexists. split; [reflexivity|]. unfold session_opening, session_setup, request_session.
  rewrite voice_test. flatten_trace. repeat split; reflexivity.
Qed.

Lemma until_wait_prologue (env : StartEnv) (w : World) (c : VoiceLiveConnection) :
  connected env = Returns c -> configured env = Returns tt ->
  exists w0,
    until_wait env w = asyncio_wait (schedule env) w0 /\
    trace w0 = (trace w ++ session_prologue (self w))%list /\
    receive_state w0 = Created /\ process_state w0 = Created /\
    active (self w0) = active (self w) /\ connection (self w0) = Some c.
Proof.
  intros Hc Hu. run_start. rewrite Hc. simpl_world. rewrite Hu. simpl_world.
  eexists. split; [reflexivity|].
  unfold session_prologue, session_opening, session_setup, request_session.
  rewrite voice_test. flatten_trace. repeat split; reflexivity.
Qed.

(** [start] when its [try] block raises before the relay. *)
Lemma start_failure (env : StartEnv) (w w1 : World) (e : exn) :
  until_wait env w = (Raise e, w1) ->
  exists w',
    start env w = (failure_result e, w') /\
    trace w' =
      (trace w1 ++
       match connected env with
       | Returns _ => [(Start, Disconnect)]
       | Throws _ => []
       end ++ failure_report e ++
       [(Start, SetActive false); (Start, Log INFO "Voice session ended")])%list /\
    active (self w') = false /\
    receive_state w' = receive_state w1 /\ process_state w' = process_state w1 /\
    connection (self w') = connection (self w1).
Proof.
  intros H. unfold start, finally_, try_. rewrite start_try_unfold, H.
  unfold failure_result, failure_report.
  destruct e as [text|text|]; cbn [start_except is_Exception str];
    cbv [start_finally send_json try_ bind set_active log emit lift ret];
    simpl_world.
  - destruct (connected env); simpl_world;
      (eexists; split; [reflexivity|]); flatten_trace; repeat split; reflexivity.
  - destruct (notified env) as [[]|x]; destruct (connected env); simpl_world;
      (eexists; split; [reflexivity|]); unfold error_notification;
      flatten_trace; repeat split; reflexivity.
  - destruct (connected env); simpl_world;
      (eexists; split; [reflexivity|]); flatten_trace; repeat split; reflexivity.
Qed.

(** The trace of [start] when it fails before the relay. *)
Lemma start_failure_trace (env : StartEnv) (w : World) (e : exn) :
  connected env = Throws e \/
  (exists c, connected env = Returns c /\ configured env = Throws e) ->
  exists w',
    start env w = (failure_result e, w') /\
    added w w' =
      (session_opening (self w) ++
       match connected env with
       | Returns _ => session_setup (self w) ++ [(Start, Disconnect)]
       | Throws _ => []
       end ++ failure_report e ++
       [(Start, SetActive false); (Start, Log INFO "Voice session ended")])%list /\
    active (self w') = false /\
    receive_state w' = receive_state w /\ process_state w' = process_state w.
Proof.
  intros [Hc | (c & Hc & Hu)].
  - destruct (until_wait_refused env w e Hc) as (w1 & E & T & _ & Sr & Sp).
    destruct (start_failure env w w1 e E) as (w' & E' & T' & A & Sr' & Sp' & _).
    exists w'. rewrite Hc in *. rewrite T in T'.
    split; [exact E'|]. split; [|repeat split; congruence].
    erewrite added_app; [reflexivity|]. rewrite T', <- !app_assoc. reflexivity.
  - destruct (until_wait_unconfigured env w c e Hc Hu) as (w1 & E & T & _ & _ & Sr & Sp).
    destruct (start_failure env w w1 e E) as (w' & E' & T' & A & Sr' & Sp' & _).
    exists w'. rewrite Hc in *. rewrite T in T'.
    split; [exact E'|]. split; [|repeat split; congruence].
    erewrite added_app; [reflexivity|]. rewrite T', <- !app_assoc. reflexivity.
Qed.

Lemma pending_at_most_one (w : World) :
  filter (is_done w) [receive_task; process_task] <> [] ->
  (List.length (filter (fun t => negb (is_done w t)) [receive_task; process_task])
   <= 1)%nat.
Proof.
  cbn [filter].
  destruct (is_done w receive_task), (is_done w process_task);
    cbn [negb List.length]; intros H; try lia. now elim H.
Qed.

(** The trace of [start] once the session is configured. *)
Lemma start_success_trace (env : StartEnv) (w : World) (c : VoiceLiveConnection) :
  connected env = Returns c -> configured env = Returns tt ->
  exists relayed,
    forallb relay_effect relayed = true /\
    ((fst (start env w) = Suspended /\
      added w (snd (start env w)) = (session_prologue (self w) ++ relayed)%list) \/
     (exists pending,
        (fst (start env w) = Ok tt \/ fst (start env w) = Raise CancelledError) /\
        (List.length pending <= 1)%nat /\
        added w (snd (start env w))
        = (session_prologue (self w) ++ relayed ++
           cancellations pending ++ session_epilogue)%list)).
Proof.
  intros Hc Hu.
  destruct (until_wait_prologue env w c Hc Hu) as (w0 & E & T0 & Sr & Sp & _).
  destruct (asyncio_wait_relays (schedule env) w0 Sr Sp) as (relayed & T1 & F).
  exists relayed. split; [exact F|].
  rewrite <- E in T1.
  destruct (until_wait env w) as [[[done pending]|e|] w1] eqn:U; cbn [snd] in T1.
  - right. exists pending.
    destruct (until_wait_spec _ _ _ _ _ U) as (_ & _ & D & Pn & Ne).
    destruct (start_after_wait _ _ _ _ _ U) as (r & w' & S & R & T & _).
    rewrite S. cbn [fst snd]. split; [exact R|]. split.
    + subst done pending. now apply pending_at_most_one.
    + erewrite added_app; [reflexivity|].
      rewrite T, T1, T0, <- !app_assoc. reflexivity.
  - exfalso. destruct (until_wait_raises _ _ _ _ U) as (_ & [Hx | (c' & _ & Hx)]);
      congruence.
  - left. unfold start, finally_, try_. rewrite start_try_unfold, U. cbn [fst snd].
    split; [reflexivity|].
    erewrite added_app; [reflexivity|]. rewrite T1, T0, <- !app_assoc. reflexivity.
Qed.

(* ================================================================== *)
(** ** Sessions nobody cancels *)

Lemma nc_ret {A} (a : A) : never_cancelled (ret a).
Proof. intros w. discriminate. Qed.

Lemma nc_raise {A} (e : exn) : is_Exception e = true -> never_cancelled (@raise A e).
Proof. intros H w. cbn. intros [= ->]. discriminate. Qed.

Lemma nc_lift {A} (o : outcome A) : uncancelled o = true -> never_cancelled (lift o).
Proof. intros H w. destruct o as [a|[]]; cbn; discriminate. Qed.

Lemma nc_get_self : never_cancelled get_self.
Proof. intros w. discriminate. Qed.

Lemma nc_bind {A B} (m : M A) (k : A -> M B) :
  never_cancelled m -> (forall a, never_cancelled (k a)) -> never_cancelled (bind m k).
Proof.
  intros Hm Hk w. unfold bind. specialize (Hm w).
  destruct (m w) as [[a|e|] w1]; cbn [fst] in *;
    [apply Hk | intros [= ->]; now apply Hm | discriminate].
Qed.

Lemma nc_try {A} (body : M A) (handlers : exn -> option (M A)) :
  never_cancelled body ->
  (forall e h, handlers e = Some h -> never_cancelled h) ->
  never_cancelled (try_ body handlers).
Proof.
  intros Hb Hh w. unfold try_. specialize (Hb w).
  destruct (body w) as [[a|e|] w1]; cbn [fst] in *; try discriminate.
  destruct (handlers e) as [h|] eqn:E; [eapply Hh; eassumption | exact Hb].
Qed.

Lemma nc_emit (a : Actor) (e : Effect) : never_cancelled (emit a e).
Proof. intros w. discriminate. Qed.

Lemma nc_log (a : Actor) (lvl : Level) (text : string) :
  never_cancelled (log a lvl text).
Proof. apply nc_emit. Qed.

Lemma nc_set_active (a : Actor) (v : bool) : never_cancelled (set_active a v).
Proof. intros w. discriminate. Qed.

Lemma nc_set_session_ready (a : Actor) (v : bool) :
  never_cancelled (set_session_ready a v).
Proof. intros w. discriminate. Qed.

Lemma nc_send_json (a : Actor) (msg : json) (sent : outcome unit) :
  uncancelled sent = true -> never_cancelled (send_json a msg sent).
Proof.
  intros H. unfold send_json. apply nc_bind; [apply nc_emit|].
  intros _. now apply nc_lift.
Qed.

Lemma nc_upstream_call (a : Actor) (c : Command) (called : outcome unit) :
  uncancelled called = true -> never_cancelled (upstream_call a c called).
Proof.
  intros H. unfold upstream_call. apply nc_bind; [apply nc_emit|].
  intros _. now apply nc_lift.
Qed.

Lemma nc_dict_get (data : json) (key : string) : never_cancelled (dict_get data key).
Proof. destruct data; cbn [dict_get]; first [apply nc_ret | now apply nc_raise]. Qed.

Lemma nc_attr {A} (failure : string) (field : option A) :
  never_cancelled (attr failure field).
Proof. destruct field; cbn [attr]; [apply nc_ret | now apply nc_raise]. Qed.

Lemma nc_assert_connection : never_cancelled assert_connection.
Proof.
  unfold assert_connection. apply nc_bind; [apply nc_get_self|].
  intros s. destruct (connection s); [apply nc_ret | now apply nc_raise].
Qed.

Ltac nc_step :=
  first
    [ apply nc_ret | apply nc_get_self | apply nc_dict_get | apply nc_attr
    | apply nc_assert_connection | apply nc_log | apply nc_set_active
    | apply nc_set_session_ready
    | apply nc_raise; reflexivity
    | apply nc_lift; assumption
    | apply nc_send_json; assumption
    | apply nc_upstream_call; assumption
    | apply nc_bind; [|intros ?]
    | match goal with
      | |- never_cancelled (if ?b then _ else _) => destruct b
      | |- never_cancelled (match ?x with _ => _ end) => destruct x
      end ].

Lemma nc_handle_azure_event (event : ServerEvent) (sent : outcome unit) :
  uncancelled sent = true -> never_cancelled (_handle_azure_event event sent).
Proof.
  intros H. unfold _handle_azure_event. apply nc_try.
  - repeat nc_step.
  - intros e h. destruct (is_Exception e); intros [= <-]. repeat nc_step.
Qed.

Lemma nc_receive_handlers (e : exn) (h : M Status) :
  receive_handlers e = Some h -> never_cancelled h.
Proof. destruct e; intros [= <-]; repeat nc_step. Qed.

Lemma nc_process_handlers (e : exn) (h : M Status) :
  process_handlers e = Some h -> never_cancelled h.
Proof.
  unfold process_handlers. destruct (is_Exception e); intros [= <-]; repeat nc_step.
Qed.

Lemma nc_step_code (s : Step) :
  cancel_free_step s = true -> never_cancelled (step_code s).
Proof.
  destruct s as [received called | next sent]; cbn [cancel_free_step step_code];
    intros H; apply andb_prop in H; destruct H as [H1 H2].
  - unfold _receive_from_browser_resume, receive_body, while_active.
    apply nc_try; [repeat nc_step | apply nc_receive_handlers].
  - unfold _process_azure_events_resume.
    apply nc_try; [|apply nc_process_handlers].
    apply nc_bind; [now apply nc_lift|]. intros [event|]; [|apply nc_ret].
    apply nc_bind; [apply nc_get_self|]. intros s.
    destruct (negb (active s)); [apply nc_ret|].
    apply nc_bind; [now apply nc_handle_azure_event | intros _; apply nc_ret].
Qed.

Lemma nc_enter_code (t : Task) : never_cancelled (enter_code t).
Proof.
  destruct t; cbn [enter_code].
  - unfold _receive_from_browser_enter, while_active.
    apply nc_try; [repeat nc_step | apply nc_receive_handlers].
  - unfold _process_azure_events_enter.
    apply nc_try; [repeat nc_step | apply nc_process_handlers].
Qed.

Lemma clean_settle (t : Task) (code : M Status) (w : World) :
  steady code -> contained (fst (code w)) -> never_cancelled code ->
  (forall u, u <> t -> clean_state (task_state w u) = true) ->
  clean (settle t (code w)).
Proof.
  intros Hs Hc Hn Hu. destruct (settle_spec t code w Hs Hc) as (_ & _ & K).
  assert (T : clean_state (task_state (settle t (code w)) t) = true).
  { specialize (Hn w). destruct (Hs w) as (N & _).
    destruct (code w) as [[[]|e|] w1]; cbn [fst settle contained] in *;
      try congruence; rewrite task_state_set_task; destruct t; reflexivity. }
  intros u. destruct t, u; try exact T; rewrite K by discriminate;
    apply Hu; discriminate.
Qed.

Lemma clean_step (s : Step) (w : World) :
  cancel_free_step s = true -> clean w -> clean (step s w).
Proof.
  intros Hf Hc. unfold step.
  destruct (task_state w (step_task s)); try exact Hc.
  apply clean_settle;
    [ apply steady_step_code | apply contained_step_code
    | now apply nc_step_code | intros u _; apply Hc ].
Qed.

Lemma clean_run (schedule : list Step) (w : World) :
  forallb cancel_free_step schedule = true -> clean w -> clean (run schedule w).
Proof.
  revert w. induction schedule as [|s rest IH]; intros w Hf Hc; cbn [run].
  - exact Hc.
  - cbn [forallb] in Hf. apply andb_prop in Hf. destruct Hf as [Hs Hf].
    apply IH; [exact Hf | now apply clean_step].
Qed.

Lemma clean_entered (w : World) :
  receive_state w = Created -> process_state w = Created ->
  clean (enter process_task (enter receive_task w)).
Proof.
  intros Sr Sp.
  assert (E1 : enter receive_task w = settle receive_task (enter_code receive_task w)).
  { unfold enter. cbn [task_state]. now rewrite Sr. }
  pose proof (settle_spec receive_task (enter_code receive_task) w
                (steady_enter_code _) (contained_enter_code _ _)) as (_ & _ & K).
  assert (T : clean_state (receive_state (enter receive_task w)) = true).
  { rewrite E1.
    pose proof (nc_enter_code receive_task w) as Hn.
    destruct (steady_enter_code receive_task w) as (N & _).
    pose proof (contained_enter_code receive_task w) as Hc.
    destruct (enter_code receive_task w) as [[[]|e|] w1];
      cbn [fst settle contained] in *; try congruence; reflexivity. }
  assert (P1 : process_state (enter receive_task w) = Created).
  { rewrite E1. rewrite <- Sp. apply (K process_task). discriminate. }
  unfold enter at 1. cbn [task_state]. rewrite P1.
  apply clean_settle;
    [ apply steady_enter_code | apply contained_enter_code | apply nc_enter_code |].
  intros [] Hu; [exact T | now elim Hu].
Qed.

Lemma clean_tidy (w : World) : clean w -> tidy w.
Proof.
  intros H t. specialize (H t).
  destruct (task_state w t) as [| | |[[]|[]]]; try discriminate; reflexivity.
Qed.

(** Lines 134-145 when no task was cancelled before: the cancellation of
    the pending tasks is absorbed and no finished task holds an
    exception. *)
Lemma settle_race_clean (w : World) :
  clean w ->
  fst (settle_race (filter (is_done w) [receive_task; process_task],
                    filter (fun t => negb (is_done w t)) [receive_task; process_task])
         w) = Ok tt.
Proof.
  intros Hc.
  pose proof (Hc receive_task) as Hr. pose proof (Hc process_task) as Hp.
  destruct w as [s rs ps tr]. cbn [task_state receive_state process_state] in Hr, Hp.
  destruct rs as [| | |[[]|[]]]; try discriminate Hr;
    destruct ps as [| | |[[]|[]]]; try discriminate Hp; reflexivity.
Qed.

Lemma start_unless_cancelled (env : StartEnv) (w : World) :
  cancel_free env = true ->
  fst (start env w) = Ok tt \/ fst (start env w) = Suspended.
Proof.
  unfold cancel_free. intros H.
  apply andb_prop in H. destruct H as [H Hs].
  apply andb_prop in H. destruct H as [Hc Hu].
  destruct (until_wait env w) as [[[done pending]|e|] w1] eqn:U.
  - left.
    destruct (until_wait_returns _ _ _ _ U) as (c & Ec & Eu).
    destruct (until_wait_prologue env w c Ec Eu) as (w0 & E & _ & Sr & Sp & _).
    destruct (until_wait_spec _ _ _ _ _ U) as (_ & _ & D & Pn & _).
    assert (Cl : clean w1).
    { rewrite E in U. unfold asyncio_wait in U. cbv zeta in U.
      assert (W : w1 = run (schedule env) (enter process_task (enter receive_task w0))).
      { destruct (filter _ _); congruence. }
      rewrite W. apply clean_run; [exact Hs | now apply clean_entered]. }
    pose proof (settle_race_clean w1 Cl) as S. rewrite <- D, <- Pn in S.
    unfold start, finally_, try_. rewrite (start_try_after_wait _ _ _ _ U).
    destruct (settle_race (done, pending) w1) as [r w2]. cbn [fst] in S. subst r.
    reflexivity.
  - left. destruct (start_failure env w w1 e U) as (w' & E & _). rewrite E.
    cbn [fst]. unfold failure_result.
    destruct (until_wait_raises _ _ _ _ U) as (_ & [Hx | (c' & _ & Hx)]).
    + rewrite Hx in Hc. destruct e; try reflexivity. discriminate.
    + rewrite Hx in Hu. destruct e; try reflexivity. discriminate.
  - right. unfold start, finally_, try_. rewrite start_try_unfold, U. reflexivity.
Qed.

Lemma start_contained (env : StartEnv) (w : World) :
  contained (fst (start env w)).
Proof.
  destruct (until_wait env w) as [[[done pending]|e|] w1] eqn:U.
  - destruct (start_after_wait _ _ _ _ _ U) as (r & w' & S & [-> | ->] & _);
      rewrite S; cbn; auto.
  - destruct (start_failure env w w1 e U) as (w' & E & _). rewrite E.
    destruct e; cbn; auto.
  - unfold start, finally_, try_. rewrite start_try_unfold, U. exact I.
Qed.

(* ================================================================== *)
(** ** Counting the effects of a session *)

Lemma occurrences_app (kind : Effect -> bool) (l1 l2 : list (Actor * Effect)) :
  occurrences kind (l1 ++ l2) = (occurrences kind l1 + occurrences kind l2)%nat.
Proof. unfold occurrences. now rewrite filter_app, length_app. Qed.

Lemma occurrences_none (kind : Effect -> bool) (l : list (Actor * Effect)) :
  (forall ae, In ae l -> kind (snd ae) = false) -> occurrences kind l = 0%nat.
Proof.
  unfold occurrences. induction l as [|ae l IH]; intros H; [reflexivity|].
  cbn [filter]. rewrite (H ae (or_introl eq_refl)).
  apply IH. intros x Hx. apply H. now right.
Qed.

Lemma relay_never (kind : Effect -> bool) (l : list (Actor * Effect)) :
  (forall t e, emitted (Relay t, e) = true -> kind e = false) ->
  forallb relay_effect l = true -> occurrences kind l = 0%nat.
Proof.
  intros Hk F. apply occurrences_none. intros [a e] Hin.
  rewrite forallb_forall in F. specialize (F _ Hin).
  unfold relay_effect in F. apply andb_prop in F. destruct F as [B E].
  destruct a; try discriminate B. cbn [snd]. eapply Hk; eassumption.
Qed.

Lemma relay_no_connect (l : list (Actor * Effect)) :
  forallb relay_effect l = true -> occurrences is_connect l = 0%nat.
Proof. apply relay_never. intros t e. destruct t, e; try reflexivity; discriminate. Qed.

Lemma relay_no_disconnect (l : list (Actor * Effect)) :
  forallb relay_effect l = true -> occurrences is_disconnect l = 0%nat.
Proof. apply relay_never. intros t e. destruct t, e; try reflexivity; discriminate. Qed.

Lemma relay_no_create (l : list (Actor * Effect)) :
  forallb relay_effect l = true -> occurrences is_create l = 0%nat.
Proof. apply relay_never. intros t e. destruct t, e; try reflexivity; discriminate. Qed.

Lemma cancellations_never (kind : Effect -> bool) (pending : list Task) :
  (forall t, kind (CancelTask t) = false) ->
  (forall t, kind (AwaitTask t) = false) ->
  occurrences kind (cancellations pending) = 0%nat.
Proof.
  intros Hc Ha. apply occurrences_none. intros ae Hin.
  unfold cancellations in Hin. apply in_flat_map in Hin.
  destruct Hin as (t & _ & [<- | [<- | []]]); cbn [snd]; auto.
Qed.

Lemma start_counts (env : StartEnv) (w : World) :
  let l := added w (snd (start env w)) in
  occurrences is_connect l = 1%nat /\
  occurrences is_disconnect l
  = match connected env, fst (start env w) with
    | Returns _, Suspended => 0%nat
    | Returns _, _ => 1%nat
    | Throws _, _ => 0%nat
    end /\
  occurrences is_create l
  = match connected env, configured env with
    | Returns _, Returns _ => 2%nat
    | _, _ => 0%nat
    end.
Proof.
  cbv zeta.
  destruct (connected env) as [c|e] eqn:Hc.
  - destruct (configured env) as [[]|e] eqn:Hu.
    + destruct (start_success_trace env w c Hc Hu)
        as (relayed & F & [(S & T) | (pending & R & _ & T)]).
      * rewrite T, S, !occurrences_app.
        rewrite (relay_no_connect _ F), (relay_no_disconnect _ F),
          (relay_no_create _ F).
        repeat split; reflexivity.
      * rewrite T, !occurrences_app.
        rewrite (relay_no_connect _ F), (relay_no_disconnect _ F),
          (relay_no_create _ F).
        rewrite !cancellations_never by reflexivity.
        destruct R as [-> | ->]; repeat split; reflexivity.
    + destruct (start_failure_trace env w e) as (w' & E & T & _).
      { right. exists c. now split. }
      rewrite E. cbn [fst snd]. rewrite T, Hc.
      destruct e; repeat split; reflexivity.
  - destruct (start_failure_trace env w e (or_introl Hc)) as (w' & E & T & _).
    rewrite E. cbn [fst snd]. rewrite T, Hc.
    destruct e; repeat split; reflexivity.
Qed.

(* ================================================================== *)
(** ** [start] from its first line to its last *)

(** X2 ([start]).  When the upstream connection cannot be opened, or is
    opened and [session.update] fails, [start] creates no relay task and
    ends at once: it closes the connection if it had opened it, logs the
    failure, for an [Exception] that is not a disconnect of the browser
    also hands one [error] notification to the browser socket (whose own
    failure is swallowed), sets [active] to false and logs the end.  It
    returns normally unless the failure is a cancellation, which it lets
    through. *)
Theorem start_gives_up_before_relay
    (env : StartEnv) (w : World) (e : exn)
    (Hfail : connected env = Throws e \/
             (exists c, connected env = Returns c /\ configured env = Throws e)) :
  exists w',
    start env w = (failure_result e, w') /\
    added w w' =
      (session_opening (self w) ++
       match connected env with
       | Returns _ => session_setup (self w) ++ [(Start, Disconnect)]
       | Throws _ => []
       end ++ failure_report e ++
       [(Start, SetActive false); (Start, Log INFO "Voice session ended")])%list /\
    active (self w') = false /\
    receive_state w' = receive_state w /\ process_state w' = process_state w.
Proof. exact (start_failure_trace env w e Hfail). Qed.

(** X2, when [session.update] is rejected. *)
Lemma start_gives_up_before_relay_witness :
  exists w',
    start env_rejected (fresh demo_session)
    = (failure_result (Exception "invalid voice"), w') /\
    added (fresh demo_session) w' =
      (session_opening (self (fresh demo_session)) ++
       match connected env_rejected with
       | Returns _ =>
           session_setup (self (fresh demo_session)) ++ [(Start, Disconnect)]
       | Throws _ => []
       end ++ failure_report (Exception "invalid voice") ++
       [(Start, SetActive false); (Start, Log INFO "Voice session ended")])%list /\
    active (self w') = false /\
    receive_state w' = receive_state (fresh demo_session) /\
    process_state w' = process_state (fresh demo_session).
Proof.
  apply (start_gives_up_before_relay env_rejected (fresh demo_session)
           (Exception "invalid voice")).
  right. exists upstream. split; reflexivity.
Defined.

(** X3 ([start]).  The effects of a session that was configured and came
    to its end are, in this order: the prologue of [start] (log, connect,
    store the connection, log, [session.update], log, the two tasks
    created), then effects of the relay tasks only, then the cancellation
    and the await of the task that was still pending, if any, and at most
    one is, then the close of the upstream connection, [active] set to
    false and the closing log line.  [start] returns normally or lets a
    cancellation through. *)
Theorem session_anatomy
    (env : StartEnv) (w : World) (c : VoiceLiveConnection)
    (Hc : connected env = Returns c) (Hu : configured env = Returns tt)
    (Hr : fst (start env w) <> Suspended) :
  exists relayed pending,
    added w (snd (start env w))
    = (session_prologue (self w) ++ relayed ++
       cancellations pending ++ session_epilogue)%list /\
    forallb relay_effect relayed = true /\
    (List.length pending <= 1)%nat /\
    (fst (start env w) = Ok tt \/ fst (start env w) = Raise CancelledError).
Proof.
  destruct (start_success_trace env w c Hc Hu)
    as (relayed & F & [(S & _) | (pending & R & L & T)]).
  - contradiction.
  - exists relayed, pending. repeat split; assumption.
Qed.

(** X3, for a session the browser stops. *)
Lemma session_anatomy_witness :
  exists relayed pending,
    added (fresh demo_session) (snd (start env_stop (fresh demo_session)))
    = (session_prologue (self (fresh demo_session)) ++ relayed ++
       cancellations pending ++ session_epilogue)%list /\
    forallb relay_effect relayed = true /\
    (List.length pending <= 1)%nat /\
    (fst (start env_stop (fresh demo_session)) = Ok tt \/
     fst (start env_stop (fresh demo_session)) = Raise CancelledError).
Proof.
  apply (session_anatomy env_stop (fresh demo_session) upstream eq_refl eq_refl).
  vm_compute. discriminate.
Defined.

(** X4 ([start]).  In every run of [start] the upstream connection is
    asked for exactly once; it is closed exactly once when it was opened
    and [start] came to its end, and never otherwise; and the two relay
    tasks are created exactly when the connection was opened and
    configured. *)
Theorem upstream_opened_once_closed_iff_opened (env : StartEnv) (w : World) :
  let l := added w (snd (start env w)) in
  occurrences is_connect l = 1%nat /\
  occurrences is_disconnect l
  = match connected env, fst (start env w) with
    | Returns _, Suspended => 0%nat
    | Returns _, _ => 1%nat
    | Throws _, _ => 0%nat
    end /\
  occurrences is_create l
  = match connected env, configured env with
    | Returns _, Returns _ => 2%nat
    | _, _ => 0%nat
    end.
Proof. exact (start_counts env w). Qed.

(** X5 ([start], [websocket_endpoint] and the relay coroutines).  Every
    effect is one its actor may have: the browser task only logs, calls
    the upstream connection with a command other than [session.update],
    and sets [active] to false; the event task only logs, sends to the
    browser socket, sets [session_ready] to true and [active] to false;
    [start] never accepts or closes the browser socket, never sets
    [session_ready], never sends audio or a cancel upstream; the endpoint
    only accepts, logs, sends and closes.  So during the relay each socket
    has one writer. *)
Theorem effects_stay_in_channel
    (cfg : Settings) (websocket : nat) (env : StartEnv) (w : World) :
  forallb emitted (added w (snd (start env w))) = true /\
  forallb emitted (snd (websocket_endpoint cfg websocket env)) = true.
Proof.
  split.
  - destruct (start_emits env w) as (l & T & F & _).
    now rewrite (added_app _ _ _ T).
  - unfold websocket_endpoint.
    destruct (unset (AZURE_VOICELIVE_ENDPOINT cfg)
              || unset (AZURE_VOICELIVE_API_KEY cfg)); [reflexivity|].
    match goal with
    | |- context [start env ?w0] =>
        destruct (start_emits env w0) as (l & T & F & _);
        destruct (start env w0) as [r w1]
    end.
    cbn [snd fst] in *. cbn [fresh trace app] in T. rewrite T.
    cbn [forallb app emitted andb]. exact F.
Qed.

(** X6 ([start]).  Across a run of [start], however it ends, the
    configuration of the session (socket, endpoint, credential, model,
    voice, instructions) is never changed, [session_ready] is never reset,
    [active] is never set again once false, and [self.connection] is never
    cleared: it holds the connection that was opened, also after that
    connection has been closed, and is left as it was when the connect
    failed. *)
Theorem session_record_through_start (env : StartEnv) (w : World) :
  evolves (self w) (self (snd (start env w))) /\
  connection (self (snd (start env w)))
  = match connected env with
    | Returns c => Some c
    | Throws _ => connection (self w)
    end.
Proof.
  split; [apply start_keeps|].
  destruct (connected env) as [c|e] eqn:Hc.
  - pose proof (after_set_connection_keeps env w c Hc) as K.
    destruct K as (_ & _ & _ & _ & _ & _ & K & _). now apply K.
  - destruct (until_wait_refused env w e Hc) as (w1 & E & _ & S & _).
    destruct (start_failure env w w1 e E) as (w' & E' & _ & _ & _ & _ & C).
    rewrite E'. cbn [snd]. now rewrite C, S.
Qed.

(** X7 ([start]).  The only exception [start] lets out is a
    cancellation: every [Exception], a disconnect of the browser
    included, is absorbed by its handlers, failures of the error report
    too. *)
Theorem start_raises_only_cancellation (env : StartEnv) (w : World) :
  contained (fst (start env w)).
Proof. exact (start_contained env w). Qed.

(** X8 ([start]).  When nobody cancels, neither the connect nor the
    configuration call nor any read or send of a relay task, [start]
    returns normally if it returns at all, whatever else fails: the
    cancellation it throws into the pending task itself is absorbed. *)
Theorem start_ends_normally_unless_cancelled
    (env : StartEnv) (w : World) (Hfree : cancel_free env = true) :
  fst (start env w) = Ok tt \/ fst (start env w) = Suspended.
Proof. exact (start_unless_cancelled env w Hfree). Qed.

(** X8, when the upstream event stream fails. *)
Lemma start_ends_normally_unless_cancelled_witness :
  fst (start env_late_audio (fresh demo_session)) = Ok tt \/
  fst (start env_late_audio (fresh demo_session)) = Suspended.
Proof.
  apply (start_ends_normally_unless_cancelled env_late_audio (fresh demo_session)).
  reflexivity.
Defined.

(* ================================================================== *)
(** ** The endpoint *)

(** X9 ([websocket_endpoint]).  The endpoint accepts the browser socket
    first in every case, and asks for the upstream connection exactly once
    when both the endpoint and the key are set and non-empty, and not at
    all otherwise; the relay tasks are created only in a configured server
    whose upstream connection was opened and configured. *)
Theorem endpoint_opens_upstream_iff_configured
    (cfg : Settings) (websocket : nat) (env : StartEnv) :
  let l := snd (websocket_endpoint cfg websocket env) in
  let unconfigured :=
    unset (AZURE_VOICELIVE_ENDPOINT cfg) || unset (AZURE_VOICELIVE_API_KEY cfg) in
  firstn 1 l = [(Endpoint, Accept)] /\
  occurrences is_connect l = (if unconfigured then 0 else 1)%nat /\
  occurrences is_create l
  = (if unconfigured then 0
     else match connected env, configured env with
          | Returns _, Returns _ => 2
          | _, _ => 0
          end)%nat.
Proof.
  cbv zeta. unfold websocket_endpoint.
  destruct (unset (AZURE_VOICELIVE_ENDPOINT cfg)
            || unset (AZURE_VOICELIVE_API_KEY cfg)).
  - repeat split.
  - match goal with
    | |- context [start env ?w0] =>
        pose proof (start_counts env w0) as (C & _ & K);
        destruct (start env w0) as [r w1]
    end.
    cbn [snd fst] in *. unfold added in C, K.
    cbn [fresh trace List.length skipn] in C, K.
    split; [reflexivity|].
    rewrite !occurrences_app, C, K. split; reflexivity.
Qed.

(* ================================================================== *)
(** ** A session at work *)

Lemma entered_relaying (w : World) :
  receive_state w = Created -> process_state w = Created ->
  active (self w) = true -> is_set (connection (self w)) = true ->
  trace (enter process_task (enter receive_task w)) = trace w /\
  relaying_state (enter process_task (enter receive_task w)).
Proof.
  intros Sr Sp Ha Hs. unfold enter. cbn [task_state]. rewrite Sr.
  cbn [enter_code]. unfold _receive_from_browser_enter, while_active.
  cbv [try_ bind get_self ret]. rewrite Ha. cbn [settle]. simpl_world.
  rewrite Sp. unfold _process_azure_events_enter, assert_connection.
  cbv [try_ bind get_self ret raise]. simpl_world.
  destruct (connection (self w)) as [c|] eqn:C; [|discriminate].
  cbn [settle]. unfold relaying_state. simpl_world. rewrite C, Ha.
  repeat split.
Qed.

Lemma commands_app (l1 l2 : list (Actor * Effect)) :
  commands (l1 ++ l2) = (commands l1 ++ commands l2)%list.
Proof. unfold commands. apply flat_map_app. Qed.

(** X10 ([start] with both relay coroutines).  In a session that is
    opened and configured, as long as no turn ends either loop, [start]
    keeps waiting, and what has gone out is: upstream, the configuration
    followed by the translations of the browser messages in their order
    of arrival; to the browser, the notifications of the upstream events
    in their order of arrival.  Nothing else is sent in either
    direction. *)
Theorem session_relays_in_order
    (env : StartEnv) (w : World) (c : VoiceLiveConnection)
    (Hc : connected env = Returns c) (Hu : configured env = Returns tt)
    (Ha : active (self w) = true)
    (Hcalm : forallb calm (schedule env) = true) :
  fst (start env w) = Suspended /\
  commands (added w (snd (start env w)))
  = session_update (request_session (self w))
    :: flat_map forwarded (messages (schedule env)) /\
  sends (added w (snd (start env w)))
  = flat_map notification_of (events (schedule env)).
Proof.
  destruct (until_wait_prologue env w c Hc Hu) as (w0 & E & T0 & Sr & Sp & A0 & C0).
  assert (S0 : is_set (connection (self w0)) = true) by now rewrite C0.
  rewrite <- A0 in Ha.
  destruct (entered_relaying w0 Sr Sp Ha S0) as (Te & Re).
  destruct (calm_run (schedule env) _ Re Hcalm) as (l & Tl & Cl & Sl & Rl).
  assert (U : until_wait env w
              = (Suspended,
                 run (schedule env) (enter process_task (enter receive_task w0)))).
  { rewrite E. unfold asyncio_wait. cbv zeta.
    destruct Rl as (R1 & R2 & _). unfold is_done. cbn [filter task_state].
    now rewrite R1, R2. }
  unfold start, finally_, try_. rewrite start_try_unfold, U. cbn [fst snd].
  split; [reflexivity|].
  assert (T : trace (run (schedule env) (enter process_task (enter receive_task w0)))
              = (trace w ++ session_prologue (self w) ++ l)%list).
  { now rewrite Tl, Te, T0, <- app_assoc. }
  rewrite (added_app _ _ _ T). split.
  - rewrite commands_app, Cl, forwarded_by_messages. reflexivity.
  - rewrite sends_app, Sl, notified_by_events. reflexivity.
Qed.

(** X10, on a schedule with traffic in both directions. *)
Lemma session_relays_in_order_witness :
  fst (start env_busy (fresh demo_session)) = Suspended /\
  commands (added (fresh demo_session) (snd (start env_busy (fresh demo_session))))
  = session_update (request_session (self (fresh demo_session)))
    :: flat_map forwarded (messages (schedule env_busy)) /\
  sends (added (fresh demo_session) (snd (start env_busy (fresh demo_session))))
  = flat_map notification_of (events (schedule env_busy)).
Proof.
  apply (session_relays_in_order env_busy (fresh demo_session) upstream
           eq_refl eq_refl eq_refl eq_refl).
Defined.

(* ================================================================== *)
(** ** The text of an audio notification *)

Section Base64Shape.
Import Base64.

Lemma base64_char_digit (k : nat) (n : Z) :
  (0 <= n < 16777216)%Z -> base64_char (digit (sextet k n)) = true.
Proof.
  intros Hn. unfold base64_char.
  now rewrite (value_digit _ (sextet_range k n Hn)).
Qed.

Lemma b64encode_length (data : list byte) :
  String.length (b64encode data) = (4 * ((List.length data + 2) / 3))%nat.
Proof.
  induction data as [|a|a b|a b c rest IH] using list_ind3; try reflexivity.
  cbn [b64encode String.length List.length]. rewrite IH.
  replace (S (S (S (List.length rest))) + 2)%nat
    with (1 * 3 + (List.length rest + 2))%nat by lia.
  rewrite Nat.div_add_l by discriminate. lia.
Qed.

Lemma b64encode_chars (data : list byte) :
  forallb base64_char (list_ascii_of_string (b64encode data)) = true.
Proof.
  induction data as [|a|a b|a b c rest IH] using list_ind3.
  - reflexivity.
  - pose proof (octet_range a) as Ha.
    cbn [b64encode list_ascii_of_string forallb].
    rewrite !base64_char_digit by (apply group_range; lia). reflexivity.
  - pose proof (octet_range a) as Ha. pose proof (octet_range b) as Hb.
    cbn [b64encode list_ascii_of_string forallb].
    rewrite !base64_char_digit by (apply group_range; lia). reflexivity.
  - pose proof (octet_range a) as Ha. pose proof (octet_range b) as Hb.
    pose proof (octet_range c) as Hc.
    cbn [b64encode list_ascii_of_string forallb].
    rewrite !base64_char_digit by (apply group_range; lia). exact IH.
Qed.

End Base64Shape.

(** X11 ([_handle_azure_event], the [audio] field).  The text sent for an
    audio delta of [n] octets has [4 * ceil(n / 3)] characters, each a
    digit of the base64 alphabet or the padding character: it is plain
    ASCII, so its decoding to [str] cannot fail, and a third longer than
    the audio. *)
Theorem audio_text_shape (data : list byte) :
  String.length (Base64.b64encode data) = (4 * ((List.length data + 2) / 3))%nat /\
  forallb base64_char (list_ascii_of_string (Base64.b64encode data)) = true.
Proof. split; [apply b64encode_length | apply b64encode_chars]. Qed.
